(** * vscode-cfml: the lexical context engine and the component parser

    A shallow embedding of [src/utils/contextUtil.ts] and
    [src/entities/component.ts].  JavaScript strings are Rocq strings of
    8-bit code units, a one-character string stands for a character as
    [String.prototype.charAt] returns it, document offsets are natural
    numbers, and the editor's text buffer is a document with LF line
    ends. *)

From Stdlib Require String Ascii.
From Stdlib Require Import Arith Bool Lia List Sorted.
From stdpp Require Import gmap strings list.
Import ListNotations.

(** ** JavaScript string primitives *)

Module Js.

(** [s.charAt(i)]: the one-character string at [i], the empty string
    out of range. *)
Definition charAt (s : string) (i : nat) : string :=
  match String.get i s with
  | Some c => String c EmptyString
  | None => EmptyString
  end.

(** [s.endsWith(suffix)]. *)
Definition endsWith (s suffix : string) : bool :=
  let n := String.length s in
  let m := String.length suffix in
  (m <=? n) && String.eqb (String.substring (n - m) m s) suffix.

(** [s.startsWith(p, i)]. *)
Definition startsWithAt (s p : string) (i : nat) : bool :=
  String.eqb (String.substring i (String.length p) s) p
  && (i + String.length p <=? String.length s).

(** [xs.includes(x)] on an array of strings. *)
Definition includes (xs : list string) (x : string) : bool :=
  existsb (String.eqb x) xs.

(** White space as [trim] knows it, within the 8-bit code units. *)
Definition isWhiteSpace (c : Ascii.ascii) : bool :=
  let n := Ascii.nat_of_ascii c in
  ((9 <=? n) && (n <=? 13)) || (n =? 32) || (n =? 160).

Fixpoint trimStart (s : string) : string :=
  match s with
  | String c s' => if isWhiteSpace c then trimStart s' else s
  | EmptyString => EmptyString
  end.

Fixpoint trimEnd (s : string) : string :=
  match s with
  | String c s' =>
      match trimEnd s' with
      | EmptyString => if isWhiteSpace c then EmptyString else String c EmptyString
      | rest => String c rest
      end
  | EmptyString => EmptyString
  end.

(** [s.trim()] *)
Definition trim (s : string) : string := trimEnd (trimStart s).

(** [s.split(sep)] for a separator of one character. *)
Fixpoint split (sep : Ascii.ascii) (s : string) : list string :=
  match s with
  | EmptyString => [EmptyString]
  | String c s' =>
      if Ascii.eqb c sep then EmptyString :: split sep s'
      else
        match split sep s' with
        | piece :: pieces => String c piece :: pieces
        | [] => [String c EmptyString]
        end
  end.

(** [s.replace(/x/g, by)] for a pattern of one character. *)
Fixpoint replaceAll (x : Ascii.ascii) (by_ : string) (s : string) : string :=
  match s with
  | EmptyString => EmptyString
  | String c s' =>
      if Ascii.eqb c x then by_ +:+ replaceAll x by_ s'
      else String c (replaceAll x by_ s')
  end.

(** What a call gives: a value, or an error it throws. *)
Inductive Outcome (A : Type) : Type :=
| Returned (a : A)
| Thrown (error : string).
Arguments Returned {A} a.
Arguments Thrown {A} error.

Definition bind {A B : Type} (m : Outcome A) (k : A -> Outcome B) : Outcome B :=
  match m with
  | Returned a => k a
  | Thrown e => Thrown e
  end.

End Js.

(** ** The editor's text buffer *)

Module Vscode.

Record Position := mkPosition { line : nat; character : nat }.

Definition isEqual (p q : Position) : bool :=
  (line p =? line q) && (character p =? character q).

Definition isBefore (p q : Position) : bool :=
  (line p <? line q) || ((line p =? line q) && (character p <? character q)).

Definition isBeforeOrEqual (p q : Position) : bool :=
  (line p <? line q) || ((line p =? line q) && (character p <=? character q)).

(** [position.translate(0, characterDelta)] for a delta that is not
    positive, written with the amount taken off.  The editor raises on
    a negative character; the scans only take off what the current
    line holds. *)
Definition translateBack (p : Position) (n : nat) : Position :=
  mkPosition (line p) (character p - n).

Record Range := { start : Position; stop : Position }.

(** [new Range(a, b)]: the ends are swapped when [a] is after [b]. *)
Definition mkRange (a b : Position) : Range :=
  if isBeforeOrEqual a b then {| start := a; stop := b |}
  else {| start := b; stop := a |}.

(** [range.contains(position)], inclusive of both ends. *)
Definition containsPosition (r : Range) (p : Position) : bool :=
  isBeforeOrEqual (start r) p && isBeforeOrEqual p (stop r).

(** [range.contains(otherRange)]. *)
Definition containsRange (r o : Range) : bool :=
  containsPosition r (start o) && containsPosition r (stop o).

Definition LF : Ascii.ascii := Ascii.ascii_of_nat 10.

Fixpoint positionFrom (s : string) (n ln ch : nat) : Position :=
  match n, s with
  | S n', String c s' =>
      if Ascii.eqb c LF then positionFrom s' n' (S ln) 0
      else positionFrom s' n' ln (S ch)
  | _, _ => mkPosition ln ch
  end.

Fixpoint offsetFrom (s : string) (ln ch acc : nat) : nat :=
  match s with
  | EmptyString => acc
  | String c s' =>
      match ln with
      | S ln' =>
          if Ascii.eqb c LF then offsetFrom s' ln' ch (S acc)
          else offsetFrom s' ln ch (S acc)
      | 0 =>
          match ch with
          | 0 => acc
          | S ch' =>
              if Ascii.eqb c LF then acc else offsetFrom s' 0 ch' (S acc)
          end
      end
  end.

Record Uri := { fsPath : string }.

Record TextDocument := { getText : string; fileName : string; uri : Uri }.

(** [document.positionAt(offset)]: an offset past the end gives the
    position of the end. *)
Definition positionAt (d : TextDocument) (offset : nat) : Position :=
  positionFrom (getText d) offset 0 0.

(** [document.offsetAt(position)]: a character past the end of its line
    gives the end of the line, a line past the last one the end of the
    text. *)
Definition offsetAt (d : TextDocument) (p : Position) : nat :=
  offsetFrom (getText d) (line p) (character p) 0.

End Vscode.

Export Vscode.

(** ** src/utils/contextUtil.ts *)

(** [isInRanges(ranges, position)] and [isInRanges(ranges, range)]. *)
Definition isInRangesPosition (ranges : list Range) (p : Position) : bool :=
  existsb (fun range => containsPosition range p) ranges.

Definition isInRanges (ranges : list Range) (r : Range) : bool :=
  existsb (fun range => containsRange range r) ranges.

(** *** invertRanges *)

(** The body of the [forEach] callback, on the two variables it closes
    over. *)
Definition invertStep (st : Position * list Range) (range : Range)
  : Position * list Range :=
  let '(previousEndPosition, invertedRanges) := st in
  if isEqual previousEndPosition (start range) then
    (stop range, invertedRanges)
  else
    (previousEndPosition,
     invertedRanges ++ [mkRange previousEndPosition (start range)]).

Definition invertRanges (document : TextDocument) (ranges : list Range)
  : list Range :=
  let documentEndPosition :=
    positionAt document (String.length (getText document)) in
  let '(previousEndPosition, invertedRanges) :=
    fold_left invertStep ranges (mkPosition 0 0, []) in
  if negb (isEqual previousEndPosition documentEndPosition) then
    invertedRanges ++ [mkRange previousEndPosition documentEndPosition]
  else invertedRanges.

Definition doc (text : string) : TextDocument :=
  {| getText := text; fileName := EmptyString;
     uri := {| fsPath := EmptyString |} |}.

(** Two ranges overlap when each starts before the other stops. *)
Definition overlaps (a b : Range) : bool :=
  isBefore (start a) (stop b) && isBefore (start b) (stop a).

(** *** The string context of the forward scans *)

Record StringContext := {
  inString : bool;
  activeStringDelimiter : option string;
  embeddedCFML : bool
}.

Definition noString : StringContext :=
  {| inString := false; activeStringDelimiter := None; embeddedCFML := false |}.

Definition openString (delimiter : string) : StringContext :=
  {| inString := true; activeStringDelimiter := Some delimiter;
     embeddedCFML := false |}.

Definition embeddedCFMLDelimiter : string := "#".

Definition SINGLE_QUOTE : string := "'".
Definition DOUBLE_QUOTE : string := String (Ascii.ascii_of_nat 34) EmptyString.

Definition isStringDelimiter (char : string) : bool :=
  String.eqb char SINGLE_QUOTE || String.eqb char DOUBLE_QUOTE.

(** [characterAtPosition === stringContext.activeStringDelimiter]. *)
Definition isActiveDelimiter (sc : StringContext) (char : string) : bool :=
  match activeStringDelimiter sc with
  | Some d => String.eqb char d
  | None => false
  end.

(** The branch [if (stringContext.inString) { ... }], which the three
    forward scans spell out in the same words. *)
Definition inStringStep (sc : StringContext) (char : string) : StringContext :=
  if String.eqb char embeddedCFMLDelimiter then
    {| inString := inString sc;
       activeStringDelimiter := activeStringDelimiter sc;
       embeddedCFML := negb (embeddedCFML sc) |}
  else if negb (embeddedCFML sc) && isActiveDelimiter sc char then noString
  else sc.

(** *** Loops with an early return *)

Inductive Step (St R : Type) : Type :=
| Continue (s : St)
| Return (r : R).
Arguments Continue {St R} s.
Arguments Return {St R} r.

(** [for (offset = from; offset < from + n; offset++) body]. *)
Fixpoint forLoop {St R : Type} (body : nat -> St -> Step St R)
    (n from : nat) (s : St) : Step St R :=
  match n with
  | 0 => Continue s
  | S n' =>
      match body from s with
      | Continue s' => forLoop body n' (S from) s'
      | Return r => Return r
      end
  end.

(** *** Character pairs *)

Definition characterPairs : list (string * string) :=
  [ ("{", "}"); ("[", "]"); ("(", ")"); (DOUBLE_QUOTE, DOUBLE_QUOTE);
    (SINGLE_QUOTE, SINGLE_QUOTE);
    ("#", "#"); ("<", ">") ].

Definition getCharacterPair (character : string) : option (string * string) :=
  find (fun charPair =>
          String.eqb (fst charPair) character
          || String.eqb (snd charPair) character) characterPairs.

Definition getOpeningChar (closingChar : string) : string :=
  match getCharacterPair closingChar with
  | None => EmptyString
  | Some characterPair => fst characterPair
  end.

Record DocumentStateContext := {
  document : TextDocument;
  sanitizedDocumentText : string
}.

(** *** getClosingPosition *)

Record ClosingState := {
  unclosedPairs : nat;
  closingString : StringContext
}.

Definition closingBody (documentText openingChar closingChar : string)
    (offset : nat) (st : ClosingState) : Step ClosingState nat :=
  let characterAtPosition := Js.charAt documentText offset in
  let stringContext := closingString st in
  if inString stringContext then
    Continue {| unclosedPairs := unclosedPairs st;
                closingString := inStringStep stringContext characterAtPosition |}
  else if isStringDelimiter characterAtPosition then
    Continue {| unclosedPairs := unclosedPairs st;
                closingString := openString characterAtPosition |}
  else if String.eqb characterAtPosition openingChar then
    Continue {| unclosedPairs := S (unclosedPairs st);
                closingString := stringContext |}
  else if String.eqb characterAtPosition closingChar then
    match unclosedPairs st with
    | S n => Continue {| unclosedPairs := n; closingString := stringContext |}
    | 0 => Return (offset + 1)
    end
  else Continue st.

(** The position is given back as the offset handed to
    [document.positionAt]. *)
Definition getClosingOffset (ctx : DocumentStateContext)
    (initialOffset : nat) (closingChar : string) : nat :=
  let openingChar := getOpeningChar closingChar in
  let documentText := sanitizedDocumentText ctx in
  match forLoop (closingBody documentText openingChar closingChar)
          (String.length documentText - initialOffset) initialOffset
          {| unclosedPairs := 0; closingString := noString |} with
  | Return r => r
  | Continue _ => initialOffset
  end.


(** *** getNextCharacterPosition *)

Record PairItem := {
  characterPair : string * string;
  unclosedPairCount : Z
}.

Definition pairContext0 : list PairItem :=
  [ {| characterPair := ("{", "}"); unclosedPairCount := 0 |};
    {| characterPair := ("[", "]"); unclosedPairCount := 0 |};
    {| characterPair := ("(", ")"); unclosedPairCount := 0 |} ].

Definition openingPairs (searchChar : list string) : list string :=
  List.filter (fun openingChar => negb (Js.includes searchChar openingChar))
    (map (fun pairItem => fst (characterPair pairItem)) pairContext0).

Definition closingPairs (searchChar : list string) : list string :=
  List.filter (fun closingChar => negb (Js.includes searchChar closingChar))
    (map (fun pairItem => snd (characterPair pairItem)) pairContext0).

Definition incrementUnclosedPair (openingChar : string)
    (pairContext : list PairItem) : list PairItem :=
  map (fun pairItem =>
         if String.eqb openingChar (fst (characterPair pairItem)) then
           {| characterPair := characterPair pairItem;
              unclosedPairCount := unclosedPairCount pairItem + 1 |}
         else pairItem) pairContext.

Definition decrementUnclosedPair (closingChar : string)
    (pairContext : list PairItem) : list PairItem :=
  map (fun pairItem =>
         if String.eqb closingChar (snd (characterPair pairItem)) then
           {| characterPair := characterPair pairItem;
              unclosedPairCount := unclosedPairCount pairItem - 1 |}
         else pairItem) pairContext.

Definition hasNoUnclosedPairs (pairContext : list PairItem) : bool :=
  forallb (fun pairItem => Z.eqb (unclosedPairCount pairItem) 0) pairContext.

Record NextState := {
  pairContext : list PairItem;
  nextString : StringContext
}.

Definition nextBody (documentText : string) (searchChar : list string)
    (includeChar : bool) (offset : nat) (st : NextState) : Step NextState nat :=
  let characterAtPosition := Js.charAt documentText offset in
  let stringContext := nextString st in
  if inString stringContext then
    Continue {| pairContext := pairContext st;
                nextString := inStringStep stringContext characterAtPosition |}
  else if isStringDelimiter characterAtPosition then
    Continue {| pairContext := pairContext st;
                nextString := openString characterAtPosition |}
  else if Js.includes (openingPairs searchChar) characterAtPosition then
    Continue {| pairContext := incrementUnclosedPair characterAtPosition (pairContext st);
                nextString := stringContext |}
  else if Js.includes (closingPairs searchChar) characterAtPosition then
    Continue {| pairContext := decrementUnclosedPair characterAtPosition (pairContext st);
                nextString := stringContext |}
  else if Js.includes searchChar characterAtPosition
          && hasNoUnclosedPairs (pairContext st) then
    if includeChar then Return (offset + 1) else Return offset
  else Continue st.

(** [char] is handed over as the array [searchChar]: a single string is
    the array of that one string. *)
Definition getNextCharacterOffset (ctx : DocumentStateContext)
    (startOffset endOffset : nat) (searchChar : list string)
    (includeChar : bool) : nat :=
  let documentText := sanitizedDocumentText ctx in
  match forLoop (nextBody documentText searchChar includeChar)
          (endOffset - startOffset) startOffset
          {| pairContext := pairContext0; nextString := noString |} with
  | Return r => r
  | Continue _ => endOffset
  end.


Definition context (text : string) : DocumentStateContext :=
  {| document := doc text; sanitizedDocumentText := text |}.

(** *** What the forward scans are to compute

    The string tracker on its own, and what it makes of an offset: an
    offset is code when no string is open before it and its character
    opens none. *)

Definition stringStep (sc : StringContext) (char : string) : StringContext :=
  if inString sc then inStringStep sc char
  else if isStringDelimiter char then openString char
  else sc.

Fixpoint stringContextAfter (text : string) (n from : nat)
    (sc : StringContext) : StringContext :=
  match n with
  | 0 => sc
  | S n' => stringContextAfter text n' (S from) (stringStep sc (Js.charAt text from))
  end.

(** The string context before offset [o] of a scan begun at [init]. *)
Definition stringContextAt (text : string) (init o : nat) : StringContext :=
  stringContextAfter text (o - init) init noString.

Definition isCodeAt (text : string) (init o : nat) : bool :=
  negb (inString (stringContextAt text init o))
  && negb (isStringDelimiter (Js.charAt text o)).

(** How many offsets of [init .. o) are code and pass [p]. *)
Definition countCode (text : string) (init o : nat) (p : string -> bool) : nat :=
  length (List.filter (fun k => isCodeAt text init k && p (Js.charAt text k))
            (seq init (o - init))).

Definition isOpening (openingChar char : string) : bool :=
  String.eqb char openingChar.

Definition isClosing (openingChar closingChar char : string) : bool :=
  String.eqb char closingChar && negb (String.eqb char openingChar).

(** The matching close: a closing character in code, with as many
    openings as closings between the initial offset and it. *)
Definition isMatchingClose (text : string) (init : nat)
    (openingChar closingChar : string) (o : nat) : bool :=
  isCodeAt text init o
  && isClosing openingChar closingChar (Js.charAt text o)
  && (countCode text init o (isOpening openingChar)
      =? countCode text init o (isClosing openingChar closingChar)).

Definition closingPairOffset (text : string) (init : nat)
    (closingChar : string) : nat :=
  match List.find (isMatchingClose text init (getOpeningChar closingChar) closingChar)
          (seq init (String.length text - init)) with
  | Some o => o + 1
  | None => init
  end.

(** What the loop of [getClosingPosition] holds before offset [o]: the
    tracker's string context, and an unclosed count that is the openings
    less the closings read so far. *)
Definition closingInv (text : string) (init : nat)
    (openingChar closingChar : string) (o : nat) (st : ClosingState) : Prop :=
  init <= o
  /\ closingString st = stringContextAt text init o
  /\ unclosedPairs st
     + countCode text init o (isClosing openingChar closingChar)
     = countCode text init o (isOpening openingChar).

(** The three pair kinds that [getNextCharacterPosition] counts. *)
Definition trackedPairs : list (string * string) :=
  [ ("{", "}"); ("[", "]"); ("(", ")") ].

(** The unclosed count of a pair kind before offset [o]: its openings
    less its closings in code since [init], a delimiter that is itself
    searched for not being counted. *)
Definition unclosedCount (text : string) (init : nat) (searchChar : list string)
    (o : nat) (pair : string * string) : Z :=
  (Z.of_nat (countCode text init o
               (fun c => String.eqb c (fst pair) && negb (Js.includes searchChar c)))
   - Z.of_nat (countCode text init o
                 (fun c => String.eqb c (snd pair) && negb (Js.includes searchChar c))))%Z.

(** An unnested occurrence of a target: a searched character in code, at
    which all three unclosed counts are zero. *)
Definition isUnnestedTarget (text : string) (init : nat)
    (searchChar : list string) (o : nat) : bool :=
  isCodeAt text init o
  && Js.includes searchChar (Js.charAt text o)
  && forallb (fun pair => Z.eqb (unclosedCount text init searchChar o pair) 0)
       trackedPairs.

Definition nextUnnestedOffset (text : string) (startOffset endOffset : nat)
    (searchChar : list string) (includeChar : bool) : nat :=
  match List.find (isUnnestedTarget text startOffset searchChar)
          (seq startOffset (endOffset - startOffset)) with
  | Some o => if includeChar then o + 1 else o
  | None => endOffset
  end.

(** What the loop of [getNextCharacterPosition] holds before offset [o]. *)
Definition nextInv (text : string) (init : nat) (searchChar : list string)
    (o : nat) (st : NextState) : Prop :=
  init <= o
  /\ nextString st = stringContextAt text init o
  /\ pairContext st
     = map (fun pair => {| characterPair := pair;
                           unclosedPairCount := unclosedCount text init searchChar o pair |})
         trackedPairs.

(** *** Comment rules

    Modelled from the spec: the comment delimiter table [cfmlCommentRules]
    and the [CommentContext] record of [src/features/comment.ts], which
    is not among the sources.  The spec gives a comment context a kind
    (Line or Block), a delimiter pair and a start; the delimiters are
    those the three comment patterns of this file sweep for, the tag
    comment in its CFML form of three dashes. *)

Inductive CommentType := Line | Block.

Record CFMLCommentRules := {
  scriptBlockComment : string * string;
  scriptLineComment : string;
  tagBlockComment : string * string
}.

Definition cfmlCommentRules : CFMLCommentRules :=
  {| scriptBlockComment := ("/*", "*/");
     scriptLineComment := "//";
     tagBlockComment := ("<!---", "--->") |}.

(** [activeComment: string | CharacterPair]. *)
Inductive ActiveComment :=
| LineDelimiter (s : string)
| BlockDelimiters (delimiters : string * string).

Record CommentContext := {
  inComment : bool;
  activeComment : option ActiveComment;
  commentType : option CommentType;
  commentStart : option Position
}.

Definition noComment : CommentContext :=
  {| inComment := false; activeComment := None; commentType := None;
     commentStart := None |}.

(** [activeComment[1]]: the closing delimiter of a pair, the second
    character of a string. *)
Definition index1 (a : ActiveComment) : option string :=
  match a with
  | LineDelimiter s =>
      match String.get 1 s with
      | Some c => Some (String c EmptyString)
      | None => None
      end
  | BlockDelimiters delimiters => Some (snd delimiters)
  end.

(** [lineText.endsWith(commentContext.activeComment[1])]; an undefined
    argument is searched for under its name. *)
Definition endsWithClose (lineText : string) (a : option ActiveComment) : bool :=
  match a with
  | Some a =>
      match index1 a with
      | Some close => Js.endsWith lineText close
      | None => Js.endsWith lineText "undefined"
      end
  | None => false
  end.

Definition isLine (t : option CommentType) : bool :=
  match t with Some Line => true | _ => false end.

Definition isBlock (t : option CommentType) : bool :=
  match t with Some Block => true | _ => false end.

(** [new Range(a, b)] on positions a scan has set; no scan reads one
    before setting it, and the origin stands for it here. *)
Definition rangeOf (a b : option Position) : Range :=
  mkRange (default (mkPosition 0 0) a) (default (mkPosition 0 0) b).

(** *** getCommentRangesIterated: the scan *)

Record ScanState := {
  commentRanges : list Range;
  commentContext : CommentContext;
  lineText : string;
  stringContext : StringContext;
  previousPosition : option Position
}.

Definition scanState0 : ScanState :=
  {| commentRanges := []; commentContext := noComment; lineText := EmptyString;
     stringContext := noString; previousPosition := None |}.

(** [previousPosition && position.line !== previousPosition.line]. *)
Definition lineChanged (position : Position) (previous : option Position) : bool :=
  match previous with
  | Some p => negb (line position =? line p)
  | None => false
  end.

(** One turn of the loop over the offsets. *)
Definition scanBody (document : TextDocument) (documentText : string)
    (isScript : bool) (offset : nat) (st : ScanState) : ScanState :=
  let position := positionAt document offset in
  let characterAtPosition := Js.charAt documentText offset in
  let previous := previousPosition st in
  let lineText :=
    (if lineChanged position previous then EmptyString else lineText st)
    +:+ characterAtPosition in
  let cc := commentContext st in
  let sc := stringContext st in
  let next (ranges : list Range) (cc : CommentContext) (sc : StringContext) :=
    {| commentRanges := ranges; commentContext := cc; lineText := lineText;
       stringContext := sc; previousPosition := Some position |} in
  if inComment cc then
    if isLine (commentType cc) && lineChanged position previous then
      next (commentRanges st ++ [rangeOf (commentStart cc) previous]) noComment sc
    else if isBlock (commentType cc) && endsWithClose lineText (activeComment cc) then
      next (commentRanges st
              ++ [rangeOf (commentStart cc) (Some (positionAt document (offset + 1)))])
        noComment sc
    else next (commentRanges st) cc sc
  else if inString sc then
    next (commentRanges st) cc (inStringStep sc characterAtPosition)
  else if isScript then
    if isStringDelimiter characterAtPosition then
      next (commentRanges st) cc (openString characterAtPosition)
    else if Js.endsWith lineText (scriptLineComment cfmlCommentRules) then
      next (commentRanges st)
        {| inComment := true;
           activeComment := Some (LineDelimiter (scriptLineComment cfmlCommentRules));
           commentType := Some Line;
           commentStart := previous |} sc
    else if Js.endsWith lineText (fst (scriptBlockComment cfmlCommentRules)) then
      next (commentRanges st)
        {| inComment := true;
           activeComment := Some (LineDelimiter (scriptLineComment cfmlCommentRules));
           commentType := Some Block;
           commentStart := previous |} sc
    else next (commentRanges st) cc sc
  else if Js.endsWith lineText (fst (tagBlockComment cfmlCommentRules)) then
    next (commentRanges st)
      {| inComment := true;
         activeComment := Some (BlockDelimiters (tagBlockComment cfmlCommentRules));
         commentType := Some Block;
         commentStart :=
           Some (translateBack position
                   (String.length (fst (tagBlockComment cfmlCommentRules)) - 1)) |} sc
  else next (commentRanges st) cc sc.

(** [for (offset = from; offset < from + n; offset++)] without a return. *)
Fixpoint scanLoop (document : TextDocument) (documentText : string)
    (isScript : bool) (n from : nat) (st : ScanState) : ScanState :=
  match n with
  | 0 => st
  | S n' =>
      scanLoop document documentText isScript n' (S from)
        (scanBody document documentText isScript from st)
  end.

(** The offsets a scan runs over: those of [docRange] when it is given,
    the whole text otherwise. *)
Definition scanBounds (document : TextDocument) (docRange : option Range)
  : nat * nat :=
  match docRange with
  | Some range => (offsetAt document (start range), offsetAt document (stop range))
  | None => (0, String.length (getText document))
  end.

(** The scan state before offset [o]. *)
Definition scanStateAt (document : TextDocument) (isScript : bool)
    (docRange : option Range) (o : nat) : ScanState :=
  let textOffsetStart := fst (scanBounds document docRange) in
  scanLoop document (getText document) isScript (o - textOffsetStart)
    textOffsetStart scanState0.

(** The ranges the loop has pushed when it ends. *)
Definition scannedRanges (document : TextDocument) (isScript : bool)
    (docRange : option Range) : list Range :=
  let '(textOffsetStart, textOffsetEnd) := scanBounds document docRange in
  commentRanges
    (scanLoop document (getText document) isScript
       (textOffsetEnd - textOffsetStart) textOffsetStart scanState0).

(** *** The comment patterns

    A pattern is given by what it matches at an index: the end of the
    match when there is one.  [sweep] is the loop
    [while (match = pattern.exec(text))] of a global pattern: the
    leftmost match at or after [lastIndex], which then moves to the end
    of that match. *)

Definition Pattern := string -> nat -> option nat.

Fixpoint indexOfFrom (s p : string) (n i : nat) : option nat :=
  match n with
  | 0 => None
  | S n' => if Js.startsWithAt s p i then Some i else indexOfFrom s p n' (S i)
  end.

(** [s.indexOf(p, from)] for a [p] that is not empty. *)
Definition indexOf (s p : string) (from : nat) : option nat :=
  indexOfFrom s p (String.length s - from) from.

(** [open[\s\S]*?close]: the opening, then as little as will do up to
    the closing. *)
Definition lazyBlockPattern (opening closing : string) : Pattern :=
  fun text i =>
    if Js.startsWithAt text opening i then
      match indexOf text closing (i + String.length opening) with
      | Some j => Some (j + String.length closing)
      | None => None
      end
    else None.

Definition CR : Ascii.ascii := Ascii.ascii_of_nat 13.

Definition isLineBreak (char : string) : bool :=
  String.eqb char (String CR EmptyString) || String.eqb char (String LF EmptyString).

Fixpoint restOfLine (text : string) (n i : nat) : nat :=
  match n with
  | 0 => i
  | S n' => if isLineBreak (Js.charAt text i) then i else restOfLine text n' (S i)
  end.

(** [/\/\/[^\r\n]*/g] *)
Definition cfscriptLineCommentPattern : Pattern :=
  fun text i =>
    if Js.startsWithAt text "//" i then
      Some (restOfLine text (String.length text - (i + 2)) (i + 2))
    else None.

(** [/\/\*[\s\S]*?\*\//g] *)
Definition cfscriptBlockCommentPattern : Pattern := lazyBlockPattern "/*" "*/".

(** [/<!--[\s\S]*?-->/g] *)
Definition tagBlockCommentPattern : Pattern := lazyBlockPattern "<!--" "-->".

Fixpoint sweep (matchAt : nat -> option nat) (n i lastIndex : nat)
  : list (nat * nat) :=
  match n with
  | 0 => []
  | S n' =>
      if i <? lastIndex then sweep matchAt n' (S i) lastIndex
      else
        match matchAt i with
        | Some e => (i, e) :: sweep matchAt n' (S i) e
        | None => sweep matchAt n' (S i) lastIndex
        end
  end.

(** The matches of a pattern over a text, each as its index and end. *)
Definition execAll (pattern : Pattern) (text : string) : list (nat * nat) :=
  sweep (pattern text) (String.length text) 0 0.

(** [document.getText(range)] *)
Definition getTextIn (document : TextDocument) (range : Range) : string :=
  let a := offsetAt document (start range) in
  let b := offsetAt document (stop range) in
  String.substring a (b - a) (getText document).

(** The text a pattern runs over and where it sits in the document. *)
Definition regexBounds (document : TextDocument) (docRange : option Range)
  : string * nat :=
  match docRange with
  | Some range => (getTextIn document range, offsetAt document (start range))
  | None => (getText document, 0)
  end.

(** The ranges pushed for the matches of one pattern. *)
Definition matchRanges (document : TextDocument) (textOffset : nat)
    (pattern : Pattern) (documentText : string) : list Range :=
  map (fun m =>
         let startOffset := textOffset + fst m in
         mkRange (positionAt document startOffset)
                 (positionAt document (startOffset + (snd m - fst m))))
    (execAll pattern documentText).

(** *** Tagged script regions

    [getTagPattern] of [src/entities/tag.ts] is not among the sources: the
    matches its pattern yields on a text are taken as given, each with
    its index and its three groups. *)

Record TagMatch := {
  matchIndex : nat;
  group1 : string;
  group2 : string;
  group3 : option string
}.

Section CommentRanges.

Variable execTagPattern : string -> string -> list TagMatch.

Definition getCfScriptRanges (document : TextDocument) (range : option Range)
  : list Range :=
  let '(documentText, textOffset) := regexBounds document range in
  flat_map
    (fun cfscriptTagMatch =>
       let prefixLen :=
         String.length (group1 cfscriptTagMatch)
         + String.length (group2 cfscriptTagMatch) + 1 in
       match group3 cfscriptTagMatch with
       | Some cfscriptBodyText =>
           if String.eqb cfscriptBodyText EmptyString then []
           else
             let cfscriptBodyStartOffset :=
               textOffset + matchIndex cfscriptTagMatch + prefixLen in
             [mkRange (positionAt document cfscriptBodyStartOffset)
                      (positionAt document
                         (cfscriptBodyStartOffset + String.length cfscriptBodyText))]
       | None => []
       end)
    (execTagPattern "cfscript" documentText).

(** [getCommentRangesByRegex(document, true, docRange)] *)
Definition scriptCommentRangesByRegex (document : TextDocument)
    (docRange : option Range) : list Range :=
  let '(documentText, textOffset) := regexBounds document docRange in
  matchRanges document textOffset cfscriptBlockCommentPattern documentText
  ++ matchRanges document textOffset cfscriptLineCommentPattern documentText.

(** The call inside the [forEach] over the script regions is the one
    with [isScript] true, which calls no further. *)
Definition getCommentRangesByRegex (document : TextDocument) (isScript : bool)
    (docRange : option Range) : list Range :=
  if isScript then scriptCommentRangesByRegex document docRange
  else
    let '(documentText, textOffset) := regexBounds document docRange in
    fold_left
      (fun commentRanges range =>
         commentRanges ++ scriptCommentRangesByRegex document (Some range))
      (getCfScriptRanges document docRange)
      (matchRanges document textOffset tagBlockCommentPattern documentText).

(** A scan with [isScript] true looks for no script regions and returns
    what its loop pushed; so does the call inside the [forEach]. *)
Definition getCommentRangesIterated (document : TextDocument) (isScript : bool)
    (docRange : option Range) : list Range :=
  let cfScriptRanges :=
    if isScript then [] else getCfScriptRanges document docRange in
  let commentRanges := scannedRanges document isScript docRange in
  match cfScriptRanges with
  | [] => commentRanges
  | _ :: _ =>
      fold_left
        (fun commentRanges range =>
           if negb (isInRanges commentRanges range) then
             commentRanges ++ scannedRanges document true (Some range)
           else commentRanges)
        cfScriptRanges
        (List.filter (fun range => negb (isInRanges cfScriptRanges range))
           commentRanges)
  end.

Definition getCommentRanges (document : TextDocument) (isScript : bool)
    (docRange : option Range) (fast : bool) : list Range :=
  if fast then getCommentRangesByRegex document isScript docRange
  else getCommentRangesIterated document isScript docRange.

End CommentRanges.

(** No tag pattern match: a text without script tags. *)
Definition noTags : string -> string -> list TagMatch := fun _ _ => [].

(** *** The forward scans, turn by turn

    The three scans that keep a string context, and for each the turns
    it takes: the string context before a turn, the character read and
    the string context after.  A scan that returns takes no further
    turn. *)

Inductive ForwardScan :=
| CommentScan (document : TextDocument) (isScript : bool)
| NextCharacterScan (text : string) (searchChar : list string) (includeChar : bool)
| ClosingScan (text : string) (closingChar : string).

Record StringTurn := {
  before : StringContext;
  read : string;
  after : StringContext
}.

Fixpoint scanTurns (document : TextDocument) (documentText : string)
    (isScript : bool) (n from : nat) (st : ScanState) : list StringTurn :=
  match n with
  | 0 => []
  | S n' =>
      let st' := scanBody document documentText isScript from st in
      {| before := stringContext st; read := Js.charAt documentText from;
         after := stringContext st' |}
      :: scanTurns document documentText isScript n' (S from) st'
  end.

Fixpoint loopTurns {St R : Type} (proj : St -> StringContext) (text : string)
    (body : nat -> St -> Step St R) (n from : nat) (st : St) : list StringTurn :=
  match n with
  | 0 => []
  | S n' =>
      match body from st with
      | Continue st' =>
          {| before := proj st; read := Js.charAt text from; after := proj st' |}
          :: loopTurns proj text body n' (S from) st'
      | Return _ => []
      end
  end.

(** The first [n] turns of a scan begun at offset [from]. *)
Definition turns (scan : ForwardScan) (from n : nat) : list StringTurn :=
  match scan with
  | CommentScan document isScript =>
      scanTurns document (getText document) isScript n from scanState0
  | NextCharacterScan text searchChar includeChar =>
      loopTurns nextString text (nextBody text searchChar includeChar) n from
        {| pairContext := pairContext0; nextString := noString |}
  | ClosingScan text closingChar =>
      loopTurns closingString text
        (closingBody text (getOpeningChar closingChar) closingChar) n from
        {| unclosedPairs := 0; closingString := noString |}
  end.

(** An embedded expression is active only inside a string. *)
Definition embeddedInString (sc : StringContext) : Prop :=
  embeddedCFML sc = true -> inString sc = true.

Definition toggleEmbedded (sc : StringContext) : StringContext :=
  {| inString := inString sc;
     activeStringDelimiter := activeStringDelimiter sc;
     embeddedCFML := negb (embeddedCFML sc) |}.

(** What a turn keeps to: the invariant before and after; inside a
    string the embedded-expression delimiter toggles and leaves the
    string open; a string is closed by its active delimiter, read while
    no embedded expression is active. *)
Definition turnKeeps (t : StringTurn) : Prop :=
  embeddedInString (before t)
  /\ embeddedInString (after t)
  /\ (inString (before t) = true -> read t = embeddedCFMLDelimiter ->
      after t = toggleEmbedded (before t) /\ inString (after t) = true)
  /\ (inString (before t) = true -> inString (after t) = false ->
      embeddedCFML (before t) = false
      /\ activeStringDelimiter (before t) = Some (read t)).

(** A comment is open only outside a string, with the invariant. *)
Definition scanKeeps (st : ScanState) : Prop :=
  embeddedInString (stringContext st)
  /\ (inComment (commentContext st) = true -> inString (stringContext st) = false).

(** ** src/entities/component.ts *)

Definition COMPONENT_EXT : string := ".cfc".

Record WorkspaceFolder := { folderUri : Uri }.

(** [Uri.file(path)] *)
Definition fileUri (path : string) : Uri := {| fsPath := path |}.

Definition DOT : Ascii.ascii := Ascii.ascii_of_nat 46.
Definition COMMA : Ascii.ascii := Ascii.ascii_of_nat 44.

(** *** componentPathToUri

    The cache of [src/features/cachedEntities.ts], the file system, the
    workspace and Node's [path] are what the resolver is run against. *)

Section ComponentPath.

Variable cachedComponentPathToUri : string -> Uri -> option Uri.
Variable existsSync : string -> bool.
Variable getWorkspaceFolder : Uri -> option WorkspaceFolder.
Variable path_sep : string.
Variable path_dirname : string -> string.
Variable path_join : string -> string -> string.

Definition componentPathToUri (dotPath : string) (baseUri : Uri)
  : Js.Outcome (option Uri) :=
  match cachedComponentPathToUri dotPath baseUri with
  | Some cachedResult => Js.Returned (Some cachedResult)
  | None =>
      let normalizedPath := Js.replaceAll DOT path_sep dotPath +:+ COMPONENT_EXT in
      let baseDir := path_dirname (fsPath baseUri) in
      let localPath := path_join baseDir normalizedPath in
      if existsSync localPath then Js.Returned (Some (fileUri localPath))
      else
        match getWorkspaceFolder baseUri with
        | None =>
            (* [root.uri] with [root] undefined *)
            Js.Thrown "TypeError: Cannot read properties of undefined (reading 'uri')"
        | Some root =>
            let rootPath := path_join (fsPath (folderUri root)) normalizedPath in
            if existsSync rootPath then Js.Returned (Some (fileUri rootPath))
            else Js.Returned None
        end
  end.

End ComponentPath.

(** [path.split(".").reverse()[0]] *)
Definition getComponentNameFromDotPath (path : string) : string :=
  match rev (Js.split DOT path) with
  | name :: _ => name
  | [] => EmptyString
  end.

(** *** parseComponent *)

Definition componentAttributeNames : list string :=
  [ "accessors"; "alias"; "autoindex"; "bindingname"; "consumes"; "displayname";
    "extends"; "hint"; "httpmethod"; "implements"; "indexable"; "indexlanguage";
    "initmethod"; "mappedsuperclass"; "namespace"; "output"; "persistent";
    "porttypename"; "produces"; "rest"; "restPath"; "serializable";
    "serviceaddress"; "serviceportname"; "style"; "wsdlfile"; "wsVersion" ].

Definition booleanAttributes : list string :=
  [ "accessors"; "autoindex"; "indexable"; "mappedsuperclass"; "output";
    "persistent"; "rest"; "serializable" ].

Record UserFunction := {
  functionName : string;
  functionStart : Position
}.

(** The values a component or its attributes hold. *)
Inductive JsValue :=
| JUndefined
| JNull
| JBool (b : bool)
| JString (s : string)
| JUri (u : Uri)
| JUris (us : list Uri)
| JRange (r : Range)
| JFunctions (fs : gmap string UserFunction)
| JParsed (what : string).

(** [if (value)] *)
Definition truthy (v : JsValue) : bool :=
  match v with
  | JUndefined | JNull => false
  | JBool b => b
  | JString s => negb (String.eqb s EmptyString)
  | _ => true
  end.

(** An object as its own properties, in the order they were created. *)
Definition JsObject := list (string * JsValue).

Fixpoint getProp (name : string) (o : JsObject) : JsValue :=
  match o with
  | [] => JUndefined
  | (k, v) :: rest => if String.eqb k name then v else getProp name rest
  end.

Fixpoint setProp (name : string) (v : JsValue) (o : JsObject) : JsObject :=
  match o with
  | [] => [(name, v)]
  | (k, w) :: rest =>
      if String.eqb k name then (k, v) :: rest else (k, w) :: setProp name v rest
  end.

(** [Object.getOwnPropertyNames(o)] *)
Definition getOwnPropertyNames (o : JsObject) : list string := map fst o.

(** A property of the attributes object; [undefined] when it is not set. *)
Definition attribute (attrs : gmap string JsValue) (name : string) : JsValue :=
  default JUndefined (attrs !! name).

Definition stringOf (v : JsValue) : string :=
  match v with JString s => s | _ => EmptyString end.

Record DocBlockKeyValue := {
  key : string;
  value : string;
  valueRange : Range
}.

Record Attribute := {
  attributeValue : string;
  attributeValueRange : Range
}.

(** What [COMPONENT_PATTERN.exec(documentText)] matched: the index and
    the groups, an optional group that took no part being unset. *)
Record ComponentMatch := {
  componentIndex : nat;
  head : string;
  attributePrefix : string;
  fullPrefix : option string;
  componentDoc : option string;
  checkTag : option string;
  componentType : string;
  componentAttr : string
}.

(** [if (group)] on an optional group. *)
Definition present (g : option string) : bool :=
  match g with
  | Some s => negb (String.eqb s EmptyString)
  | None => false
  end.

Definition groupLength (g : option string) : nat :=
  match g with Some s => String.length s | None => 0 end.

Definition lowerAscii (c : Ascii.ascii) : Ascii.ascii :=
  let n := Ascii.nat_of_ascii c in
  if (65 <=? n) && (n <=? 90) then Ascii.ascii_of_nat (n + 32) else c.

(** [s.toLowerCase()] within the 8-bit code units' letters A to Z. *)
Fixpoint toLowerCase (s : string) : string :=
  match s with
  | EmptyString => EmptyString
  | String c s' => String (lowerAscii c) (toLowerCase s')
  end.

(** The pattern, the parsers of the other entities, [DataType.isTruthy],
    Node's [path.basename] and the resolver are what the parser is run
    against. *)

Section ParseComponent.

Variable execComponentPattern : string -> option ComponentMatch.
Variable parseDocBlock : TextDocument -> Range -> list DocBlockKeyValue.
Variable parseAttributes :
  TextDocument -> Range -> list string -> list (string * Attribute).
Variable isTruthy : string -> bool.
Variable path_basename : string -> string -> string.
Variable resolve : string -> Uri -> Js.Outcome (option Uri).
Variable parseProperties : TextDocument -> JsValue.
Variable parseFunctions : TextDocument -> list UserFunction.
Variable parseVariables : TextDocument -> bool -> Range -> JsValue.

Definition coerce (name value : string) : JsValue :=
  if Js.includes booleanAttributes name then JBool (isTruthy value)
  else JString value.

Definition processDocBlock (docBlock : list DocBlockKeyValue)
  : gmap string JsValue :=
  fold_left
    (fun docBlockObj docElem =>
       <[key docElem := coerce (key docElem) (value docElem)]> docBlockObj)
    docBlock ∅.

Definition processAttributes (attributes : list (string * Attribute))
  : gmap string JsValue :=
  fold_left
    (fun attributeObj entry =>
       <[fst entry := coerce (fst entry) (attributeValue (snd entry))]> attributeObj)
    attributes ∅.

(** [Object.assign(target, source)] *)
Definition assign (target source : gmap string JsValue) : gmap string JsValue :=
  source ∪ target.

(** The range of the last segment of an [extends] value. *)
Definition extendsRangeOf (value : string) (valueRange : Range) : Range :=
  let extendsName := getComponentNameFromDotPath value in
  mkRange
    (mkPosition (line (start valueRange))
       (character (start valueRange)
        + (String.length value - String.length extendsName)))
    (stop valueRange).

(** The [forEach] over the segments of [implements]. *)
Definition applyImplements (documentUri : Uri) (implements : string)
    (component : JsObject) : Js.Outcome JsObject :=
  fold_left
    (fun acc element =>
       Js.bind acc (fun component =>
       Js.bind (resolve (Js.trim element) documentUri) (fun implementsUri =>
       match implementsUri with
       | Some u =>
           let component :=
             if truthy (getProp "implements" component) then component
             else setProp "implements" (JUris []) component in
           match getProp "implements" component with
           | JUris us => Js.Returned (setProp "implements" (JUris (us ++ [u])) component)
           | _ => Js.Thrown "TypeError: component.implements.push is not a function"
           end
       | None => Js.Returned component
       end)))
    (Js.split COMMA implements) (Js.Returned component).

(** The callback of the [forEach] over the component's own property
    names. *)
Definition applyAttribute (documentUri : Uri)
    (componentAttributes : gmap string JsValue)
    (component : JsObject) (propName : string) : Js.Outcome JsObject :=
  if truthy (attribute componentAttributes propName) then
    if String.eqb propName "extends" then
      Js.bind (resolve (stringOf (attribute componentAttributes "extends")) documentUri)
        (fun u =>
           Js.Returned
             (setProp "extends"
                (match u with Some u => JUri u | None => JUndefined end) component))
    else if String.eqb propName "implements" then
      applyImplements documentUri
        (stringOf (attribute componentAttributes "implements")) component
    else if String.eqb propName "persistent"
            && truthy (attribute componentAttributes "persistent") then
      Js.Returned (setProp "accessors" (JBool true) component)
    else
      Js.Returned (setProp propName (attribute componentAttributes propName) component)
  else Js.Returned component.

Definition applyAttributes (documentUri : Uri)
    (componentAttributes : gmap string JsValue) (component : JsObject)
  : Js.Outcome JsObject :=
  fold_left
    (fun acc propName =>
       Js.bind acc (fun component =>
         applyAttribute documentUri componentAttributes component propName))
    (getOwnPropertyNames component) (Js.Returned component).

Definition parseComponent (document : TextDocument)
  : Js.Outcome (option JsObject) :=
  let documentText := getText document in
  match execComponentPattern documentText with
  | None => Js.Returned None
  | Some componentMatch =>
      let componentIsScript := negb (present (checkTag componentMatch)) in
      let declarationStartOffset :=
        componentIndex componentMatch
        + (if present (fullPrefix componentMatch)
           then groupLength (fullPrefix componentMatch) else 0)
        + (if present (checkTag componentMatch)
           then groupLength (checkTag componentMatch) else 0) in
      let component : JsObject :=
        [ ("uri", JUri (uri document));
          ("name", JString (path_basename (fileName document) COMPONENT_EXT));
          ("isScript", JBool componentIsScript);
          ("isInterface", JBool (String.eqb (componentType componentMatch) "interface"));
          ("declarationRange",
           JRange (mkRange (positionAt document declarationStartOffset)
                     (positionAt document
                        (declarationStartOffset
                         + String.length (componentType componentMatch)))));
          ("displayname", JString EmptyString);
          ("hint", JString EmptyString);
          ("extends", JNull);
          ("implements", JNull);
          ("accessors", JBool false);
          ("functions", JFunctions ∅);
          ("properties", parseProperties document);
          ("variables", JParsed "[]") ] in
      (* the doc block *)
      let parsedDocBlock :=
        if present (componentDoc componentMatch) then
          parseDocBlock document
            (mkRange (positionAt document (componentIndex componentMatch + 3))
               (positionAt document
                  (componentIndex componentMatch + 3
                   + groupLength (componentDoc componentMatch))))
        else [] in
      let componentAttributes := assign ∅ (processDocBlock parsedDocBlock) in
      let component :=
        fold_left
          (fun component docAttr =>
             if String.eqb (key docAttr) "extends" then
               setProp "extendsRange"
                 (JRange (extendsRangeOf (value docAttr) (valueRange docAttr)))
                 component
             else component)
          parsedDocBlock component in
      (* the attribute list *)
      let parsedAttributes :=
        if negb (String.eqb (componentAttr componentMatch) EmptyString) then
          let componentAttributePrefixOffset :=
            componentIndex componentMatch
            + String.length (attributePrefix componentMatch) in
          parseAttributes document
            (mkRange (positionAt document componentAttributePrefixOffset)
               (positionAt document
                  (componentAttributePrefixOffset
                   + String.length (componentAttr componentMatch))))
            componentAttributeNames
        else [] in
      let componentAttributes :=
        assign componentAttributes (processAttributes parsedAttributes) in
      let component :=
        match find (fun entry => String.eqb (fst entry) "extends") parsedAttributes with
        | Some (_, extendsAttr) =>
            setProp "extendsRange"
              (JRange (extendsRangeOf (attributeValue extendsAttr)
                         (attributeValueRange extendsAttr)))
              component
        | None => component
        end in
      Js.bind (applyAttributes (uri document) componentAttributes component)
        (fun component =>
           let userFunctions := parseFunctions document in
           let documentEnd := positionAt document (String.length documentText) in
           let '(earliestFunctionRangeStart, componentFunctions) :=
             fold_left
               (fun acc compFun =>
                  let '(earliest, functions) := acc in
                  ((if isBefore (functionStart compFun) earliest
                    then functionStart compFun else earliest),
                   <[toLowerCase (functionName compFun) := compFun]> functions))
               userFunctions (documentEnd, ∅) in
           let component := setProp "functions" (JFunctions componentFunctions) component in
           let componentDefinitionRange :=
             mkRange (positionAt document (String.length (head componentMatch)))
               earliestFunctionRangeStart in
           let component :=
             setProp "variables"
               (parseVariables document componentIsScript componentDefinitionRange)
               component in
           Js.Returned (Some component))
  end.

End ParseComponent.

(** *** A component head with [persistent] and no [accessors] *)

(** Modelled from the spec: [DataType.isTruthy] of
    [src/entities/dataType.ts], which is not among the sources; the spec
    has it accept the values of the class of true, yes and 1 in any
    letter case. *)
Definition isTruthyModel (value : string) : bool :=
  Js.includes ["true"; "yes"; "1"] (toLowerCase value).

Definition persistentText : string :=
  "<cfcomponent extends='pkg.Base' persistent='true'>".

(** What the pattern matches on [persistentText]. *)
Definition persistentMatch : ComponentMatch :=
  {| componentIndex := 0;
     head := "<cfcomponent extends='pkg.Base' persistent='true'";
     attributePrefix := "<cfcomponent";
     fullPrefix := None;
     componentDoc := None;
     checkTag := Some "<cf";
     componentType := "component";
     componentAttr := " extends='pkg.Base' persistent='true'" |}.

(** What the attribute parser finds in its attribute list. *)
Definition persistentAttributes : list (string * Attribute) :=
  [ ("extends",
     {| attributeValue := "pkg.Base";
        attributeValueRange :=
          {| start := mkPosition 0 22; stop := mkPosition 0 30 |} |});
    ("persistent",
     {| attributeValue := "true";
        attributeValueRange :=
          {| start := mkPosition 0 44; stop := mkPosition 0 48 |} |}) ].

(** [parseComponent] on that text, with no file for [pkg.Base] and no
    properties, functions or variables. *)
Definition parsePersistent : Js.Outcome (option JsObject) :=
  parseComponent
    (fun _ => Some persistentMatch)
    (fun _ _ => [])
    (fun _ _ _ => persistentAttributes)
    isTruthyModel
    (fun _ _ => "Base")
    (fun _ _ => Js.Returned None)
    (fun _ => JParsed "properties")
    (fun _ => [])
    (fun _ _ _ => JParsed "variables")
    (doc persistentText).

Definition parsedPersistent : JsObject :=
  match parsePersistent with
  | Js.Returned (Some component) => component
  | _ => []
  end.

(** *** BackwardIterator *)

(** A character code as [charCodeAt] gives it; [None] is NaN. *)
Definition CharCode := option nat.

Definition NEW_LINE : CharCode := Some 10.
Definition LEFT_BRACKET : CharCode := Some 91.
Definition RIGHT_BRACKET : CharCode := Some 93.
Definition LEFT_BRACE : CharCode := Some 123.
Definition RIGHT_BRACE : CharCode := Some 125.
Definition LEFT_PAREN : CharCode := Some 40.
Definition RIGHT_PAREN : CharCode := Some 41.
Definition COMMA_CODE : CharCode := Some 44.
Definition SINGLE_QUOTE_CODE : CharCode := Some 39.
Definition DOUBLE_QUOTE_CODE : CharCode := Some 34.
Definition BOF : CharCode := Some 0.

(** [a === b] on numbers: NaN equals nothing. *)
Definition codeEq (a b : CharCode) : bool :=
  match a, b with
  | Some x, Some y => x =? y
  | _, _ => false
  end.

(** [s.charCodeAt(i)] *)
Definition charCodeAt (s : string) (i : Z) : CharCode :=
  if (i <? 0)%Z then None
  else option_map Ascii.nat_of_ascii (String.get (Z.to_nat i) s).

(** [String.fromCharCode(ch)]: NaN gives the character of code 0. *)
Definition fromCharCode (ch : CharCode) : string :=
  String (Ascii.ascii_of_nat (default 0 ch)) EmptyString.

(** [document.lineAt(n).text] for a line of the document. *)
Definition lineAtText (document : TextDocument) (n : nat) : string :=
  nth n (Js.split LF (getText document)) EmptyString.

Record BackwardIterator := {
  iterDocument : TextDocument;
  lineNumber : Z;
  lineCharacterOffset : Z;
  iterLineText : string
}.

Definition newBackwardIterator (document : TextDocument) (position : Position)
  : BackwardIterator :=
  {| iterDocument := document;
     lineNumber := Z.of_nat (line position);
     lineCharacterOffset := Z.of_nat (character position);
     iterLineText := lineAtText document (line position) |}.

Definition hasNext (it : BackwardIterator) : bool :=
  (0 <=? lineNumber it)%Z.

(** [iterator.next()]: the code read and the iterator after it. *)
Definition next (it : BackwardIterator) : CharCode * BackwardIterator :=
  if (lineCharacterOffset it <? 0)%Z then
    let lineNumber' := (lineNumber it - 1)%Z in
    if (0 <=? lineNumber')%Z then
      let text := lineAtText (iterDocument it) (Z.to_nat lineNumber') in
      (NEW_LINE,
       {| iterDocument := iterDocument it;
          lineNumber := lineNumber';
          lineCharacterOffset := (Z.of_nat (String.length text) - 1)%Z;
          iterLineText := text |})
    else
      (BOF,
       {| iterDocument := iterDocument it;
          lineNumber := lineNumber';
          lineCharacterOffset := lineCharacterOffset it;
          iterLineText := iterLineText it |})
  else
    (charCodeAt (iterLineText it) (lineCharacterOffset it),
     {| iterDocument := iterDocument it;
        lineNumber := lineNumber it;
        lineCharacterOffset := (lineCharacterOffset it - 1)%Z;
        iterLineText := iterLineText it |}).

(** The characters of the lines above line [n], a line end with each. *)
Fixpoint linesBefore (document : TextDocument) (n : nat) : nat :=
  match n with
  | 0 => 0
  | S n' => linesBefore document n' + String.length (lineAtText document n') + 1
  end.

(** How many codes an iterator has left to give. *)
Definition remaining (it : BackwardIterator) : nat :=
  if (lineNumber it <? 0)%Z then 0
  else Z.to_nat (lineCharacterOffset it + 1) + 1
       + linesBefore (iterDocument it) (Z.to_nat (lineNumber it)).

(** *** readArguments *)

Record ReadState := {
  iterator : BackwardIterator;
  parenNesting : Z;
  bracketNesting : Z;
  braceNesting : Z;
  allArgs : list string;
  currArg : list string
}.

(** [currArg.shift(); currArg.join("").trim()] *)
Definition shiftJoinTrim (currArg : list string) : string :=
  Js.trim (fold_right String.append EmptyString (tl currArg)).

(** The inner loop: back to the quote that equals [ch]; each turn takes
    one of the [fuel] codes the iterator has left. *)
Fixpoint readQuoted (fuel : nat) (ch : CharCode) (it : BackwardIterator)
    (currArg : list string) : BackwardIterator * list string :=
  match fuel with
  | 0 => (it, currArg)
  | S fuel' =>
      if hasNext it then
        let '(nch, it') := next it in
        let currArg' := fromCharCode nch :: currArg in
        if codeEq ch nch then (it', currArg')
        else readQuoted fuel' ch it' currArg'
      else (it, currArg)
  end.

(** One turn of the outer loop. *)
Definition readTurn (st : ReadState) : Step ReadState (list string) :=
  let '(ch, it) := next (iterator st) in
  let currArg := fromCharCode ch :: currArg st in
  let continue (p b c : Z) (allArgs currArg : list string) (it : BackwardIterator) :=
    Continue {| iterator := it; parenNesting := p; bracketNesting := b;
                braceNesting := c; allArgs := allArgs; currArg := currArg |} in
  let p := parenNesting st in
  let b := bracketNesting st in
  let c := braceNesting st in
  if codeEq ch LEFT_PAREN then
    if (p - 1 <? 0)%Z then Return (shiftJoinTrim currArg :: allArgs st)
    else continue (p - 1)%Z b c (allArgs st) currArg it
  else if codeEq ch RIGHT_PAREN then continue (p + 1)%Z b c (allArgs st) currArg it
  else if codeEq ch LEFT_BRACE then continue p b (c - 1)%Z (allArgs st) currArg it
  else if codeEq ch RIGHT_BRACE then continue p b (c + 1)%Z (allArgs st) currArg it
  else if codeEq ch LEFT_BRACKET then continue p (b - 1)%Z c (allArgs st) currArg it
  else if codeEq ch RIGHT_BRACKET then continue p (b + 1)%Z c (allArgs st) currArg it
  else if codeEq ch DOUBLE_QUOTE_CODE || codeEq ch SINGLE_QUOTE_CODE then
    let '(it', currArg') :=
      readQuoted (remaining it) ch it (fromCharCode ch :: currArg) in
    continue p b c (allArgs st) currArg' it'
  else if codeEq ch COMMA_CODE then
    if (p =? 0)%Z && (b =? 0)%Z && (c =? 0)%Z then
      continue p b c (shiftJoinTrim currArg :: allArgs st) [] it
    else continue p b c (allArgs st) currArg it
  else continue p b c (allArgs st) currArg it.

(** [while (iterator.hasNext()) { ... } return [];] *)
Fixpoint readLoop (fuel : nat) (st : ReadState) : option (list string) :=
  match fuel with
  | 0 => None
  | S fuel' =>
      if hasNext (iterator st) then
        match readTurn st with
        | Return args => Some args
        | Continue st' => readLoop fuel' st'
        end
      else Some []
  end.

Definition readState0 (it : BackwardIterator) : ReadState :=
  {| iterator := it; parenNesting := 0; bracketNesting := 0; braceNesting := 0;
     allArgs := []; currArg := [] |}.

(** Every turn takes a code, so the codes left bound the turns. *)
Definition readArguments (it : BackwardIterator) : option (list string) :=
  readLoop (S (remaining it)) (readState0 it).

(** [st'] is reached from [st] by turns of the outer loop. *)
Inductive Reads : ReadState -> ReadState -> Prop :=
| Reads_here st : Reads st st
| Reads_turn st st' st'' :
    hasNext (iterator st) = true ->
    readTurn st = Continue st' ->
    Reads st' st'' ->
    Reads st st''.

(** The state after [k] turns of the outer loop, when it takes that
    many without returning. *)
Fixpoint runTurns (k : nat) (st : ReadState) : option ReadState :=
  match k with
  | 0 => Some st
  | S k' =>
      if hasNext (iterator st) then
        match readTurn st with
        | Continue st' => runTurns k' st'
        | Return _ => None
        end
      else None
  end.

Definition stateAfterTurns (k : nat) (it : BackwardIterator) : ReadState :=
  default (readState0 it) (runTurns k (readState0 it)).

(** The loop ran out of codes at [st]. *)
Definition exhaustedAt (st : ReadState) : Prop :=
  hasNext (iterator st) = false.

(** At [st] the loop reads the opening parenthesis that takes the paren
    count below zero, and returns [args]. *)
Definition unmatchedParenAt (st : ReadState) (args : list string) : Prop :=
  hasNext (iterator st) = true
  /\ fst (next (iterator st)) = LEFT_PAREN
  /\ (parenNesting st - 1 < 0)%Z
  /\ readTurn st = Return args.

(** *** A referencing file outside every workspace folder *)

(** Node's [path.join] and [path.dirname] on plain absolute paths. *)
Definition joinPath (a b : string) : string := a +:+ "/" +:+ b.

Definition SLASH : Ascii.ascii := Ascii.ascii_of_nat 47.

Fixpoint joinPieces (pieces : list string) : string :=
  match pieces with
  | [] => EmptyString
  | [piece] => piece
  | piece :: rest => piece +:+ "/" +:+ joinPieces rest
  end.

Definition dirnamePath (p : string) : string :=
  match rev (Js.split SLASH p) with
  | _ :: (_ :: _) as init => joinPieces (rev init)
  | _ => "."
  end.

(** [componentPathToUri] with an empty cache, an empty file system and no
    workspace folder. *)
Definition resolveNowhere (dotPath : string) (baseUri : Uri)
  : Js.Outcome (option Uri) :=
  componentPathToUri (fun _ _ => None) (fun _ => false) (fun _ => None)
    "/" dirnamePath joinPath dotPath baseUri.

(** *** Lists of ranges in document order *)

(** The ranges start in document order. *)
Definition inDocumentOrder (ranges : list Range) : Prop :=
  StronglySorted (fun a b => isBeforeOrEqual (start a) (start b) = true) ranges.

(** No two of the ranges overlap. *)
Definition pairwiseDisjoint (ranges : list Range) : Prop :=
  ForallOrdPairs (fun a b => overlaps a b = false) ranges.

(** Every range starts after the one before it. *)
Definition startsIncrease (ranges : list Range) : Prop :=
  StronglySorted (fun a b => isBefore (start a) (start b) = true) ranges.

(** Matches that follow one another from [lo] on: each ends where it
    starts or later, and the next starts where it ends or later. *)
Fixpoint chained (lo : nat) (matches : list (nat * nat)) : Prop :=
  match matches with
  | [] => True
  | m :: rest => lo <= fst m /\ fst m <= snd m /\ chained (snd m) rest
  end.

(** A pattern whose matches do not end before they start. *)
Definition forward (pattern : Pattern) : Prop :=
  forall text i e, pattern text i = Some e -> i <= e.

(** Positions in document order. *)
Definition ple (p q : Position) : Prop :=
  line p < line q \/ (line p = line q /\ character p <= character q).

Definition plt (p q : Position) : Prop :=
  line p < line q \/ (line p = line q /\ character p < character q).

(** Every range starts at the position of an offset below [bound]. *)
Definition startBelow (document : TextDocument) (bound : nat)
    (ranges : list Range) : Prop :=
  Forall (fun r => exists a, a < bound /\ start r = positionAt document a) ranges.

(** What the scan of a script text that began at offset [from] holds
    before offset [o]: the position read last; ranges that start one
    after another, all before the comment that is open, or before the
    character read last when none is. *)
Definition scriptScanInv (document : TextDocument) (from o : nat)
    (st : ScanState) : Prop :=
  from <= o <= String.length (getText document)
  /\ (if o =? from
      then previousPosition st = None /\ lineText st = EmptyString
      else previousPosition st = Some (positionAt document (o - 1)))
  /\ startsIncrease (commentRanges st)
  /\ (if inComment (commentContext st)
      then exists a, commentStart (commentContext st) = Some (positionAt document a)
                     /\ from <= a /\ a + 2 <= o
                     /\ startBelow document a (commentRanges st)
      else startBelow document (o - 1) (commentRanges st)).

(** In document order, no two overlapping. *)
Definition orderedDisjoint (ranges : list Range) : Prop :=
  inDocumentOrder ranges /\ pairwiseDisjoint ranges.

(** A block comment that holds a line comment's opening, and a line
    after it. *)
Definition blockThenLineText : string :=
  "/* a// b" +:+ String LF "x".

(** *** A text with one block comment *)

(** [text] holds a block comment from the slash at [p] to the slash at
    [q], and no slash besides these two. *)
Definition loneBlockComment (text : string) (p q : nat) : bool :=
  (p + 3 <=? q) && (q <? String.length text)
  && String.eqb (Js.charAt text p) "/"
  && String.eqb (Js.charAt text (p + 1)) "*"
  && String.eqb (Js.charAt text (q - 1)) "*"
  && String.eqb (Js.charAt text q) "/"
  && forallb (fun i => (i =? p) || (i =? q)
                       || negb (String.eqb (Js.charAt text i) "/"))
       (seq 0 (String.length text)).

(** The comment context the scan opens for a script block comment that
    begins at [position]. *)
Definition scriptBlockOpenedAt (position : Position) : CommentContext :=
  {| inComment := true;
     activeComment := Some (LineDelimiter (scriptLineComment cfmlCommentRules));
     commentType := Some Block;
     commentStart := Some position |}.

(** The scan before the comment: nothing pushed, no comment open, no
    slash read last, the string context that of the tracker. *)
Definition beforeComment (text : string) (o : nat) (st : ScanState) : Prop :=
  commentRanges st = []
  /\ inComment (commentContext st) = false
  /\ Js.endsWith (lineText st) "/" = false
  /\ stringContext st = stringContextAt text 0 o.

(** The scan once the opening slash at [p] is read. *)
Definition slashRead (document : TextDocument) (p : nat) (st : ScanState)
  : Prop :=
  commentRanges st = []
  /\ inComment (commentContext st) = false
  /\ inString (stringContext st) = false
  /\ Js.endsWith (lineText st) "/" = true
  /\ previousPosition st = Some (positionAt document p).

(** The scan inside the comment that began at [position]. *)
Definition insideComment (position : Position) (st : ScanState) : Prop :=
  commentRanges st = []
  /\ commentContext st = scriptBlockOpenedAt position.

(** The scan after the comment: its range pushed, and any comment open
    a block comment that waits for a slash. *)
Definition afterComment (r : Range) (st : ScanState) : Prop :=
  commentRanges st = [r]
  /\ (inComment (commentContext st) = true ->
      commentType (commentContext st) = Some Block
      /\ activeComment (commentContext st)
         = Some (LineDelimiter (scriptLineComment cfmlCommentRules))).

(** *** Where the accurate scan opens its comments *)

(** The range [r] starts where the scan of the script text opened a
    comment, at a turn before which no string was active. *)
Definition openedOutsideString (document : TextDocument)
    (docRange : option Range) (r : Range) : Prop :=
  exists o,
    start r = positionAt document (o - 1)
    /\ inString (stringContext (scanStateAt document true docRange o)) = false
    /\ inComment (commentContext (scanStateAt document true docRange o)) = false
    /\ inComment (commentContext (scanStateAt document true docRange (S o))) = true.

(** What the scan holds of the ranges it pushed and of the comment that
    is open. *)
Definition openingsInv (document : TextDocument) (docRange : option Range)
    (st : ScanState) : Prop :=
  Forall (openedOutsideString document docRange) (commentRanges st)
  /\ (inComment (commentContext st) = true ->
      exists r, commentStart (commentContext st) = Some (start r)
                /\ openedOutsideString document docRange r).

(** The offset [i] lies in one of the matches. *)
Definition covered (matches : list (nat * nat)) (i : nat) : Prop :=
  exists m, In m matches /\ fst m <= i < snd m.

(** *** Ranges that tile a document from a position on *)

(** Each range starts where the one before it stops, the first at [p]. *)
Fixpoint tiledFrom (p : Position) (ranges : list Range) : bool :=
  match ranges with
  | [] => true
  | range :: rest => isEqual p (start range) && tiledFrom (stop range) rest
  end.

(** Where the last of the ranges stops; [p] when there is none. *)
Fixpoint lastStop (p : Position) (ranges : list Range) : Position :=
  match ranges with
  | [] => p
  | range :: rest => lastStop (stop range) rest
  end.

(** [document.positionAt(document.getText().length)] *)
Definition documentEnd (document : TextDocument) : Position :=
  positionAt document (String.length (getText document)).

(** *** Pieces of a string *)

(** [pieces.join(sep)] for a separator of one character. *)
Fixpoint joinWith (sep : Ascii.ascii) (pieces : list string) : string :=
  match pieces with
  | [] => EmptyString
  | [piece] => piece
  | piece :: rest => piece +:+ String sep (joinWith sep rest)
  end.

(** The character [c] does not occur in [s]. *)
Fixpoint noChar (c : Ascii.ascii) (s : string) : bool :=
  match s with
  | EmptyString => true
  | String x s' => negb (Ascii.eqb x c) && noChar c s'
  end.

(** *** A file system with one component file under the workspace root *)

Definition helperUnderRoot (dotPath : string) (baseUri : Uri)
  : Js.Outcome (option Uri) :=
  componentPathToUri (fun _ _ => None)
    (fun path => String.eqb path "/ws/utils/Helper.cfc")
    (fun _ => Some {| folderUri := {| fsPath := "/ws" |} |})
    "/" dirnamePath joinPath dotPath baseUri.

(** *** A component with its initial [implements] and a resolver that
    knows one interface *)

Definition knowsWalker (dotPath : string) (_ : Uri) : option Uri :=
  if String.eqb dotPath "Walker" then Some {| fsPath := "/ws/Walker.cfc" |}
  else None.

Definition hintedComponent : JsObject :=
  [ ("name", JString "Dog"); ("hint", JString EmptyString);
    ("implements", JNull) ].

(** *** What [parseComponent] reads for a match *)

Section MatchedParts.

Variable parseDocBlock : TextDocument -> Range -> list DocBlockKeyValue.
Variable parseAttributes :
  TextDocument -> Range -> list string -> list (string * Attribute).

(** The entries of the doc block of the match, none without one. *)
Definition docBlockOf (document : TextDocument) (componentMatch : ComponentMatch)
  : list DocBlockKeyValue :=
  if present (componentDoc componentMatch) then
    parseDocBlock document
      (mkRange (positionAt document (componentIndex componentMatch + 3))
         (positionAt document
            (componentIndex componentMatch + 3
             + groupLength (componentDoc componentMatch))))
  else [].

(** The attributes of the attribute list of the match. *)
Definition attributesOf (document : TextDocument) (componentMatch : ComponentMatch)
  : list (string * Attribute) :=
  if negb (String.eqb (componentAttr componentMatch) EmptyString) then
    let componentAttributePrefixOffset :=
      componentIndex componentMatch
      + String.length (attributePrefix componentMatch) in
    parseAttributes document
      (mkRange (positionAt document componentAttributePrefixOffset)
         (positionAt document
            (componentAttributePrefixOffset
             + String.length (componentAttr componentMatch))))
      componentAttributeNames
  else [].

End MatchedParts.

(** [implements] is unset or an array. *)
Definition implementsOk (component : JsObject) : Prop :=
  truthy (getProp "implements" component) = false
  \/ exists us, getProp "implements" component = JUris us.

(** *** A script component with a doc block and a hint *)

Definition hintedText : string :=
  "/** @displayname Dog */ component hint='A dog' {".

(** What the pattern matches on [hintedText]. *)
Definition hintedMatch : ComponentMatch :=
  {| componentIndex := 0;
     head := "/** @displayname Dog */ component hint='A dog' ";
     attributePrefix := "/** @displayname Dog */ component";
     fullPrefix := Some "/** @displayname Dog */ ";
     componentDoc := Some " @displayname Dog ";
     checkTag := None;
     componentType := "component";
     componentAttr := " hint='A dog' " |}.

Definition hintedDocBlock : list DocBlockKeyValue :=
  [ {| key := "displayname"; value := "Dog";
       valueRange := {| start := mkPosition 0 17; stop := mkPosition 0 20 |} |} ].

Definition hintedAttributes : list (string * Attribute) :=
  [ ("hint",
     {| attributeValue := "A dog";
        attributeValueRange :=
          {| start := mkPosition 0 40; stop := mkPosition 0 45 |} |}) ].

Definition parseHinted : Js.Outcome (option JsObject) :=
  parseComponent
    (fun _ => Some hintedMatch)
    (fun _ _ => hintedDocBlock)
    (fun _ _ _ => hintedAttributes)
    isTruthyModel
    (fun _ _ => "Dog")
    (fun _ _ => Js.Returned None)
    (fun _ => JParsed "properties")
    (fun _ => [])
    (fun _ _ _ => JParsed "variables")
    (doc hintedText).

Definition parsedHinted : JsObject :=
  match parseHinted with
  | Js.Returned (Some component) => component
  | _ => []
  end.

(** *** Reading an iterator to its end *)

(** [while (iterator.hasNext()) { codes.push(iterator.next()); }]: the
    codes an iterator gives until it has none left, and the iterator
    then; each turn takes one of the [fuel] codes it has. *)
Fixpoint drain (fuel : nat) (it : BackwardIterator)
  : list CharCode * BackwardIterator :=
  match fuel with
  | 0 => ([], it)
  | S fuel' =>
      if hasNext it then
        let '(ch, it') := next it in
        let '(codes, final) := drain fuel' it' in
        (ch :: codes, final)
      else ([], it)
  end.

(** The codes of [text] at the [n] offsets below [n], the last first. *)
Fixpoint codesDownFrom (text : string) (n : nat) : list CharCode :=
  match n with
  | 0 => []
  | S n' => charCodeAt text (Z.of_nat n') :: codesDownFrom text n'
  end.

(** What lies above line [l], read backwards: a line end and the line
    before it, up to the first line, and then the beginning of the
    file. *)
Fixpoint codesAbove (document : TextDocument) (l : nat) : list CharCode :=
  match l with
  | 0 => [BOF]
  | S l' =>
      NEW_LINE
        :: codesDownFrom (lineAtText document l')
             (String.length (lineAtText document l'))
        ++ codesAbove document l'
  end.

(** *** isInComment *)

Definition isInComment (execTagPattern : string -> string -> list TagMatch)
    (document : TextDocument) (position : Position) (isScript : bool) : bool :=
  isInRangesPosition (getCommentRanges execTagPattern document isScript None false)
    position.

(** *** The identifier patterns and the pattern of a continuing expression *)

Definition isDigit (c : Ascii.ascii) : bool :=
  let n := Ascii.nat_of_ascii c in (48 <=? n) && (n <=? 57).

Definition isLetter (c : Ascii.ascii) : bool :=
  let n := Ascii.nat_of_ascii c in
  ((65 <=? n) && (n <=? 90)) || ((97 <=? n) && (n <=? 122)).

Definition DOLLAR : Ascii.ascii := Ascii.ascii_of_nat 36.
Definition UNDERSCORE : Ascii.ascii := Ascii.ascii_of_nat 95.

(** [\w] *)
Definition isWordChar (c : Ascii.ascii) : bool :=
  isLetter c || isDigit c || Ascii.eqb c UNDERSCORE.

(** [[$A-Za-z_]] *)
Definition isIdentStart (c : Ascii.ascii) : bool :=
  Ascii.eqb c DOLLAR || isLetter c || Ascii.eqb c UNDERSCORE.

(** [[$\w]] *)
Definition isIdentPart (c : Ascii.ascii) : bool :=
  Ascii.eqb c DOLLAR || isWordChar c.

(** A character, as [charAt] gives it, is of a class; the empty string
    that stands for no character is of none. *)
Definition charIn (class : Ascii.ascii -> bool) (char : string) : bool :=
  match char with
  | String c EmptyString => class c
  | _ => false
  end.

(** The end of the longest run of characters of [class] from [i]. *)
Fixpoint whileAt (class : Ascii.ascii -> bool) (text : string) (n i : nat) : nat :=
  match n with
  | 0 => i
  | S n' =>
      if charIn class (Js.charAt text i) then whileAt class text n' (S i) else i
  end.

(** [/[$A-Za-z_][$\w]*/] *)
Definition identPattern : Pattern :=
  fun text i =>
    if charIn isIdentStart (Js.charAt text i) then
      Some (whileAt isIdentPart text (String.length text - (i + 1)) (i + 1))
    else None.

(** [/[$\w]/] *)
Definition identPartPattern : Pattern :=
  fun text i =>
    if charIn isIdentPart (Js.charAt text i) then Some (i + 1) else None.

(** [/\S/] *)
Definition nonBlankPattern : Pattern :=
  fun text i =>
    if charIn (fun c => negb (Js.isWhiteSpace c)) (Js.charAt text i)
    then Some (i + 1) else None.

(** [/(?:\.\s*|[\w$])$/]: a dot and the white space after it up to the
    end of the text, or a last character of an identifier. *)
Definition continuingExpressionPattern : Pattern :=
  fun text i =>
    let n := String.length text in
    if String.eqb (Js.charAt text i) "." then
      if whileAt Js.isWhiteSpace text (n - (i + 1)) (i + 1) =? n
      then Some n else None
    else if charIn isIdentPart (Js.charAt text i) && (i + 1 =? n) then Some n
    else None.

(** [pattern.test(text)] of a pattern that is not global: there is an
    index at which it matches. *)
Definition test (pattern : Pattern) (text : string) : bool :=
  existsb (fun i => match pattern text i with Some _ => true | None => false end)
    (seq 0 (S (String.length text))).

Definition isContinuingExpression (prefix : string) : bool :=
  test continuingExpressionPattern prefix.

Definition isValidIdentifierPart (char : string) : bool :=
  test identPartPattern char.

Definition isValidIdentifier (word : string) : bool :=
  test identPattern word.

(** *** getPrecedingIdentifierRange *)

(** [iterator.getPosition()]: the editor's [Position] raises on a
    negative line or character. *)
Definition getPosition (it : BackwardIterator) : Js.Outcome Position :=
  if (lineNumber it <? 0)%Z then Js.Thrown "Illegal argument: line must be non-negative"
  else if (lineCharacterOffset it <? 0)%Z then
    Js.Thrown "Illegal argument: character must be non-negative"
  else
    Js.Returned
      (mkPosition (Z.to_nat (lineNumber it)) (Z.to_nat (lineCharacterOffset it))).

(** The loop back to the first character that is not white space; each
    turn takes one of the [fuel] codes the iterator has. *)
Fixpoint skipBlank (fuel : nat) (it : BackwardIterator) (charStr : string)
  : string * BackwardIterator :=
  match fuel with
  | 0 => (charStr, it)
  | S fuel' =>
      if hasNext it then
        let '(ch, it') := next it in
        let charStr := fromCharCode ch in
        if test nonBlankPattern charStr then (charStr, it')
        else skipBlank fuel' it' charStr
      else (charStr, it)
  end.

Section PrecedingIdentifier.

(** [document.getWordRangeAtPosition] is the editor's. *)
Variable getWordRangeAtPosition : TextDocument -> Position -> option Range.

Definition getPrecedingIdentifierRange (document : TextDocument)
    (position : Position) : Js.Outcome (option Range) :=
  let iterator := newBackwardIterator document position in
  let '(charStr, iterator) := skipBlank (remaining iterator) iterator EmptyString in
  if isValidIdentifierPart charStr then
    Js.bind (getPosition iterator) (fun wordPosition =>
      let currentWordRange := getWordRangeAtPosition document wordPosition in
      let currentWord :=
        match currentWordRange with
        | Some range => getTextIn document range
        | None => getText document
        end in
      if isValidIdentifier currentWord then Js.Returned currentWordRange
      else Js.Returned None)
  else Js.Returned None.

End PrecedingIdentifier.

(** The pattern matches at [i]. *)
Definition matchesAt (pattern : Pattern) (text : string) (i : nat) : bool :=
  match pattern text i with Some _ => true | None => false end.

(** [getPrecedingIdentifierRange] where the editor knows no word. *)
Definition precedingIdentifierRangeIn (text : string) (position : Position)
  : Js.Outcome (option Range) :=
  getPrecedingIdentifierRange (fun _ _ => None) (doc text) position.

(** *** Plain arguments *)

(** A code [readArguments] takes as it is, or as the comma between two
    arguments: that of no bracket and of no quote. *)
Definition isPlainCode (n : nat) : bool :=
  negb ((n =? 40) || (n =? 41) || (n =? 123) || (n =? 125)
        || (n =? 91) || (n =? 93) || (n =? 34) || (n =? 39)).

Definition OPEN_PAREN : Ascii.ascii := Ascii.ascii_of_nat 40.

Fixpoint plainArguments (s : string) : bool :=
  match s with
  | EmptyString => true
  | String c s' => isPlainCode (Ascii.nat_of_ascii c) && plainArguments s'
  end.

(** * Theorems *)

(** C8: on the ten-character document [0123456789] with the single range
    from character 2 to character 4, [invertRanges] keeps its running end
    position at the document start after it emits the first gap, so it
    returns the gap 0..2 followed by the whole document 0..10, which
    overlaps the given range; the complement would be 0..2 and 4..10. *)
Theorem invertRanges_stale_previous_end :
  let given := {| start := mkPosition 0 2; stop := mkPosition 0 4 |} in
  let whole := {| start := mkPosition 0 0; stop := mkPosition 0 10 |} in
  invertRanges (doc "0123456789") [given]
  = [ {| start := mkPosition 0 0; stop := mkPosition 0 2 |}; whole ]
  /\ overlaps whole given = true.
Proof. split; reflexivity. Qed.

(** ** Loops with an early return *)

Section ForLoop.
Context {St R : Type}.
Variable body : nat -> St -> Step St R.
Variable Inv : nat -> St -> Prop.
Variable accept : nat -> bool.
Variable ret : nat -> R.
Hypothesis body_accept :
  forall o s, Inv o s -> accept o = true -> body o s = Return (ret o).
Hypothesis body_continue :
  forall o s, Inv o s -> accept o = false ->
              exists s', body o s = Continue s' /\ Inv (S o) s'.

(** A loop whose body returns exactly at the accepted offsets returns at
    the first of them, and otherwise runs to its bound. *)
Lemma forLoop_find n : forall from s,
  Inv from s ->
  match List.find accept (seq from n) with
  | Some o => forLoop body n from s = Return (ret o)
  | None => exists s', forLoop body n from s = Continue s' /\ Inv (from + n) s'
  end.
Proof.
  induction n as [|n IH]; intros from s HI; simpl.
  - exists s. split; [reflexivity|]. now rewrite Nat.add_0_r.
  - destruct (accept from) eqn:Ha.
    + now rewrite (body_accept _ _ HI Ha).
    + destruct (body_continue _ _ HI Ha) as (s' & -> & HI').
      specialize (IH (S from) s' HI').
      now rewrite Nat.add_succ_r.
Qed.

End ForLoop.

(** ** The string tracker *)

Lemma stringContextAfter_snoc text n : forall from sc,
  stringContextAfter text (S n) from sc
  = stringStep (stringContextAfter text n from sc) (Js.charAt text (from + n)).
Proof.
  induction n as [|n IH]; intros from sc.
  - simpl. now rewrite Nat.add_0_r.
  - change (stringContextAfter text (S (S n)) from sc)
      with (stringContextAfter text (S n) (S from) (stringStep sc (Js.charAt text from))).
    rewrite IH. simpl. now rewrite Nat.add_succ_r.
Qed.

Lemma stringContextAt_init text init : stringContextAt text init init = noString.
Proof. unfold stringContextAt. now rewrite Nat.sub_diag. Qed.

Lemma stringContextAt_S text init o :
  init <= o ->
  stringContextAt text init (S o)
  = stringStep (stringContextAt text init o) (Js.charAt text o).
Proof.
  intros H. unfold stringContextAt.
  replace (S o - init) with (S (o - init)) by lia.
  rewrite stringContextAfter_snoc. do 2 f_equal. lia.
Qed.

Lemma countCode_init text init p : countCode text init init p = 0.
Proof. unfold countCode. now rewrite Nat.sub_diag. Qed.

Lemma countCode_S text init o p :
  init <= o ->
  countCode text init (S o) p
  = countCode text init o p
    + (if isCodeAt text init o && p (Js.charAt text o) then 1 else 0).
Proof.
  intros H. unfold countCode.
  replace (S o - init) with (S (o - init)) by lia.
  rewrite seq_S, List.filter_app, length_app. f_equal.
  replace (init + (o - init)) with o by lia.
  simpl. now destruct (isCodeAt text init o && p (Js.charAt text o)).
Qed.

(** ** getClosingPosition *)

Section ClosingPosition.
Variables (text : string) (init : nat) (openingChar closingChar : string).

Lemma closingBody_accept o st :
  closingInv text init openingChar closingChar o st ->
  isMatchingClose text init openingChar closingChar o = true ->
  closingBody text openingChar closingChar o st = Return (o + 1).
Proof.
  intros (Hle & Hs & Hc) Hm. unfold isMatchingClose, isCodeAt, isClosing in Hm.
  apply andb_prop in Hm as [Hm Hn]. apply andb_prop in Hm as [Hcode Hcl].
  apply andb_prop in Hcode as [Hns Hnd]. apply andb_prop in Hcl as [Hcl Hop].
  apply Nat.eqb_eq in Hn.
  apply negb_true_iff in Hns, Hnd, Hop.
  unfold closingBody. rewrite Hs, Hns, Hnd, Hop, Hcl.
  assert (unclosedPairs st = 0) as -> by (unfold isClosing in Hc; lia).
  reflexivity.
Qed.

Lemma closingBody_continue o st :
  closingInv text init openingChar closingChar o st ->
  isMatchingClose text init openingChar closingChar o = false ->
  exists st', closingBody text openingChar closingChar o st = Continue st'
              /\ closingInv text init openingChar closingChar (S o) st'.
Proof.
  intros (Hle & Hs & Hc) Hm. unfold closingBody, closingInv.
  rewrite !countCode_S, stringContextAt_S by assumption.
  unfold isMatchingClose in Hm. unfold isCodeAt in *. unfold stringStep.
  rewrite Hs in *.
  destruct (inString (stringContextAt text init o)) eqn:Hin; simpl.
  { eexists. split; [reflexivity|]. simpl. split; [lia|]. split; [reflexivity|lia]. }
  destruct (isStringDelimiter (Js.charAt text o)) eqn:Hd; simpl.
  { eexists. split; [reflexivity|]. simpl. split; [lia|]. split; [reflexivity|lia]. }
  simpl in Hm. unfold isClosing in *. unfold isOpening in *.
  destruct (String.eqb (Js.charAt text o) openingChar) eqn:Hop; simpl.
  { eexists. split; [reflexivity|]. simpl. split; [lia|]. split; [reflexivity|].
    rewrite andb_false_r. lia. }
  destruct (String.eqb (Js.charAt text o) closingChar) eqn:Hcl; simpl.
  - simpl in Hm. apply Nat.eqb_neq in Hm.
    destruct (unclosedPairs st) as [|u] eqn:Hu; [simpl in Hc; lia|].
    eexists. split; [reflexivity|]. simpl. split; [lia|]. split; [reflexivity|lia].
  - eexists. split; [reflexivity|]. split; [lia|]. split; [assumption|lia].
Qed.

End ClosingPosition.

(** The loop of [getClosingPosition] gives the offset just past the
    matching close, and the initial offset when there is none. *)
Lemma getClosingOffset_spec ctx initialOffset closingChar :
  getClosingOffset ctx initialOffset closingChar
  = closingPairOffset (sanitizedDocumentText ctx) initialOffset closingChar.
Proof.
  unfold getClosingOffset, closingPairOffset.
  set (text := sanitizedDocumentText ctx).
  set (op := getOpeningChar closingChar).
  pose proof (forLoop_find
    (closingBody text op closingChar)
    (closingInv text initialOffset op closingChar)
    (isMatchingClose text initialOffset op closingChar)
    (fun o => o + 1)
    (closingBody_accept text initialOffset op closingChar)
    (closingBody_continue text initialOffset op closingChar)
    (String.length text - initialOffset) initialOffset
    {| unclosedPairs := 0; closingString := noString |}) as H.
  destruct (List.find _ _) as [o|].
  - rewrite H; [reflexivity|].
    repeat split; simpl; [lia| now rewrite stringContextAt_init|].
    now rewrite !countCode_init.
  - destruct H as (s' & -> & _); [|reflexivity].
    repeat split; simpl; [lia| now rewrite stringContextAt_init|].
    now rewrite !countCode_init.
Qed.


(** ** getNextCharacterPosition *)

Lemma includes_filter (f : string -> bool) l c :
  Js.includes (List.filter f l) c = Js.includes l c && f c.
Proof.
  unfold Js.includes. induction l as [|x l IH]; simpl; [reflexivity|].
  destruct (f x) eqn:Hf; simpl; rewrite IH.
  - destruct (String.eqb c x) eqn:E; simpl; [|reflexivity].
    apply String.eqb_eq in E. subst. now rewrite Hf.
  - destruct (String.eqb c x) eqn:E; simpl; [|reflexivity].
    apply String.eqb_eq in E. subst. rewrite Hf. now rewrite andb_false_r.
Qed.

Lemma unclosedCount_init text init searchChar pair :
  unclosedCount text init searchChar init pair = 0%Z.
Proof. unfold unclosedCount. now rewrite !countCode_init. Qed.

Lemma unclosedCount_S text init searchChar o pair :
  init <= o ->
  unclosedCount text init searchChar (S o) pair
  = (unclosedCount text init searchChar o pair
     + (if isCodeAt text init o
           && (String.eqb (Js.charAt text o) (fst pair)
               && negb (Js.includes searchChar (Js.charAt text o)))
        then 1 else 0)
     - (if isCodeAt text init o
           && (String.eqb (Js.charAt text o) (snd pair)
               && negb (Js.includes searchChar (Js.charAt text o)))
        then 1 else 0))%Z.
Proof.
  intros H. unfold unclosedCount. rewrite !countCode_S by assumption.
  repeat match goal with |- context [if ?b then _ else _] => destruct b end; lia.
Qed.

Ltac eqb_clash :=
  repeat match goal with
         | H : String.eqb _ _ = true |- _ => apply String.eqb_eq in H
         end;
  congruence.

Section NextCharacter.
Variables (text : string) (init : nat) (searchChar : list string)
          (includeChar : bool).

Let ret (o : nat) : nat := if includeChar then o + 1 else o.

Lemma nextBody_accept o st :
  nextInv text init searchChar o st ->
  isUnnestedTarget text init searchChar o = true ->
  nextBody text searchChar includeChar o st = Return (ret o).
Proof.
  intros (Hle & Hs & Hp) Hm. unfold isUnnestedTarget, isCodeAt in Hm.
  apply andb_prop in Hm as [Hm Hz]. apply andb_prop in Hm as [Hcode Hin].
  apply andb_prop in Hcode as [Hns Hnd].
  apply negb_true_iff in Hns, Hnd.
  unfold nextBody. rewrite Hs, Hns, Hnd.
  unfold openingPairs, closingPairs. rewrite !includes_filter, Hin, !andb_false_r.
  simpl. rewrite Hp. unfold hasNoUnclosedPairs. simpl.
  simpl in Hz. rewrite Hz. unfold ret. now destruct includeChar.
Qed.

Lemma nextBody_continue o st :
  nextInv text init searchChar o st ->
  isUnnestedTarget text init searchChar o = false ->
  exists st', nextBody text searchChar includeChar o st = Continue st'
              /\ nextInv text init searchChar (S o) st'.
Proof.
  intros (Hle & Hs & Hp) Hm. unfold nextBody, nextInv.
  rewrite stringContextAt_S by assumption.
  unfold isUnnestedTarget in Hm. unfold stringStep. rewrite Hs.
  assert (Hcount : forall pair,
    unclosedCount text init searchChar (S o) pair = _) by
    (intros pair; apply unclosedCount_S; assumption).
  unfold isCodeAt in *.
  destruct (inString (stringContextAt text init o)) eqn:Hin; simpl.
  { eexists. split; [reflexivity|]. simpl. split; [lia|]. split; [reflexivity|].
    rewrite Hp. simpl. rewrite !Hcount. simpl.
    now rewrite ?Z.add_0_r, ?Z.sub_0_r. }
  destruct (isStringDelimiter (Js.charAt text o)) eqn:Hd; simpl.
  { eexists. split; [reflexivity|]. simpl. split; [lia|]. split; [reflexivity|].
    rewrite Hp. simpl. rewrite !Hcount. simpl.
    now rewrite ?Z.add_0_r, ?Z.sub_0_r. }
  simpl in Hm, Hcount.
  unfold openingPairs, closingPairs. rewrite !includes_filter.
  destruct (Js.includes searchChar (Js.charAt text o)) eqn:Hsc; simpl.
  - rewrite !andb_false_r. simpl. simpl in Hm.
    rewrite Hp. unfold hasNoUnclosedPairs. simpl.
    rewrite Hm. eexists. split; [reflexivity|]. split; [lia|].
    split; [assumption|]. rewrite Hp. simpl. rewrite !Hcount.
    rewrite !andb_false_r. now rewrite !Z.add_0_r, !Z.sub_0_r.
  - rewrite !andb_true_r.
    rewrite !orb_false_r.
    destruct (String.eqb (Js.charAt text o) "{") eqn:E1;
    destruct (String.eqb (Js.charAt text o) "[") eqn:E2;
    destruct (String.eqb (Js.charAt text o) "(") eqn:E3;
    destruct (String.eqb (Js.charAt text o) "}") eqn:E4;
    destruct (String.eqb (Js.charAt text o) "]") eqn:E5;
    destruct (String.eqb (Js.charAt text o) ")") eqn:E6;
    simpl;
    try solve [eqb_clash].
    all: eexists; (split; [reflexivity|]); (split; [lia|]).
    all: (split; [first [reflexivity | assumption]|]).
    all: rewrite ?Hp; simpl; rewrite ?Hcount; simpl.
    all: rewrite ?E1, ?E2, ?E3, ?E4, ?E5, ?E6; simpl.
    all: repeat (f_equal; try lia).
Qed.

End NextCharacter.

Lemma getNextCharacterOffset_spec ctx startOffset endOffset searchChar includeChar :
  getNextCharacterOffset ctx startOffset endOffset searchChar includeChar
  = nextUnnestedOffset (sanitizedDocumentText ctx) startOffset endOffset
      searchChar includeChar.
Proof.
  unfold getNextCharacterOffset, nextUnnestedOffset.
  set (text := sanitizedDocumentText ctx).
  pose proof (forLoop_find
    (nextBody text searchChar includeChar)
    (nextInv text startOffset searchChar)
    (isUnnestedTarget text startOffset searchChar)
    (fun o => if includeChar then o + 1 else o)
    (nextBody_accept text startOffset searchChar includeChar)
    (nextBody_continue text startOffset searchChar includeChar)
    (endOffset - startOffset) startOffset
    {| pairContext := pairContext0; nextString := noString |}) as H.
  assert (HI : nextInv text startOffset searchChar startOffset
                 {| pairContext := pairContext0; nextString := noString |}).
  { split; [lia|]. split; simpl; [now rewrite stringContextAt_init|].
    now rewrite !unclosedCount_init. }
  destruct (List.find _ _) as [o|].
  - now rewrite H.
  - now destruct H as (s' & -> & _).
Qed.


(** ** The string context, turn by turn *)

Lemma embeddedInString_noString : embeddedInString noString.
Proof. intros H. discriminate H. Qed.

Lemma embeddedInString_openString c : embeddedInString (openString c).
Proof. intros _. reflexivity. Qed.

Lemma embeddedInString_inStringStep sc c :
  inString sc = true -> embeddedInString (inStringStep sc c).
Proof.
  intros Hin. unfold inStringStep.
  destruct (String.eqb c embeddedCFMLDelimiter); [intros _; exact Hin|].
  destruct (negb (embeddedCFML sc) && isActiveDelimiter sc c).
  - apply embeddedInString_noString.
  - intros _. exact Hin.
Qed.

(** A turn inside a string. *)
Lemma turnKeeps_inString sc c :
  embeddedInString sc -> inString sc = true ->
  turnKeeps {| before := sc; read := c; after := inStringStep sc c |}.
Proof.
  intros Hwf Hin. unfold turnKeeps; simpl.
  split; [exact Hwf|]. split; [now apply embeddedInString_inStringStep|].
  unfold inStringStep. split.
  - intros _ ->. rewrite String.eqb_refl. split; [reflexivity|exact Hin].
  - intros _. destruct (String.eqb c embeddedCFMLDelimiter); simpl; [congruence|].
    destruct (embeddedCFML sc) eqn:He; simpl; [congruence|].
    unfold isActiveDelimiter.
    destruct (activeStringDelimiter sc) as [d|]; [|congruence].
    destruct (String.eqb c d) eqn:E; [|congruence].
    apply String.eqb_eq in E. subst. now split.
Qed.

(** A turn outside a string. *)
Lemma turnKeeps_outside sc c sc' :
  embeddedInString sc -> inString sc = false -> embeddedInString sc' ->
  turnKeeps {| before := sc; read := c; after := sc' |}.
Proof.
  intros Hwf Hout Hwf'. unfold turnKeeps; simpl.
  repeat split; try assumption; congruence.
Qed.

Lemma closingBody_turn text op cl o st :
  embeddedInString (closingString st) ->
  match closingBody text op cl o st with
  | Continue st' =>
      embeddedInString (closingString st')
      /\ turnKeeps {| before := closingString st; read := Js.charAt text o;
                      after := closingString st' |}
  | Return _ => True
  end.
Proof.
  intros Hwf. unfold closingBody.
  destruct (inString (closingString st)) eqn:Hin.
  { simpl. split; [now apply embeddedInString_inStringStep|].
    now apply turnKeeps_inString. }
  destruct (isStringDelimiter (Js.charAt text o)).
  { simpl. split; [apply embeddedInString_openString|].
    apply turnKeeps_outside; auto using embeddedInString_openString. }
  destruct (String.eqb (Js.charAt text o) op).
  { simpl. split; [exact Hwf|]. now apply turnKeeps_outside. }
  destruct (String.eqb (Js.charAt text o) cl).
  - destruct (unclosedPairs st); [exact I|].
    simpl. split; [exact Hwf|]. now apply turnKeeps_outside.
  - split; [exact Hwf|]. now apply turnKeeps_outside.
Qed.

Lemma nextBody_turn text searchChar includeChar o st :
  embeddedInString (nextString st) ->
  match nextBody text searchChar includeChar o st with
  | Continue st' =>
      embeddedInString (nextString st')
      /\ turnKeeps {| before := nextString st; read := Js.charAt text o;
                      after := nextString st' |}
  | Return _ => True
  end.
Proof.
  intros Hwf. unfold nextBody.
  destruct (inString (nextString st)) eqn:Hin.
  { simpl. split; [now apply embeddedInString_inStringStep|].
    now apply turnKeeps_inString. }
  destruct (isStringDelimiter (Js.charAt text o)).
  { simpl. split; [apply embeddedInString_openString|].
    apply turnKeeps_outside; auto using embeddedInString_openString. }
  destruct (Js.includes (openingPairs searchChar) (Js.charAt text o)).
  { simpl. split; [exact Hwf|]. now apply turnKeeps_outside. }
  destruct (Js.includes (closingPairs searchChar) (Js.charAt text o)).
  { simpl. split; [exact Hwf|]. now apply turnKeeps_outside. }
  destruct (Js.includes searchChar (Js.charAt text o) && hasNoUnclosedPairs (pairContext st)).
  - now destruct includeChar.
  - split; [exact Hwf|]. now apply turnKeeps_outside.
Qed.

Lemma scanBody_turn document text isScript o st :
  scanKeeps st ->
  scanKeeps (scanBody document text isScript o st)
  /\ turnKeeps {| before := stringContext st; read := Js.charAt text o;
                  after := stringContext (scanBody document text isScript o st) |}.
Proof.
  intros [Hwf Hc]. unfold scanBody, scanKeeps.
  destruct (inComment (commentContext st)) eqn:Hic.
  { specialize (Hc eq_refl).
    destruct (isLine _ && lineChanged _ _); simpl.
    { split; [split; [exact Hwf|discriminate]|now apply turnKeeps_outside]. }
    destruct (isBlock _ && endsWithClose _ _); simpl.
    { split; [split; [exact Hwf|discriminate]|now apply turnKeeps_outside]. }
    split; [split; [exact Hwf|now rewrite Hic]|now apply turnKeeps_outside]. }
  destruct (inString (stringContext st)) eqn:Hin.
  { simpl. split; [split; [now apply embeddedInString_inStringStep|now rewrite Hic]|].
    now apply turnKeeps_inString. }
  destruct isScript.
  - destruct (isStringDelimiter (Js.charAt text o)); simpl.
    { split; [split; [apply embeddedInString_openString|now rewrite Hic]|].
      apply turnKeeps_outside; auto using embeddedInString_openString. }
    destruct (Js.endsWith _ _); simpl.
    { split; [split; [exact Hwf|now rewrite Hin]|now apply turnKeeps_outside]. }
    destruct (Js.endsWith _ _); simpl.
    { split; [split; [exact Hwf|now rewrite Hin]|now apply turnKeeps_outside]. }
    split; [split; [exact Hwf|now rewrite Hic]|now apply turnKeeps_outside].
  - destruct (Js.endsWith _ _); simpl.
    { split; [split; [exact Hwf|now rewrite Hin]|now apply turnKeeps_outside]. }
    split; [split; [exact Hwf|now rewrite Hic]|now apply turnKeeps_outside].
Qed.

Lemma scanTurns_keep document text isScript n : forall from st,
  scanKeeps st ->
  Forall turnKeeps (scanTurns document text isScript n from st).
Proof.
  induction n as [|n IH]; intros from st Hk; simpl; [constructor|].
  destruct (scanBody_turn document text isScript from st Hk) as [Hk' Ht].
  constructor; [exact Ht|]. now apply IH.
Qed.

Lemma closingTurns_keep text op cl n : forall from st,
  embeddedInString (closingString st) ->
  Forall turnKeeps (loopTurns closingString text (closingBody text op cl) n from st).
Proof.
  induction n as [|n IH]; intros from st Hk; simpl; [constructor|].
  pose proof (closingBody_turn text op cl from st Hk) as H.
  destruct (closingBody text op cl from st) as [st'|]; [|constructor].
  destruct H as [Hk' Ht]. constructor; [exact Ht|]. now apply IH.
Qed.

Lemma nextTurns_keep text searchChar includeChar n : forall from st,
  embeddedInString (nextString st) ->
  Forall turnKeeps
    (loopTurns nextString text (nextBody text searchChar includeChar) n from st).
Proof.
  induction n as [|n IH]; intros from st Hk; simpl; [constructor|].
  pose proof (nextBody_turn text searchChar includeChar from st Hk) as H.
  destruct (nextBody text searchChar includeChar from st) as [st'|]; [|constructor].
  destruct H as [Hk' Ht]. constructor; [exact Ht|]. now apply IH.
Qed.

(** C9: at every turn of each forward scan that keeps a string context
    (the accurate comment scan, [getNextCharacterPosition],
    [getClosingPosition]), [embeddedCFML] is set only while [inString] is;
    a [#] read inside a string toggles [embeddedCFML] and leaves the
    string open; and a string that a turn closes is closed by its active
    delimiter, read while [embeddedCFML] is off. *)
Theorem string_context_turns_keep :
  forall (scan : ForwardScan) (from n : nat),
    Forall turnKeeps (turns scan from n).
Proof.
  intros [document isScript|text searchChar includeChar|text closingChar] from n;
    simpl.
  - apply scanTurns_keep. split; [apply embeddedInString_noString|discriminate].
  - apply nextTurns_keep, embeddedInString_noString.
  - apply closingTurns_keep, embeddedInString_noString.
Qed.

(** The turns of the closing scan over a string with an embedded
    expression that holds the string's own delimiter. *)
Lemma string_context_turns_keep_witness :
  Forall turnKeeps (turns (ClosingScan "{'a#'#'}" "}") 1 7)
  /\ map (fun t => (inString (after t), embeddedCFML (after t)))
       (turns (ClosingScan "{'a#'#'}" "}") 1 7)
     = [ (true, false); (true, false); (true, true); (true, true);
         (true, false); (false, false) ].
Proof.
  split; [apply (string_context_turns_keep (ClosingScan "{'a#'#'}" "}") 1 7)|].
  reflexivity.
Defined.

(** ** parseComponent *)

Lemma getProp_setProp_ne name name' v o :
  name <> name' -> getProp name (setProp name' v o) = getProp name o.
Proof.
  intros Hne. induction o as [|[k w] o IH]; simpl.
  - destruct (String.eqb name' name) eqn:E; [|reflexivity].
    apply String.eqb_eq in E. congruence.
  - destruct (String.eqb k name') eqn:E; simpl.
    + apply String.eqb_eq in E. subst k.
      destruct (String.eqb name' name) eqn:E'; [|reflexivity].
      apply String.eqb_eq in E'. congruence.
    + now rewrite IH.
Qed.

Section ParseComponentFacts.

Variable isTruthy : string -> bool.
Variable resolve : string -> Uri -> Js.Outcome (option Uri).

Lemma processDocBlock_accessors docBlock :
  Forall (fun e => key e <> "accessors") docBlock ->
  processDocBlock isTruthy docBlock !! "accessors" = None.
Proof.
  unfold processDocBlock.
  assert (G : forall acc : gmap string JsValue,
             acc !! "accessors" = None ->
             Forall (fun e => key e <> "accessors") docBlock ->
             fold_left
               (fun docBlockObj docElem =>
                  <[key docElem := coerce isTruthy (key docElem) (value docElem)]>
                    docBlockObj) docBlock acc !! "accessors" = None).
  { induction docBlock as [|e l IH]; intros acc Hacc HF; simpl; [exact Hacc|].
    inversion HF; subst. apply IH; [|assumption].
    rewrite lookup_insert_ne; assumption. }
  intros HF. apply G; [apply lookup_empty|exact HF].
Qed.

Lemma processAttributes_accessors attributes :
  Forall (fun e : string * Attribute => fst e <> "accessors") attributes ->
  processAttributes isTruthy attributes !! "accessors" = None.
Proof.
  unfold processAttributes.
  assert (G : forall acc : gmap string JsValue,
             acc !! "accessors" = None ->
             Forall (fun e : string * Attribute => fst e <> "accessors") attributes ->
             fold_left
               (fun attributeObj (entry : string * Attribute) =>
                  <[fst entry := coerce isTruthy (fst entry) (attributeValue (snd entry))]>
                    attributeObj) attributes acc !! "accessors" = None).
  { induction attributes as [|e l IH]; intros acc Hacc HF; simpl; [exact Hacc|].
    inversion HF; subst. apply IH; [|assumption].
    rewrite lookup_insert_ne; assumption. }
  intros HF. apply G; [apply lookup_empty|exact HF].
Qed.

Lemma applyImplements_accessors documentUri implements component result :
  applyImplements resolve documentUri implements component = Js.Returned result ->
  getProp "accessors" result = getProp "accessors" component.
Proof.
  unfold applyImplements.
  generalize (Js.split COMMA implements) as pieces.
  intros pieces. revert component.
  induction pieces as [|p pieces IH]; intros component; simpl.
  - intros [= <-]. reflexivity.
  - destruct (resolve (Js.trim p) documentUri) as [[u|]|e]; simpl.
    + set (c1 := if truthy (getProp "implements" component) then component
                 else setProp "implements" (JUris []) component).
      assert (H1 : getProp "accessors" c1 = getProp "accessors" component).
      { unfold c1. destruct (truthy _); [reflexivity|].
        now apply getProp_setProp_ne. }
      destruct (getProp "implements" c1) eqn:Hg;
        try (intros H; exfalso; revert H; clear;
             induction pieces as [|q pieces IHp]; simpl;
             [discriminate|exact IHp]).
      intros H. apply IH in H. rewrite H.
      rewrite getProp_setProp_ne by discriminate. exact H1.
    + apply IH.
    + intros H; exfalso; revert H; clear.
      induction pieces as [|q pieces IHp]; simpl; [discriminate|exact IHp].
Qed.

Lemma applyAttribute_accessors documentUri attrs component propName result :
  attrs !! "accessors" = None ->
  propName <> "persistent" ->
  applyAttribute resolve documentUri attrs component propName = Js.Returned result ->
  getProp "accessors" result = getProp "accessors" component.
Proof.
  intros Hacc Hp. unfold applyAttribute.
  destruct (truthy (attribute attrs propName)) eqn:Ht; [|now intros [= <-]].
  destruct (String.eqb propName "extends") eqn:E1.
  { destruct (resolve _ _) as [u|e]; simpl; [|discriminate].
    intros [= <-]. now apply getProp_setProp_ne. }
  destruct (String.eqb propName "implements") eqn:E2.
  { apply applyImplements_accessors. }
  destruct (String.eqb propName "persistent") eqn:E3.
  { apply String.eqb_eq in E3. contradiction. }
  simpl. intros [= <-]. apply getProp_setProp_ne.
  intros <-. unfold attribute in Ht. rewrite Hacc in Ht. discriminate.
Qed.

Lemma applyAttributes_fold_accessors documentUri attrs names : forall component result,
  attrs !! "accessors" = None ->
  ~ In "persistent" names ->
  fold_left
    (fun acc propName =>
       Js.bind acc (fun component =>
         applyAttribute resolve documentUri attrs component propName))
    names (Js.Returned component) = Js.Returned result ->
  getProp "accessors" result = getProp "accessors" component.
Proof.
  induction names as [|n names IH]; intros component result Hacc Hnp; simpl.
  - now intros [= <-].
  - destruct (applyAttribute resolve documentUri attrs component n) as [c'|e] eqn:Hstep.
    + intros H. apply IH in H; [|assumption|intros Hin; apply Hnp; now right].
      rewrite H. eapply applyAttribute_accessors; [exact Hacc| |exact Hstep].
      intros ->. apply Hnp. now left.
    + intros H; exfalso; revert H; clear.
      induction names as [|q names IHp]; simpl; [discriminate|exact IHp].
Qed.

End ParseComponentFacts.

Lemma getOwnPropertyNames_setProp n name v o :
  In n (getOwnPropertyNames (setProp name v o)) ->
  n = name \/ In n (getOwnPropertyNames o).
Proof.
  unfold getOwnPropertyNames.
  induction o as [|[k w] o IH]; simpl.
  - intros [<-|[]]. now left.
  - destruct (String.eqb k name) eqn:E; simpl.
    + intros [<-|H]; [right; now left|right; now right].
    + intros [<-|H]; [right; now left|].
      destruct (IH H) as [->|H']; [now left|right; now right].
Qed.

(** C1: when neither the doc block nor the attribute list of the matched
    head has an [accessors] key, the component that [parseComponent]
    returns has [accessors] false, whatever they say of [persistent]: the
    loop that applies the attributes runs over the component's own
    property names, [persistent] is not one of them, and the branch that
    would set [accessors] is never taken. *)
Theorem parseComponent_accessors_without_key :
  forall execComponentPattern parseDocBlock parseAttributes isTruthy
         path_basename resolve parseProperties parseFunctions parseVariables
         document component,
    (forall range,
        Forall (fun e => key e <> "accessors") (parseDocBlock document range)) ->
    (forall range names,
        Forall (fun e : string * Attribute => fst e <> "accessors")
          (parseAttributes document range names)) ->
    parseComponent execComponentPattern parseDocBlock parseAttributes isTruthy
      path_basename resolve parseProperties parseFunctions parseVariables
      document = Js.Returned (Some component) ->
    getProp "accessors" component = JBool false.
Proof.
  intros exec pdb pat isT base resolve pprop pfun pvar document component Hdoc Hattr.
  unfold parseComponent.
  destruct (exec (getText document)) as [m|]; [|discriminate].
  cbv zeta.
  set (docBlock := if present (componentDoc m) then pdb document _ else []).
  set (attributes := if negb _ then pat document _ componentAttributeNames else []).
  set (attrs := assign (assign ∅ (processDocBlock isT docBlock))
                  (processAttributes isT attributes)).
  set (literal := [("uri", _); _; _; _; _; _; _; _; _; _; _; _; _]).
  match goal with
  | |- context [fold_left ?f docBlock literal] =>
      set (c1 := fold_left f docBlock literal)
  end.
  match goal with
  | |- context [applyAttributes _ _ _ ?c] => set (c2 := c)
  end.
  assert (Hd : Forall (fun e => key e <> "accessors") docBlock).
  { unfold docBlock. destruct (present _); [apply Hdoc|constructor]. }
  assert (Ha : Forall (fun e : string * Attribute => fst e <> "accessors") attributes).
  { unfold attributes. destruct (negb _); [apply Hattr|constructor]. }
  assert (Hattrs : attrs !! "accessors" = None).
  { unfold attrs, assign. rewrite !lookup_union.
    rewrite processAttributes_accessors, processDocBlock_accessors by assumption.
    now rewrite lookup_empty. }
  assert (Hc1 : getProp "accessors" c1 = JBool false
                /\ ~ In "persistent" (getOwnPropertyNames c1)).
  { unfold c1. clear c2.
    assert (G : getProp "accessors" literal = JBool false
                /\ ~ In "persistent" (getOwnPropertyNames literal)).
    { split; [reflexivity|]. simpl. intros H.
      repeat (destruct H as [H|H]; [discriminate H|]). exact H. }
    revert G. generalize literal as c. clear.
    induction docBlock as [|e l IH]; intros c G; simpl; [exact G|].
    apply IH. destruct (String.eqb (key e) "extends"); [|exact G].
    destruct G as [G1 G2]. split.
    - now rewrite getProp_setProp_ne by discriminate.
    - intros H. apply getOwnPropertyNames_setProp in H as [H|H];
        [discriminate H|contradiction]. }
  assert (Hc2 : getProp "accessors" c2 = JBool false
                /\ ~ In "persistent" (getOwnPropertyNames c2)).
  { unfold c2. destruct (find _ attributes) as [[k a]|]; [|exact Hc1].
    destruct Hc1 as [G1 G2]. split.
    - now rewrite getProp_setProp_ne by discriminate.
    - intros H. apply getOwnPropertyNames_setProp in H as [H|H];
        [discriminate H|contradiction]. }
  destruct (applyAttributes resolve (uri document) attrs c2) as [c3|e] eqn:Happ;
    simpl; [|discriminate].
  destruct (fold_left _ (pfun document) _) as [earliest functions].
  intros [= <-].
  rewrite !getProp_setProp_ne by discriminate.
  unfold applyAttributes in Happ.
  apply applyAttributes_fold_accessors in Happ; [|exact Hattrs|apply Hc2].
  rewrite Happ. apply Hc2.
Qed.

(** The head [<cfcomponent extends='pkg.Base' persistent='true'>] is
    parsed to a component, its attributes hold [persistent] true, and its
    [accessors] is false. *)
Lemma parseComponent_accessors_without_key_witness :
  parsePersistent = Js.Returned (Some parsedPersistent)
  /\ processAttributes isTruthyModel persistentAttributes !! "persistent"
     = Some (JBool true)
  /\ getProp "accessors" parsedPersistent = JBool false.
Proof.
  split; [vm_compute; reflexivity|]. split; [vm_compute; reflexivity|].
  apply (parseComponent_accessors_without_key
           (fun _ => Some persistentMatch) (fun _ _ => [])
           (fun _ _ _ => persistentAttributes) isTruthyModel
           (fun _ _ => "Base") (fun _ _ => Js.Returned None)
           (fun _ => JParsed "properties") (fun _ => [])
           (fun _ _ _ => JParsed "variables") (doc persistentText)).
  - intros range. constructor.
  - intros range names. repeat constructor; discriminate.
  - vm_compute; reflexivity.
Defined.

(** ** readArguments *)

Lemma next_remaining it :
  hasNext it = true -> remaining (snd (next it)) < remaining it.
Proof.
  unfold hasNext, next, remaining. intros Hn. apply Z.leb_le in Hn.
  destruct (lineCharacterOffset it <? 0)%Z eqn:Ho.
  - apply Z.ltb_lt in Ho.
    destruct (0 <=? lineNumber it - 1)%Z eqn:Hl; simpl.
    + apply Z.leb_le in Hl.
      destruct (lineNumber it - 1 <? 0)%Z eqn:H1; [apply Z.ltb_lt in H1; lia|].
      destruct (lineNumber it <? 0)%Z eqn:H2; [apply Z.ltb_lt in H2; lia|].
      replace (Z.to_nat (lineNumber it)) with (S (Z.to_nat (lineNumber it - 1))) by lia.
      simpl. lia.
    + apply Z.leb_gt in Hl.
      destruct (lineNumber it - 1 <? 0)%Z eqn:H1; [|apply Z.ltb_ge in H1; lia].
      destruct (lineNumber it <? 0)%Z eqn:H2; [apply Z.ltb_lt in H2; lia|]. lia.
  - apply Z.ltb_ge in Ho. simpl.
    destruct (lineNumber it <? 0)%Z eqn:H2; [apply Z.ltb_lt in H2; lia|]. lia.
Qed.

Lemma readQuoted_remaining fuel ch : forall it currArg,
  remaining (fst (readQuoted fuel ch it currArg)) <= remaining it.
Proof.
  induction fuel as [|fuel IH]; intros it currArg; simpl; [lia|].
  destruct (hasNext it) eqn:Hn; [|simpl; lia].
  pose proof (next_remaining it Hn) as Hlt.
  destruct (next it) as [nch it']. simpl in Hlt.
  destruct (codeEq ch nch); simpl; [lia|].
  specialize (IH it' (fromCharCode nch :: currArg)). lia.
Qed.

Lemma readTurn_remaining st st' :
  hasNext (iterator st) = true ->
  readTurn st = Continue st' ->
  remaining (iterator st') < remaining (iterator st).
Proof.
  intros Hn. pose proof (next_remaining _ Hn) as Hlt. unfold readTurn.
  destruct (next (iterator st)) as [ch it]. simpl in Hlt.
  repeat match goal with
         | |- context [if ?b then _ else _] => destruct b
         end;
    try discriminate; try (intros [= <-]; simpl; lia).
  pose proof (readQuoted_remaining (remaining it) ch it
                (fromCharCode ch :: fromCharCode ch :: currArg st)) as Hq.
  destruct (readQuoted _ _ _ _) as [it' currArg']. simpl in Hq.
  intros [= <-]. simpl. lia.
Qed.

Lemma readTurn_return st args :
  readTurn st = Return args ->
  fst (next (iterator st)) = LEFT_PAREN
  /\ (parenNesting st - 1 < 0)%Z
  /\ args <> [].
Proof.
  unfold readTurn. destruct (next (iterator st)) as [ch it]. simpl.
  destruct (codeEq ch LEFT_PAREN) eqn:E.
  - destruct (parenNesting st - 1 <? 0)%Z eqn:Hp; [|discriminate].
    intros [= <-]. apply Z.ltb_lt in Hp. split; [|split; [exact Hp|discriminate]].
    destruct ch as [n|]; [|discriminate]. simpl in E.
    apply Nat.eqb_eq in E. now subst.
  - repeat match goal with
           | |- context [if ?b then _ else _] => destruct b
           end; try discriminate.
    destruct (readQuoted _ _ _ _). discriminate.
Qed.

(** With more fuel than codes left, the loop ends, either out of codes
    with the empty list or at the unmatched parenthesis with what it
    returns there. *)
Lemma readLoop_ends fuel : forall st,
  remaining (iterator st) < fuel ->
  exists args, readLoop fuel st = Some args
    /\ ((args = [] /\ exists st', Reads st st' /\ exhaustedAt st')
        \/ (args <> [] /\ exists st', Reads st st' /\ unmatchedParenAt st' args)).
Proof.
  induction fuel as [|fuel IH]; intros st Hf; [lia|]. simpl.
  destruct (hasNext (iterator st)) eqn:Hn.
  - destruct (readTurn st) as [st1|args] eqn:Ht.
    + pose proof (readTurn_remaining _ _ Hn Ht) as Hlt.
      destruct (IH st1) as (args & Hr & Hcase); [lia|].
      exists args. split; [exact Hr|].
      destruct Hcase as [(He & st' & HR & Hx)|(Hne & st' & HR & Hx)].
      * left. split; [exact He|]. exists st'. split; [|exact Hx].
        eapply Reads_turn; eassumption.
      * right. split; [exact Hne|]. exists st'. split; [|exact Hx].
        eapply Reads_turn; eassumption.
    + exists args. split; [reflexivity|]. right.
      destruct (readTurn_return _ _ Ht) as (Hc & Hp & Hne).
      split; [exact Hne|]. exists st. split; [constructor|].
      repeat split; assumption.
  - exists []. split; [reflexivity|]. left. split; [reflexivity|].
    exists st. split; [constructor|exact Hn].
Qed.

(** The run is followed by the loop: from a state it reaches, the loop
    ends as it ends there. *)
Lemma readLoop_follows st st' :
  Reads st st' ->
  forall fuel, remaining (iterator st) < fuel ->
  exists fuel', remaining (iterator st') < fuel'
                /\ readLoop fuel st = readLoop fuel' st'.
Proof.
  induction 1 as [st|st st1 st2 Hn Ht HR IH]; intros fuel Hf.
  - exists fuel. split; [exact Hf|reflexivity].
  - destruct fuel as [|fuel]; [lia|].
    pose proof (readTurn_remaining _ _ Hn Ht) as Hlt.
    destruct (IH fuel) as (fuel' & Hf' & Heq); [lia|].
    exists fuel'. split; [exact Hf'|]. simpl. now rewrite Hn, Ht.
Qed.

(** C10: [readArguments] always ends; when its backward iterator runs
    out of codes before the opening parenthesis that takes the paren
    count below zero is read, it returns the empty list, whatever
    arguments it had collected; and a list that is not empty is returned
    only at that parenthesis. *)
Theorem readArguments_exhausted_or_unmatched_paren :
  forall it : BackwardIterator,
    (exists args, readArguments it = Some args)
    /\ (forall st, Reads (readState0 it) st -> exhaustedAt st ->
                   readArguments it = Some [])
    /\ (forall args, readArguments it = Some args -> args <> [] ->
                     exists st, Reads (readState0 it) st
                                /\ unmatchedParenAt st args).
Proof.
  intros it. unfold readArguments.
  destruct (readLoop_ends (S (remaining it)) (readState0 it)) as (args & Hr & Hcase);
    [simpl; lia|].
  split; [now exists args|]. split.
  - intros st HR Hx.
    destruct (readLoop_follows _ _ HR (S (remaining it))) as (fuel' & Hf' & Heq);
      [simpl; lia|].
    rewrite Heq. destruct fuel' as [|fuel']; [lia|]. simpl.
    unfold exhaustedAt in Hx. now rewrite Hx.
  - intros args' Hr' Hne. rewrite Hr in Hr'. injection Hr' as <-.
    destruct Hcase as [(He & _)|(_ & Hx)]; [contradiction|exact Hx].
Qed.

Lemma runTurns_Reads k : forall st st',
  runTurns k st = Some st' -> Reads st st'.
Proof.
  induction k as [|k IH]; intros st st'; simpl.
  - intros [= <-]. constructor.
  - destruct (hasNext (iterator st)) eqn:Hn; [|discriminate].
    destruct (readTurn st) as [st1|] eqn:Ht; [|discriminate].
    intros H. eapply Reads_turn; [exact Hn|exact Ht|]. now apply IH.
Qed.

(** Read back from the end of [a, b], the iterator runs out after five
    turns with one argument collected, and the empty list is returned;
    from the end of [f(a, b] the parenthesis is reached and both
    arguments are returned. *)
Lemma readArguments_exhausted_or_unmatched_paren_witness :
  let it := newBackwardIterator (doc "a, b") (mkPosition 0 3) in
  readArguments it = Some []
  /\ allArgs (stateAfterTurns 5 it) = ["b"]
  /\ (exists st,
         Reads (readState0 (newBackwardIterator (doc "f(a, b") (mkPosition 0 5))) st
         /\ unmatchedParenAt st ["a"; "b"]).
Proof.
  split; [|split].
  - apply (proj1 (proj2 (readArguments_exhausted_or_unmatched_paren
                           (newBackwardIterator (doc "a, b") (mkPosition 0 3))))
             (stateAfterTurns 5 (newBackwardIterator (doc "a, b") (mkPosition 0 3)))).
    + apply (runTurns_Reads 5). vm_compute. reflexivity.
    + vm_compute. reflexivity.
  - vm_compute. reflexivity.
  - apply (proj2 (proj2 (readArguments_exhausted_or_unmatched_paren
                           (newBackwardIterator (doc "f(a, b") (mkPosition 0 5))))).
    + vm_compute. reflexivity.
    + discriminate.
Defined.

(** ** componentPathToUri *)

(** C7: after a cache miss, when the file is not found beside the
    referencing file and the referencing file belongs to no workspace
    folder, [componentPathToUri] does not return not-found: it reads
    [root.uri] of the undefined folder and throws. *)
Theorem componentPathToUri_no_workspace_folder_throws :
  forall cachedComponentPathToUri existsSync getWorkspaceFolder
         path_sep path_dirname path_join dotPath baseUri,
    cachedComponentPathToUri dotPath baseUri = None ->
    existsSync
      (path_join (path_dirname (fsPath baseUri))
         (Js.replaceAll DOT path_sep dotPath +:+ COMPONENT_EXT)) = false ->
    getWorkspaceFolder baseUri = None ->
    exists error,
      componentPathToUri cachedComponentPathToUri existsSync getWorkspaceFolder
        path_sep path_dirname path_join dotPath baseUri = Js.Thrown error.
Proof.
  intros cached ex gw sep dn jn dotPath baseUri Hc He Hw.
  unfold componentPathToUri. rewrite Hc, He, Hw. eexists. reflexivity.
Qed.

(** [utils.Helper] referenced from [/outside/a.cfc], with no such file
    and no workspace folder: the path probed is
    [/outside/utils/Helper.cfc], and the call throws. *)
Lemma componentPathToUri_no_workspace_folder_throws_witness :
  joinPath (dirnamePath "/outside/a.cfc")
    (Js.replaceAll DOT "/" "utils.Helper" +:+ COMPONENT_EXT)
  = "/outside/utils/Helper.cfc"
  /\ exists error,
       resolveNowhere "utils.Helper" {| fsPath := "/outside/a.cfc" |}
       = Js.Thrown error.
Proof.
  split; [reflexivity|].
  apply (componentPathToUri_no_workspace_folder_throws
           (fun _ _ => None) (fun _ => false) (fun _ => None)
           "/" dirnamePath joinPath "utils.Helper" {| fsPath := "/outside/a.cfc" |});
    reflexivity.
Defined.

(** ** The accurate scan of a script block comment *)

(** C2: in the script text [/* a/b */] the accurate scan opens the block
    comment with the line comment's delimiter as its active comment, so
    the close it waits for is the single character [/]: the range it
    returns ends at offset 5, after the first slash, not at offset 9
    after the closing delimiter; the tag comment [<!--- a->b --->], whose
    active comment is its own pair, is closed at its closing
    delimiter. *)
Theorem scan_script_block_comment_closes_early :
  forall execTagPattern,
    getCommentRanges execTagPattern (doc "/* a/b */") true None false
    = [ {| start := mkPosition 0 0; stop := mkPosition 0 5 |} ]
    /\ activeComment (commentContext (scanStateAt (doc "/* a/b */") true None 2))
       = Some (LineDelimiter "//")
    /\ commentType (commentContext (scanStateAt (doc "/* a/b */") true None 2))
       = Some Block
    /\ index1 (LineDelimiter "//") = Some "/"
    /\ scannedRanges (doc "<!--- a->b --->") false None
       = [ {| start := mkPosition 0 0; stop := mkPosition 0 15 |} ].
Proof. intros execTagPattern. repeat split; reflexivity. Qed.

(** ** Positions in document order *)

Lemma isBeforeOrEqual_ple p q : isBeforeOrEqual p q = true <-> ple p q.
Proof.
  unfold isBeforeOrEqual, ple.
  rewrite orb_true_iff, andb_true_iff, Nat.ltb_lt, Nat.eqb_eq, Nat.leb_le.
  reflexivity.
Qed.

Lemma isBefore_plt p q : isBefore p q = true <-> plt p q.
Proof.
  unfold isBefore, plt.
  rewrite orb_true_iff, andb_true_iff, Nat.ltb_lt, Nat.eqb_eq, Nat.ltb_lt.
  reflexivity.
Qed.

Lemma ple_refl p : ple p p.
Proof. unfold ple. lia. Qed.

Lemma ple_trans p q r : ple p q -> ple q r -> ple p r.
Proof. unfold ple. lia. Qed.

Lemma plt_ple p q : plt p q -> ple p q.
Proof. unfold plt, ple. lia. Qed.

Lemma plt_ple_trans p q r : plt p q -> ple q r -> plt p r.
Proof. unfold plt, ple. lia. Qed.

Lemma ple_plt_trans p q r : ple p q -> plt q r -> plt p r.
Proof. unfold plt, ple. lia. Qed.

Lemma positionFrom_ge s : forall n ln ch,
  ple (mkPosition ln ch) (positionFrom s n ln ch).
Proof.
  induction s as [|c s IH]; intros [|n] ln ch; simpl; try apply ple_refl.
  destruct (Ascii.eqb c LF).
  - eapply ple_trans; [|apply IH]. unfold ple; simpl. lia.
  - eapply ple_trans; [|apply IH]. unfold ple; simpl. lia.
Qed.

Lemma positionFrom_mono s : forall a b ln ch,
  a <= b -> ple (positionFrom s a ln ch) (positionFrom s b ln ch).
Proof.
  induction s as [|c s IH]; intros a b ln ch Hab.
  - destruct a, b; simpl; apply ple_refl.
  - destruct a as [|a].
    + apply (positionFrom_ge (String c s) b ln ch).
    + destruct b as [|b]; [lia|]. simpl.
      destruct (Ascii.eqb c LF); apply IH; lia.
Qed.

Lemma positionFrom_strict s : forall a b ln ch,
  a < b -> b <= String.length s ->
  plt (positionFrom s a ln ch) (positionFrom s b ln ch).
Proof.
  induction s as [|c s IH]; intros a b ln ch Hab Hb; simpl in Hb; [lia|].
  destruct b as [|b]; [lia|]. destruct a as [|a].
  - simpl. destruct (Ascii.eqb c LF).
    + eapply plt_ple_trans; [|apply positionFrom_ge]. unfold plt; simpl. lia.
    + eapply plt_ple_trans; [|apply positionFrom_ge]. unfold plt; simpl. lia.
  - simpl. destruct (Ascii.eqb c LF); apply IH; lia.
Qed.

Lemma positionAt_mono document a b :
  a <= b -> ple (positionAt document a) (positionAt document b).
Proof. apply positionFrom_mono. Qed.

Lemma positionAt_strict document a b :
  a < b -> b <= String.length (getText document) ->
  plt (positionAt document a) (positionAt document b).
Proof. apply positionFrom_strict. Qed.

Lemma offsetFrom_le s : forall ln ch acc,
  offsetFrom s ln ch acc <= acc + String.length s.
Proof.
  induction s as [|c s IH]; intros ln ch acc; simpl; [lia|].
  destruct ln as [|ln].
  - destruct ch as [|ch]; [lia|].
    destruct (Ascii.eqb c LF); [lia|]. specialize (IH 0 ch (S acc)). lia.
  - destruct (Ascii.eqb c LF).
    + specialize (IH ln ch (S acc)). lia.
    + specialize (IH (S ln) ch (S acc)). lia.
Qed.

Lemma offsetAt_le document p :
  offsetAt document p <= String.length (getText document).
Proof. unfold offsetAt. pose proof (offsetFrom_le (getText document) (line p) (character p) 0). lia. Qed.

Lemma mkRange_ordered a b :
  ple a b -> mkRange a b = {| start := a; stop := b |}.
Proof.
  intros H. unfold mkRange. apply isBeforeOrEqual_ple in H. now rewrite H.
Qed.

(** ** The sweeps of fast mode *)

Lemma chained_weaken lo lo' matches :
  lo' <= lo -> chained lo matches -> chained lo' matches.
Proof.
  destruct matches as [|m rest]; simpl; [trivial|]. intros H (H1 & H2 & H3).
  repeat split; [lia|assumption|assumption].
Qed.

Lemma sweep_chained (matchAt : nat -> option nat) :
  (forall i e, matchAt i = Some e -> i <= e) ->
  forall n i lastIndex, chained lastIndex (sweep matchAt n i lastIndex).
Proof.
  intros Hf. induction n as [|n IH]; intros i lastIndex; simpl; [exact I|].
  destruct (i <? lastIndex) eqn:Hlt; [apply IH|].
  apply Nat.ltb_ge in Hlt.
  destruct (matchAt i) as [e|] eqn:Hm; [|apply IH].
  simpl. repeat split; [exact Hlt|now apply Hf|apply IH].
Qed.

Section MatchRanges.
Variables (document : TextDocument) (textOffset : nat).

Let rangeOfMatch (m : nat * nat) : Range :=
  mkRange (positionAt document (textOffset + fst m))
          (positionAt document (textOffset + fst m + (snd m - fst m))).

Lemma chained_ranges matches : forall lo,
  chained lo matches ->
  Forall (fun r => ple (positionAt document (textOffset + lo)) (start r))
    (map rangeOfMatch matches)
  /\ inDocumentOrder (map rangeOfMatch matches)
  /\ pairwiseDisjoint (map rangeOfMatch matches).
Proof.
  induction matches as [|[a e] rest IH]; intros lo; simpl.
  - intros _. repeat split; constructor.
  - intros (Hlo & Hae & Hrest).
    destruct (IH e Hrest) as (Hb & Ho & Hd).
    assert (Hr : rangeOfMatch (a, e)
                 = {| start := positionAt document (textOffset + a);
                      stop := positionAt document (textOffset + e) |}).
    { unfold rangeOfMatch. simpl.
      replace (textOffset + a + (e - a)) with (textOffset + e) by lia.
      apply mkRange_ordered, positionAt_mono. lia. }
    rewrite Hr. split; [|split].
    + constructor.
      * simpl. apply positionAt_mono. lia.
      * eapply Forall_impl; [exact Hb|]. intros r Hle. simpl in Hle.
        eapply ple_trans; [|exact Hle]. apply positionAt_mono. lia.
    + constructor; [exact Ho|].
      eapply Forall_impl; [exact Hb|]. intros r Hle. simpl in *.
      apply isBeforeOrEqual_ple.
      eapply ple_trans; [|exact Hle]. apply positionAt_mono. lia.
    + constructor; [|exact Hd].
      eapply Forall_impl; [exact Hb|]. intros r Hle. simpl in *.
      unfold overlaps. simpl. apply andb_false_iff. right.
      destruct (isBefore (start r) (positionAt document (textOffset + e))) eqn:E;
        [|reflexivity].
      apply isBefore_plt in E. unfold plt, ple in *. lia.
Qed.

End MatchRanges.

Lemma matchRanges_ordered document textOffset pattern documentText :
  forward pattern ->
  inDocumentOrder (matchRanges document textOffset pattern documentText)
  /\ pairwiseDisjoint (matchRanges document textOffset pattern documentText).
Proof.
  intros Hf. unfold matchRanges, execAll.
  eapply proj2, (chained_ranges document textOffset _ 0).
  apply sweep_chained. intros i e. apply Hf.
Qed.

Lemma indexOfFrom_ge s p n : forall i j,
  indexOfFrom s p n i = Some j -> i <= j.
Proof.
  induction n as [|n IH]; intros i j; simpl; [discriminate|].
  destruct (Js.startsWithAt s p i); [intros [= <-]; lia|].
  intros H. apply IH in H. lia.
Qed.

Lemma lazyBlockPattern_forward opening closing :
  forward (lazyBlockPattern opening closing).
Proof.
  intros text i e. unfold lazyBlockPattern, indexOf.
  destruct (Js.startsWithAt text opening i); [|discriminate].
  destruct (indexOfFrom _ _ _ _) as [j|] eqn:Hj; [|discriminate].
  apply indexOfFrom_ge in Hj. intros [= <-]. lia.
Qed.

Lemma restOfLine_ge text n : forall i, i <= restOfLine text n i.
Proof.
  induction n as [|n IH]; intros i; simpl; [lia|].
  destruct (isLineBreak (Js.charAt text i)); [lia|].
  specialize (IH (S i)). lia.
Qed.

Lemma cfscriptLineCommentPattern_forward : forward cfscriptLineCommentPattern.
Proof.
  intros text i e. unfold cfscriptLineCommentPattern.
  destruct (Js.startsWithAt text "//" i); [|discriminate].
  intros [= <-]. pose proof (restOfLine_ge text (String.length text - (i + 2)) (i + 2)).
  lia.
Qed.

(** ** The accurate scan of a script text *)

Lemma append_empty_l s : EmptyString +:+ s = s.
Proof. reflexivity. Qed.

Lemma length_charAt text o : String.length (Js.charAt text o) <= 1.
Proof. unfold Js.charAt. destruct (String.get o text); simpl; lia. Qed.

Lemma endsWith_short s d :
  String.length s < String.length d -> Js.endsWith s d = false.
Proof.
  intros H. unfold Js.endsWith.
  destruct (String.length d <=? String.length s) eqn:E; [|reflexivity].
  apply Nat.leb_le in E. lia.
Qed.

Lemma startsIncrease_snoc ranges r :
  startsIncrease ranges ->
  Forall (fun x => plt (start x) (start r)) ranges ->
  startsIncrease (ranges ++ [r]).
Proof.
  unfold startsIncrease. induction ranges as [|x l IH]; simpl; intros Hs Hf.
  - repeat constructor.
  - inversion Hs as [|? ? Hs' Hx]; subst. inversion Hf as [|? ? Hxr Hf']; subst.
    constructor; [now apply IH|].
    apply Forall_app. split; [exact Hx|].
    constructor; [now apply isBefore_plt|constructor].
Qed.

Lemma startBelow_weaken document b b' ranges :
  b <= b' -> startBelow document b ranges -> startBelow document b' ranges.
Proof.
  intros Hb H. eapply Forall_impl; [exact H|].
  intros r (a & Ha & Hr). exists a. split; [lia|exact Hr].
Qed.

(** A range pushed for the comment that began at offset [a]. *)
Lemma push_keeps document a b o ranges :
  a <= b -> a < o -> a <= String.length (getText document) ->
  startsIncrease ranges -> startBelow document a ranges ->
  let r := rangeOf (Some (positionAt document a)) (Some (positionAt document b)) in
  startsIncrease (ranges ++ [r]) /\ startBelow document o (ranges ++ [r]).
Proof.
  intros Hab Hao Hlen Hs Hb r.
  assert (Hr : r = {| start := positionAt document a; stop := positionAt document b |}).
  { unfold r, rangeOf. simpl. apply mkRange_ordered, positionAt_mono, Hab. }
  rewrite Hr. split.
  - apply startsIncrease_snoc; [exact Hs|].
    eapply Forall_impl; [exact Hb|]. intros x (a' & Ha' & Hx). simpl.
    rewrite Hx. now apply positionAt_strict.
  - apply Forall_app. split.
    + eapply startBelow_weaken; [|exact Hb]. lia.
    + constructor; [|constructor]. exists a. split; [exact Hao|reflexivity].
Qed.

Lemma scanBody_scriptScanInv document from o st :
  o < String.length (getText document) ->
  scriptScanInv document from o st ->
  scriptScanInv document from (S o) (scanBody document (getText document) true o st).
Proof.
  intros Ho ((Hfo & Hol) & Hprev & Hinc & Hcc).
  assert (Hnext : (S o =? from) = false) by (apply Nat.eqb_neq; lia).
  unfold scriptScanInv. rewrite Hnext. replace (S o - 1) with o by lia.
  split; [lia|].
  unfold scanBody.
  destruct (inComment (commentContext st)) eqn:Hic.
  - destruct Hcc as (a & Hstart & Hfa & Hao & Hbelow).
    assert (Hne : (o =? from) = false) by (apply Nat.eqb_neq; lia).
    rewrite Hne in Hprev. rewrite Hprev, Hstart.
    match goal with |- context [if ?b then _ else _] => destruct b end.
    { simpl. split; [reflexivity|].
      destruct (push_keeps document a (o - 1) o (commentRanges st)) as [H1 H2];
        try assumption; try lia.
      split; assumption. }
    match goal with |- context [if ?b then _ else _] => destruct b end.
    { simpl. split; [reflexivity|].
      destruct (push_keeps document a (o + 1) o (commentRanges st)) as [H1 H2];
        try assumption; try lia.
      split; assumption. }
    simpl. split; [reflexivity|]. split; [exact Hinc|]. rewrite Hic.
    exists a. repeat split; try assumption; lia.
  - assert (Hkeep : startBelow document o (commentRanges st))
      by (eapply startBelow_weaken; [|exact Hcc]; lia).
    destruct (inString (stringContext st)).
    { simpl. rewrite Hic. repeat split; assumption. }
    destruct (isStringDelimiter _).
    { simpl. rewrite Hic. repeat split; assumption. }
    assert (Hopen : forall d,
      String.length d = 2 ->
      Js.endsWith
        ((if lineChanged (positionAt document o) (previousPosition st)
          then EmptyString else lineText st)
         +:+ Js.charAt (getText document) o) d = true ->
      previousPosition st = Some (positionAt document (o - 1)) /\ from < o).
    { intros d Hd He. destruct (o =? from) eqn:E.
      - destruct Hprev as [Hp Hl]. rewrite Hp, Hl in He. simpl in He.
        rewrite append_empty_l, endsWith_short in He; [discriminate|].
        pose proof (length_charAt (getText document) o). lia.
      - apply Nat.eqb_neq in E. split; [exact Hprev|lia]. }
    destruct (Js.endsWith _ (scriptLineComment cfmlCommentRules)) eqn:E1.
    { destruct (Hopen (scriptLineComment cfmlCommentRules) eq_refl E1) as [Hp Hlt]. simpl. rewrite Hp.
      split; [reflexivity|]. split; [exact Hinc|].
      exists (o - 1). repeat split; try assumption; lia. }
    destruct (Js.endsWith _ (fst (scriptBlockComment cfmlCommentRules))) eqn:E2.
    { destruct (Hopen (fst (scriptBlockComment cfmlCommentRules)) eq_refl E2) as [Hp Hlt]. simpl. rewrite Hp.
      split; [reflexivity|]. split; [exact Hinc|].
      exists (o - 1). repeat split; try assumption; lia. }
    simpl. rewrite Hic. repeat split; assumption.
Qed.

Lemma scanLoop_scriptScanInv document from n : forall o st,
  o + n <= String.length (getText document) ->
  scriptScanInv document from o st ->
  scriptScanInv document from (o + n)
    (scanLoop document (getText document) true n o st).
Proof.
  induction n as [|n IH]; intros o st Hn Hinv; simpl.
  - now rewrite Nat.add_0_r.
  - replace (o + S n) with (S o + n) by lia. apply IH; [lia|].
    apply scanBody_scriptScanInv; [lia|exact Hinv].
Qed.

Lemma scannedRanges_script_increase document docRange :
  startsIncrease (scannedRanges document true docRange).
Proof.
  unfold scannedRanges.
  destruct (scanBounds document docRange) as [from upto] eqn:Hb.
  assert (Hup : upto <= String.length (getText document)).
  { unfold scanBounds in Hb. destruct docRange as [range|].
    - injection Hb as <- <-. apply offsetAt_le.
    - injection Hb as <- <-. lia. }
  destruct (Nat.le_gt_cases from upto) as [Hle|Hgt].
  - pose proof (scanLoop_scriptScanInv document from (upto - from) from scanState0) as H.
    destruct H as (_ & _ & Hs & _); [lia| |exact Hs].
    split; [lia|]. rewrite Nat.eqb_refl. split; [now split|].
    split; [constructor|]. simpl. constructor.
  - replace (upto - from) with 0 by lia. simpl. constructor.
Qed.

(** C4, as amended: each pattern sweep of fast mode returns ranges in
    document order, no two of them overlapping; fast mode on a script
    text returns the block comment sweep followed by the line comment
    sweep, as they come; and the accurate scan of a script text or
    sub-range returns ranges each of which starts after the one before
    it. *)
Theorem commentRanges_ordered_sweep_by_sweep :
  (forall document textOffset documentText,
      orderedDisjoint
        (matchRanges document textOffset cfscriptBlockCommentPattern documentText))
  /\ (forall document textOffset documentText,
         orderedDisjoint
           (matchRanges document textOffset cfscriptLineCommentPattern documentText))
  /\ (forall document textOffset documentText,
         orderedDisjoint
           (matchRanges document textOffset tagBlockCommentPattern documentText))
  /\ (forall execTagPattern document docRange,
         getCommentRanges execTagPattern document true docRange true
         = matchRanges document (snd (regexBounds document docRange))
             cfscriptBlockCommentPattern (fst (regexBounds document docRange))
           ++ matchRanges document (snd (regexBounds document docRange))
                cfscriptLineCommentPattern (fst (regexBounds document docRange)))
  /\ (forall execTagPattern document docRange,
         startsIncrease (getCommentRanges execTagPattern document true docRange false)).
Proof.
  repeat split.
  - apply matchRanges_ordered, lazyBlockPattern_forward.
  - apply matchRanges_ordered, lazyBlockPattern_forward.
  - apply matchRanges_ordered, cfscriptLineCommentPattern_forward.
  - apply matchRanges_ordered, cfscriptLineCommentPattern_forward.
  - apply matchRanges_ordered, lazyBlockPattern_forward.
  - apply matchRanges_ordered, lazyBlockPattern_forward.
  - intros exec document docRange. unfold getCommentRanges, getCommentRangesByRegex,
      scriptCommentRangesByRegex.
    now destruct (regexBounds document docRange).
  - intros exec document docRange. apply scannedRanges_script_increase.
Qed.

(** C4, as stated, fails: on the script text [// /* x */] fast mode
    returns the block comment 3..10 and then the line comment 0..10, out
    of document order and overlapping; and on a block comment that holds
    [//] the accurate scan returns the ranges 0..5 and 4..8 of the first
    line, which overlap. *)
Lemma commentRanges_fast_script_out_of_order :
  getCommentRanges noTags (doc "// /* x */") true None true
  = [ {| start := mkPosition 0 3; stop := mkPosition 0 10 |};
      {| start := mkPosition 0 0; stop := mkPosition 0 10 |} ]
  /\ ~ inDocumentOrder (getCommentRanges noTags (doc "// /* x */") true None true)
  /\ ~ pairwiseDisjoint (getCommentRanges noTags (doc "// /* x */") true None true)
  /\ getCommentRanges noTags (doc blockThenLineText) true None false
     = [ {| start := mkPosition 0 0; stop := mkPosition 0 5 |};
         {| start := mkPosition 0 4; stop := mkPosition 0 8 |} ]
  /\ ~ pairwiseDisjoint (getCommentRanges noTags (doc blockThenLineText) true None false).
Proof.
  assert (H1 : getCommentRanges noTags (doc "// /* x */") true None true
               = [ {| start := mkPosition 0 3; stop := mkPosition 0 10 |};
                   {| start := mkPosition 0 0; stop := mkPosition 0 10 |} ])
    by reflexivity.
  assert (H2 : getCommentRanges noTags (doc blockThenLineText) true None false
               = [ {| start := mkPosition 0 0; stop := mkPosition 0 5 |};
                   {| start := mkPosition 0 4; stop := mkPosition 0 8 |} ])
    by reflexivity.
  rewrite H1, H2. repeat split.
  - intros H. inversion H as [|? ? _ Hf]; subst.
    inversion Hf as [|? ? Hlt _]; subst. discriminate Hlt.
  - intros H. inversion H as [|? ? Hf _]; subst.
    inversion Hf as [|? ? Hov _]; subst. discriminate Hov.
  - intros H. inversion H as [|? ? Hf _]; subst.
    inversion Hf as [|? ? Hov _]; subst. discriminate Hov.
Qed.

(** ** Strings, character by character *)

Lemma length_append s t :
  String.length (s +:+ t) = String.length s + String.length t.
Proof. induction s as [|c s IH]; simpl; [reflexivity|]. now rewrite IH. Qed.

Lemma substring_zero_length s : forall n, String.substring n 0 s = EmptyString.
Proof.
  induction s as [|c s IH]; intros [|n]; simpl; try reflexivity. apply IH.
Qed.

Lemma substring_snoc s c : forall n m,
  n + m = String.length s ->
  String.substring n (m + 1) (s +:+ String c EmptyString)
  = String.substring n m s +:+ String c EmptyString.
Proof.
  induction s as [|x s IH]; intros n m H; simpl in H.
  - assert (n = 0) as -> by lia. assert (m = 0) as -> by lia. reflexivity.
  - destruct n as [|n].
    + destruct m as [|m]; [lia|].
      change (String.substring 0 (S m + 1) (String x s +:+ String c EmptyString))
        with (String x (String.substring 0 (m + 1) (s +:+ String c EmptyString))).
      rewrite IH by lia. reflexivity.
    + change (String.substring (S n) (m + 1) (String x s +:+ String c EmptyString))
        with (String.substring n (m + 1) (s +:+ String c EmptyString)).
      rewrite IH by lia. reflexivity.
Qed.

Lemma append_cons x s t : String x s +:+ t = String x (s +:+ t).
Proof. reflexivity. Qed.

Lemma eqb_snoc u c : forall d e,
  String.eqb (u +:+ String c EmptyString) (d +:+ String e EmptyString)
  = Ascii.eqb c e && String.eqb u d.
Proof.
  induction u as [|x u IH]; intros [|y d] e;
    rewrite ?append_empty_l, ?append_cons.
  - simpl. now destruct (Ascii.eqb c e).
  - simpl. destruct d; rewrite ?append_empty_l, ?append_cons; simpl;
      destruct (Ascii.eqb c y), (Ascii.eqb c e); reflexivity.
  - simpl. destruct u; rewrite ?append_empty_l, ?append_cons; simpl;
      destruct (Ascii.eqb x e), (Ascii.eqb c e); reflexivity.
  - simpl. rewrite IH.
    destruct (Ascii.eqb x y), (Ascii.eqb c e); reflexivity.
Qed.

(** [endsWith], one character at a time. *)
Lemma endsWith_snoc s c d e :
  Js.endsWith (s +:+ String c EmptyString) (d +:+ String e EmptyString)
  = Ascii.eqb c e && Js.endsWith s d.
Proof.
  unfold Js.endsWith. rewrite !length_append. simpl.
  replace (String.length d + 1 <=? String.length s + 1)
    with (String.length d <=? String.length s)
    by (destruct (String.length d <=? String.length s) eqn:E;
        [apply Nat.leb_le in E; symmetry; apply Nat.leb_le; lia
        |apply Nat.leb_gt in E; symmetry; apply Nat.leb_gt; lia]).
  destruct (String.length d <=? String.length s) eqn:E; simpl;
    [|now rewrite andb_false_r].
  apply Nat.leb_le in E.
  replace (String.length s + 1 - (String.length d + 1))
    with (String.length s - String.length d) by lia.
  rewrite substring_snoc by lia. apply eqb_snoc.
Qed.

Lemma endsWith_empty s : Js.endsWith s EmptyString = true.
Proof.
  unfold Js.endsWith. simpl. now rewrite substring_zero_length.
Qed.

Lemma endsWith_snoc1 s c e :
  Js.endsWith (s +:+ String c EmptyString) (String e EmptyString) = Ascii.eqb c e.
Proof.
  change (String e EmptyString) with (EmptyString +:+ String e EmptyString).
  rewrite endsWith_snoc, endsWith_empty. apply andb_true_r.
Qed.

Lemma endsWith_snoc2 s c e1 e2 :
  Js.endsWith (s +:+ String c EmptyString) (String e1 (String e2 EmptyString))
  = Ascii.eqb c e2 && Js.endsWith s (String e1 EmptyString).
Proof.
  change (String e1 (String e2 EmptyString))
    with (String e1 EmptyString +:+ String e2 EmptyString).
  apply endsWith_snoc.
Qed.

Lemma get_in_range s : forall o,
  o < String.length s -> exists c, String.get o s = Some c.
Proof.
  induction s as [|x s IH]; intros o H; simpl in H; [lia|].
  destruct o as [|o]; simpl; [eauto|]. apply IH. lia.
Qed.

Lemma get_out_of_range s : forall o,
  String.length s <= o -> String.get o s = None.
Proof.
  induction s as [|x s IH]; intros o H; simpl in H; [now destruct o|].
  destruct o as [|o]; [lia|]. simpl. apply IH. lia.
Qed.

Lemma charAt_in_range text o :
  o < String.length text -> exists c, Js.charAt text o = String c EmptyString.
Proof.
  intros H. destruct (get_in_range text o H) as [c Hc].
  exists c. unfold Js.charAt. now rewrite Hc.
Qed.

Lemma charAt_out_of_range text o :
  String.length text <= o -> Js.charAt text o = EmptyString.
Proof.
  intros H. unfold Js.charAt. now rewrite get_out_of_range.
Qed.

(** A pattern of two characters, read through [charAt]. *)
Lemma startsWithAt_two text a b : forall i,
  Js.startsWithAt text (String a (String b EmptyString)) i
  = String.eqb (Js.charAt text i) (String a EmptyString)
    && String.eqb (Js.charAt text (i + 1)) (String b EmptyString).
Proof.
  unfold Js.startsWithAt, Js.charAt.
  induction text as [|x text IH]; intros i.
  - destruct i; reflexivity.
  - destruct i as [|i].
    + destruct text as [|y text]; simpl.
      * destruct (Ascii.eqb x a); reflexivity.
      * destruct (Ascii.eqb x a), (Ascii.eqb y b); simpl; try reflexivity.
        now destruct text.
    + specialize (IH i). simpl in *. exact IH.
Qed.

(** The line of a position moves on only past a line feed. *)
Lemma positionFrom_line_S s : forall n ln ch c,
  String.get n s = Some c -> Ascii.eqb c LF = false ->
  line (positionFrom s (S n) ln ch) = line (positionFrom s n ln ch).
Proof.
  induction s as [|x s IH]; intros n ln ch c Hg Hc; [now destruct n|].
  destruct n as [|n].
  - simpl in Hg. injection Hg as ->. simpl. rewrite Hc. now destruct s.
  - simpl in Hg. change (positionFrom (String x s) (S (S n)) ln ch)
      with (if Ascii.eqb x LF then positionFrom s (S n) (S ln) 0
            else positionFrom s (S n) ln (S ch)).
    change (positionFrom (String x s) (S n) ln ch)
      with (if Ascii.eqb x LF then positionFrom s n (S ln) 0
            else positionFrom s n ln (S ch)).
    destruct (Ascii.eqb x LF); eapply IH; eassumption.
Qed.

Lemma lineChanged_after document o c :
  Js.charAt (getText document) o = String c EmptyString ->
  Ascii.eqb c LF = false ->
  lineChanged (positionAt document (S o)) (Some (positionAt document o)) = false.
Proof.
  intros Hc Hlf. unfold lineChanged, positionAt.
  unfold Js.charAt in Hc. destruct (String.get o (getText document)) as [x|] eqn:Hg;
    [|discriminate].
  injection Hc as ->.
  rewrite (positionFrom_line_S _ _ _ _ _ Hg Hlf). now rewrite Nat.eqb_refl.
Qed.

(** ** The two modes on a text with one block comment *)

Lemma scanLoop_app document text isScript a : forall b o st,
  scanLoop document text isScript (a + b) o st
  = scanLoop document text isScript b (o + a)
      (scanLoop document text isScript a o st).
Proof.
  induction a as [|a IH]; intros b o st; simpl.
  - now rewrite Nat.add_0_r.
  - rewrite IH. f_equal. lia.
Qed.

Lemma scanLoop_S document text isScript n o st :
  scanLoop document text isScript (S n) o st
  = scanLoop document text isScript n (S o)
      (scanBody document text isScript o st).
Proof. reflexivity. Qed.

Lemma scanLoop_keeps document text isScript
    (P : nat -> ScanState -> Prop) (ok : nat -> Prop) :
  (forall o st, ok o -> P o st -> P (S o) (scanBody document text isScript o st)) ->
  forall n o st,
    (forall k, o <= k < o + n -> ok k) -> P o st ->
    P (o + n) (scanLoop document text isScript n o st).
Proof.
  intros Hstep. induction n as [|n IH]; intros o st Hok HP; simpl.
  - now rewrite Nat.add_0_r.
  - replace (o + S n) with (S o + n) by lia. apply IH.
    + intros k Hk. apply Hok. lia.
    + apply Hstep; [apply Hok; lia|exact HP].
Qed.

Section LoneBlockComment.

Variables (document : TextDocument) (p q : nat).
Let text := getText document.
Hypothesis Hpq : p + 3 <= q.
Hypothesis Hq : q < String.length text.
Hypothesis Hcp : Js.charAt text p = "/".
Hypothesis Hcp1 : Js.charAt text (p + 1) = "*".
Hypothesis Hcq1 : Js.charAt text (q - 1) = "*".
Hypothesis Hcq : Js.charAt text q = "/".
Hypothesis Hns :
  forall i, i <> p -> i <> q -> String.eqb (Js.charAt text i) "/" = false.
Hypothesis Hstr : inString (stringContextAt text 0 p) = false.

(** An offset of the text away from the two slashes holds a character
    that is no slash. *)
Lemma no_slash_at o :
  o < String.length text -> o <> p -> o <> q ->
  exists ch, Js.charAt text o = String ch EmptyString
             /\ forall e, String e EmptyString = "/" -> Ascii.eqb ch e = false.
Proof.
  intros Ho Hp Hq'. destruct (charAt_in_range text o Ho) as [ch Hch].
  exists ch. split; [exact Hch|]. intros e He.
  specialize (Hns o Hp Hq'). rewrite Hch, <- He in Hns. simpl in Hns.
  now destruct (Ascii.eqb ch e).
Qed.

Lemma step_before o st :
  o < p -> beforeComment text o st ->
  beforeComment text (S o) (scanBody document text true o st).
Proof.
  intros Ho (Hr & Hic & Hls & Hsc).
  destruct (no_slash_at o) as (ch & Hch & Hne'); [lia|lia|lia|].
  pose proof (Hne' _ eq_refl) as Hne.
  unfold beforeComment.
  rewrite stringContextAt_S by lia. rewrite <- Hsc. unfold stringStep.
  unfold scanBody. rewrite Hch, Hic. cbv zeta.
  set (base := if lineChanged _ _ then EmptyString else lineText st).
  assert (Hbase : Js.endsWith base "/" = false)
    by (unfold base; destruct (lineChanged _ _); [reflexivity|exact Hls]).
  destruct (inString (stringContext st)) eqn:Hin.
  { simpl. rewrite endsWith_snoc1. repeat split; assumption. }
  destruct (isStringDelimiter (String ch EmptyString)).
  { simpl. rewrite endsWith_snoc1. repeat split; assumption. }
  change (scriptLineComment cfmlCommentRules) with "//".
  change (fst (scriptBlockComment cfmlCommentRules)) with "/*".
  rewrite !endsWith_snoc2, Hbase, Hne, !andb_false_r. simpl.
  rewrite endsWith_snoc1. repeat split; assumption.
Qed.

Lemma step_slash st :
  beforeComment text p st ->
  slashRead document p (scanBody document text true p st).
Proof.
  intros (Hr & Hic & Hls & Hsc). unfold slashRead.
  assert (Hin : inString (stringContext st) = false) by (now rewrite Hsc).
  unfold scanBody. rewrite Hcp, Hic, Hin. cbv zeta.
  set (base := if lineChanged _ _ then EmptyString else lineText st).
  assert (Hbase : Js.endsWith base "/" = false)
    by (unfold base; destruct (lineChanged _ _); [reflexivity|exact Hls]).
  change (isStringDelimiter "/") with false. cbv iota.
  change (scriptLineComment cfmlCommentRules) with "//".
  change (fst (scriptBlockComment cfmlCommentRules)) with "/*".
  rewrite !endsWith_snoc2, Hbase. simpl.
  rewrite endsWith_snoc1. repeat split; assumption.
Qed.

Lemma step_star st :
  slashRead document p st ->
  insideComment (positionAt document p)
    (scanBody document text true (S p) st).
Proof.
  intros (Hr & Hic & Hin & Hls & Hprev). unfold insideComment.
  unfold scanBody. replace (S p) with (p + 1) by lia.
  rewrite Hcp1, Hic, Hin, Hprev. replace (p + 1) with (S p) by lia.
  rewrite (lineChanged_after document p _ Hcp eq_refl).
  cbv zeta.
  change (isStringDelimiter "*") with false. cbv iota.
  change (scriptLineComment cfmlCommentRules) with "//".
  change (fst (scriptBlockComment cfmlCommentRules)) with "/*".
  rewrite !endsWith_snoc2, Hls. simpl. split; [exact Hr|reflexivity].
Qed.

Lemma step_inside position o st :
  o < String.length text -> o <> p -> o <> q ->
  insideComment position st ->
  insideComment position (scanBody document text true o st).
Proof.
  intros Ho Hp Hq' (Hr & Hcc).
  destruct (no_slash_at o Ho Hp Hq') as (ch & Hch & Hne').
  pose proof (Hne' _ eq_refl) as Hne.
  unfold insideComment, scanBody. rewrite Hch, Hcc. cbv zeta. simpl.
  rewrite endsWith_snoc1, Hne. simpl. split; [exact Hr|reflexivity].
Qed.

Lemma step_close position st :
  insideComment position st ->
  afterComment (rangeOf (Some position) (Some (positionAt document (q + 1))))
    (scanBody document text true q st).
Proof.
  intros (Hr & Hcc).
  unfold afterComment, scanBody. rewrite Hcq, Hcc, Hr. cbv zeta. simpl.
  rewrite endsWith_snoc1. simpl. split; [reflexivity|discriminate].
Qed.

Lemma step_after r o st :
  o < String.length text -> o <> p -> o <> q ->
  afterComment r st ->
  afterComment r (scanBody document text true o st).
Proof.
  intros Ho Hp Hq' (Hr & Hcc).
  destruct (no_slash_at o Ho Hp Hq') as (ch & Hch & Hne').
  pose proof (Hne' _ eq_refl) as Hne.
  unfold afterComment, scanBody. rewrite Hch. cbv zeta.
  destruct (inComment (commentContext st)) eqn:Hic.
  - destruct (Hcc eq_refl) as [Hty Hac]. rewrite Hty, Hac. simpl.
    rewrite endsWith_snoc1, Hne. simpl. split; [exact Hr|now rewrite Hic].
  - destruct (inString (stringContext st)).
    { simpl. split; [exact Hr|now rewrite Hic]. }
    destruct (isStringDelimiter (String ch EmptyString)).
    { simpl. split; [exact Hr|now rewrite Hic]. }
    change (scriptLineComment cfmlCommentRules) with "//".
    change (fst (scriptBlockComment cfmlCommentRules)) with "/*".
    rewrite !endsWith_snoc2, Hne. simpl.
    match goal with |- context [if ?b then _ else _] => destruct b end; simpl.
    + split; [exact Hr|]. intros _. split; reflexivity.
    + split; [exact Hr|now rewrite Hic].
Qed.

(** The accurate scan returns the one range of the comment. *)
Lemma scannedRanges_lone :
  scannedRanges document true None
  = [ {| start := positionAt document p; stop := positionAt document (q + 1) |} ].
Proof.
  unfold scannedRanges, scanBounds. rewrite Nat.sub_0_r. fold text.
  replace (String.length text)
    with (p + S (S ((q - (p + 2)) + S (String.length text - S q))))
    by lia.
  rewrite scanLoop_app, !scanLoop_S, scanLoop_app, scanLoop_S.
  replace (0 + p) with p by lia.
  replace (S (S p) + (q - (p + 2))) with q by lia.
  assert (H1 : beforeComment text p (scanLoop document text true p 0 scanState0)).
  { apply (scanLoop_keeps document text true (beforeComment text) (fun o => o < p)
             step_before p 0 scanState0).
    - intros k Hk. lia.
    - repeat split. }
  apply step_slash in H1. apply step_star in H1.
  assert (H2 : insideComment (positionAt document p)
                 (scanLoop document text true (q - (p + 2)) (S (S p))
                    (scanBody document text true (S p)
                       (scanBody document text true p
                          (scanLoop document text true p 0 scanState0))))).
  { apply (scanLoop_keeps document text true
             (fun _ => insideComment (positionAt document p))
             (fun o => o < String.length text /\ o <> p /\ o <> q)).
    - intros o' st' (Ha & Hb & Hc). now apply step_inside.
    - intros k Hk. lia.
    - exact H1. }
  apply step_close in H2.
  match goal with
  | |- context [scanLoop document text true ?n (S q) ?st] =>
      assert (H3 : afterComment
                     (rangeOf (Some (positionAt document p))
                        (Some (positionAt document (q + 1))))
                     (scanLoop document text true n (S q) st))
  end.
  { apply (scanLoop_keeps document text true
             (fun _ => afterComment
                         (rangeOf (Some (positionAt document p))
                            (Some (positionAt document (q + 1)))))
             (fun o => o < String.length text /\ o <> p /\ o <> q)).
    - intros o' st' (Ha & Hb & Hc). now apply step_after.
    - intros k Hk. lia.
    - exact H2. }
  destruct H3 as [H3 _]. rewrite H3. f_equal.
  unfold rangeOf. simpl. apply mkRange_ordered, positionAt_mono. lia.
Qed.

End LoneBlockComment.

Lemma sweep_none (matchAt : nat -> option nat) n : forall from lastIndex,
  (forall i, from <= i < from + n -> i < lastIndex \/ matchAt i = None) ->
  sweep matchAt n from lastIndex = [].
Proof.
  induction n as [|n IH]; intros from lastIndex H; simpl; [reflexivity|].
  destruct (from <? lastIndex) eqn:E.
  - apply IH. intros i Hi. apply H. lia.
  - apply Nat.ltb_ge in E. destruct (H from) as [Hlt|Hn]; [lia|lia|].
    rewrite Hn. apply IH. intros i Hi. apply H. lia.
Qed.

Lemma sweep_skip (matchAt : nat -> option nat) a : forall b from lastIndex,
  (forall i, from <= i < from + a -> matchAt i = None) ->
  sweep matchAt (a + b) from lastIndex = sweep matchAt b (from + a) lastIndex.
Proof.
  induction a as [|a IH]; intros b from lastIndex H; simpl.
  - now rewrite Nat.add_0_r.
  - rewrite (H from) by lia.
    replace (from + S a) with (S from + a) by lia.
    destruct (from <? lastIndex); apply IH; intros i Hi; apply H; lia.
Qed.

Lemma indexOfFrom_first s pat k n : forall i,
  (forall j, i <= j < k -> Js.startsWithAt s pat j = false) ->
  Js.startsWithAt s pat k = true ->
  i <= k < i + n ->
  indexOfFrom s pat n i = Some k.
Proof.
  induction n as [|n IH]; intros i Hnone Hk Hik; [lia|]. simpl.
  destruct (Nat.eq_dec i k) as [->|Hne].
  - now rewrite Hk.
  - rewrite Hnone by lia. apply IH; [|exact Hk|lia].
    intros j Hj. apply Hnone. lia.
Qed.

Section LoneBlockCommentFast.

Variables (text : string) (p q : nat).
Hypothesis Hpq : p + 3 <= q.
Hypothesis Hq : q < String.length text.
Hypothesis Hcp : Js.charAt text p = "/".
Hypothesis Hcp1 : Js.charAt text (p + 1) = "*".
Hypothesis Hcq1 : Js.charAt text (q - 1) = "*".
Hypothesis Hcq : Js.charAt text q = "/".
Hypothesis Hns :
  forall i, i <> p -> i <> q -> String.eqb (Js.charAt text i) "/" = false.

Lemma block_pattern_at_p : cfscriptBlockCommentPattern text p = Some (q + 1).
Proof.
  unfold cfscriptBlockCommentPattern, lazyBlockPattern.
  rewrite startsWithAt_two, Hcp, Hcp1. simpl.
  unfold indexOf.
  rewrite (indexOfFrom_first text "*/" (q - 1)).
  - f_equal. simpl. lia.
  - intros j Hj. rewrite startsWithAt_two, (Hns (j + 1)) by lia.
    apply andb_false_r.
  - rewrite startsWithAt_two. replace (q - 1 + 1) with q by lia.
    now rewrite Hcq1, Hcq.
  - simpl. lia.
Qed.

Lemma block_pattern_elsewhere i :
  i <> p -> i <> q -> cfscriptBlockCommentPattern text i = None.
Proof.
  intros Hp Hq'. unfold cfscriptBlockCommentPattern, lazyBlockPattern.
  now rewrite startsWithAt_two, (Hns i Hp Hq').
Qed.

Lemma line_pattern_nowhere i : cfscriptLineCommentPattern text i = None.
Proof.
  unfold cfscriptLineCommentPattern. rewrite startsWithAt_two.
  destruct (Nat.eq_dec i p) as [->|Hp].
  - now rewrite Hcp1, andb_false_r.
  - destruct (Nat.eq_dec i q) as [->|Hq'].
    + now rewrite (Hns (q + 1)), andb_false_r by lia.
    + now rewrite (Hns i Hp Hq').
Qed.

Lemma execAll_block_lone :
  execAll cfscriptBlockCommentPattern text = [(p, q + 1)].
Proof.
  unfold execAll.
  replace (String.length text) with (p + S (String.length text - S p)) by lia.
  rewrite sweep_skip by (intros i Hi; apply block_pattern_elsewhere; lia).
  simpl. rewrite block_pattern_at_p. f_equal.
  apply sweep_none. intros i Hi.
  destruct (Nat.lt_ge_cases i (q + 1)) as [Hlt|Hge]; [now left|].
  right. apply block_pattern_elsewhere; lia.
Qed.

Lemma execAll_line_lone : execAll cfscriptLineCommentPattern text = [].
Proof.
  unfold execAll. apply sweep_none. intros i _. right. apply line_pattern_nowhere.
Qed.

End LoneBlockCommentFast.

(** What [loneBlockComment] says of the characters. *)
Lemma loneBlockComment_chars text p q :
  loneBlockComment text p q = true ->
  p + 3 <= q /\ q < String.length text
  /\ Js.charAt text p = "/" /\ Js.charAt text (p + 1) = "*"
  /\ Js.charAt text (q - 1) = "*" /\ Js.charAt text q = "/"
  /\ (forall i, i <> p -> i <> q -> String.eqb (Js.charAt text i) "/" = false).
Proof.
  unfold loneBlockComment. rewrite !andb_true_iff.
  intros ((((((H1 & H2) & H3) & H4) & H5) & H6) & H7).
  apply Nat.leb_le in H1. apply Nat.ltb_lt in H2.
  apply String.eqb_eq in H3, H4, H5, H6.
  repeat (split; [assumption|]).
  intros i Hp Hq. destruct (Nat.lt_ge_cases i (String.length text)) as [Hlt|Hge].
  - rewrite forallb_forall in H7. specialize (H7 i).
    rewrite in_seq in H7. specialize (H7 ltac:(lia)).
    apply Nat.eqb_neq in Hp, Hq. rewrite Hp, Hq in H7. simpl in H7.
    now apply negb_true_iff in H7.
  - now rewrite charAt_out_of_range.
Qed.

(** On a script text whose only slashes are those of one block comment
    that begins outside a string, both modes return the range of that
    comment. *)
Lemma commentRanges_lone_block_comment execTagPattern document p q fast :
  loneBlockComment (getText document) p q = true ->
  inString (stringContextAt (getText document) 0 p) = false ->
  getCommentRanges execTagPattern document true None fast
  = [ {| start := positionAt document p; stop := positionAt document (q + 1) |} ].
Proof.
  intros Hl Hs.
  destruct (loneBlockComment_chars _ _ _ Hl) as (H1 & H2 & H3 & H4 & H5 & H6 & H7).
  unfold getCommentRanges. destruct fast.
  - unfold getCommentRangesByRegex, scriptCommentRangesByRegex, regexBounds,
      matchRanges.
    rewrite (execAll_block_lone _ p q), (execAll_line_lone _ p q) by assumption.
    simpl. f_equal. replace (p + (q + 1 - p)) with (q + 1) by lia.
    apply mkRange_ordered, positionAt_mono. lia.
  - unfold getCommentRangesIterated. now apply scannedRanges_lone.
Qed.

(** ** Where the accurate scan opens its comments *)

Lemma scanLoop_snoc document text isScript n : forall o st,
  scanLoop document text isScript (S n) o st
  = scanBody document text isScript (o + n)
      (scanLoop document text isScript n o st).
Proof.
  induction n as [|n IH]; intros o st.
  - simpl. now rewrite Nat.add_0_r.
  - rewrite scanLoop_S, IH. simpl. do 2 f_equal. lia.
Qed.

Lemma scanStateAt_bounds document docRange from upto o :
  scanBounds document docRange = (from, upto) ->
  scanStateAt document true docRange o
  = scanLoop document (getText document) true (o - from) from scanState0.
Proof. intros H. unfold scanStateAt. now rewrite H. Qed.

(** A comment opens on a delimiter of two characters, so not at the
    first offset of a scan. *)
Lemma open_after_first document from o st d :
  scriptScanInv document from o st ->
  String.length d = 2 ->
  Js.endsWith
    ((if lineChanged (positionAt document o) (previousPosition st)
      then EmptyString else lineText st)
     +:+ Js.charAt (getText document) o) d = true ->
  previousPosition st = Some (positionAt document (o - 1)) /\ from < o.
Proof.
  intros ((Hfo & _) & Hprev & _) Hd He. destruct (o =? from) eqn:E.
  - destruct Hprev as [Hp Hl]. rewrite Hp, Hl in He. simpl in He.
    rewrite append_empty_l, endsWith_short in He; [discriminate|].
    pose proof (length_charAt (getText document) o). lia.
  - apply Nat.eqb_neq in E. split; [exact Hprev|lia].
Qed.

Lemma scanBody_openingsInv document docRange from upto n :
  scanBounds document docRange = (from, upto) ->
  from + n < String.length (getText document) ->
  openingsInv document docRange
    (scanLoop document (getText document) true n from scanState0) ->
  openingsInv document docRange
    (scanLoop document (getText document) true (S n) from scanState0).
Proof.
  intros Hb Hn [Hranges Hopen].
  pose proof (scanLoop_scriptScanInv document from n from scanState0) as Hinv.
  assert (Hinv0 : scriptScanInv document from from scanState0).
  { split; [lia|]. rewrite Nat.eqb_refl. split; [now split|].
    split; [constructor|]. simpl. constructor. }
  specialize (Hinv ltac:(lia) Hinv0). clear Hinv0.
  assert (Hhere : scanStateAt document true docRange (from + n)
                  = scanLoop document (getText document) true n from scanState0).
  { rewrite (scanStateAt_bounds _ _ _ _ _ Hb). f_equal. lia. }
  assert (Hthere : scanStateAt document true docRange (S (from + n))
                   = scanLoop document (getText document) true (S n) from scanState0).
  { rewrite (scanStateAt_bounds _ _ _ _ _ Hb). f_equal. lia. }
  rewrite scanLoop_snoc in *.
  set (st := scanLoop document (getText document) true n from scanState0) in *.
  set (o := from + n) in *.
  pose proof Hinv as ((Hfo & Hol) & Hprev & Hinc & Hcc).
  assert (Hpush : forall a b r0,
             a <= b ->
             Some (positionAt document a) = Some (start r0) ->
             openedOutsideString document docRange r0 ->
             openedOutsideString document docRange
               (rangeOf (Some (positionAt document a)) (Some (positionAt document b)))).
  { intros a b r0 Hab [= Hs] (oo & H1 & H2).
    exists oo. split; [|exact H2].
    unfold rangeOf. simpl. rewrite mkRange_ordered by now apply positionAt_mono.
    simpl. now rewrite Hs. }
  assert (Hopening :
            forall cc,
              inString (stringContext st) = false ->
              inComment (commentContext st) = false ->
              inComment (commentContext (scanBody document (getText document) true o st))
              = true ->
              commentStart cc = previousPosition st ->
              previousPosition st = Some (positionAt document (o - 1)) ->
              exists r, commentStart cc = Some (start r)
                        /\ openedOutsideString document docRange r).
  { intros cc Hs Hc Hc' Hst Hp.
    exists {| start := positionAt document (o - 1); stop := positionAt document o |}.
    split; [now rewrite Hst, Hp|].
    exists o. simpl. rewrite Hhere, Hthere. repeat split; assumption. }
  unfold openingsInv.
  remember (scanBody document (getText document) true o st) as st' eqn:Hst'.
  pose proof Hst' as Hdef. unfold scanBody in Hdef.
  destruct (inComment (commentContext st)) eqn:Hic.
  - destruct Hcc as (a & Hstart & Hfa & Hao & Hbelow).
    destruct (Hopen eq_refl) as (r0 & Hr0 & Hout). rewrite Hstart in Hr0.
    assert (Hne : (o =? from) = false) by (apply Nat.eqb_neq; lia).
    rewrite Hne in Hprev. rewrite Hprev, Hstart in Hdef.
    match type of Hdef with context [if ?b then _ else _] => destruct b end.
    { rewrite Hdef. simpl. split; [|discriminate].
      apply Forall_app. split; [exact Hranges|].
      constructor; [|constructor]. eapply Hpush; [|exact Hr0|exact Hout]. lia. }
    match type of Hdef with context [if ?b then _ else _] => destruct b end.
    { rewrite Hdef. simpl. split; [|discriminate].
      apply Forall_app. split; [exact Hranges|].
      constructor; [|constructor]. eapply Hpush; [|exact Hr0|exact Hout]. lia. }
    rewrite Hdef. simpl. split; [exact Hranges|]. intros _.
    exists r0. split; [now rewrite Hstart|exact Hout].
  - destruct (inString (stringContext st)) eqn:Hin.
    { rewrite Hdef. simpl. split; [exact Hranges|]. now rewrite Hic. }
    destruct (isStringDelimiter _).
    { rewrite Hdef. simpl. split; [exact Hranges|]. now rewrite Hic. }
    destruct (Js.endsWith _ (scriptLineComment cfmlCommentRules)) eqn:E1.
    { destruct (open_after_first document from o st
                  (scriptLineComment cfmlCommentRules) Hinv eq_refl E1) as [Hp _].
      split; [now rewrite Hdef|]. intros Hc'.
      apply Hopening; try reflexivity; try assumption.
      now rewrite Hdef. }
    destruct (Js.endsWith _ (fst (scriptBlockComment cfmlCommentRules))) eqn:E2.
    { destruct (open_after_first document from o st
                  (fst (scriptBlockComment cfmlCommentRules)) Hinv eq_refl E2)
        as [Hp _].
      split; [now rewrite Hdef|]. intros Hc'.
      apply Hopening; try reflexivity; try assumption.
      now rewrite Hdef. }
    rewrite Hdef. simpl. split; [exact Hranges|]. now rewrite Hic.
Qed.

Lemma scannedRanges_opened_outside document docRange :
  Forall (openedOutsideString document docRange)
    (scannedRanges document true docRange).
Proof.
  unfold scannedRanges.
  destruct (scanBounds document docRange) as [from upto] eqn:Hb.
  assert (Hup : upto <= String.length (getText document)).
  { unfold scanBounds in Hb. destruct docRange as [range|].
    - injection Hb as <- <-. apply offsetAt_le.
    - injection Hb as <- <-. lia. }
  assert (H : forall n, from + n <= String.length (getText document) ->
                        openingsInv document docRange
                          (scanLoop document (getText document) true n from scanState0)).
  { induction n as [|n IH]; intros Hn.
    - split; [constructor|discriminate].
    - eapply scanBody_openingsInv; [exact Hb|lia|apply IH; lia]. }
  destruct (Nat.le_gt_cases from upto) as [Hle|Hgt].
  - apply H. lia.
  - replace (upto - from) with 0 by lia. constructor.
Qed.

(** ** What the sweeps of fast mode cover *)

Lemma sweep_covers (matchAt : nat -> option nat) :
  (forall i e, matchAt i = Some e -> i < e) ->
  forall n from lastIndex i e,
    from <= i < from + n -> lastIndex <= i -> matchAt i = Some e ->
    covered (sweep matchAt n from lastIndex) i.
Proof.
  intros Hf. induction n as [|n IH]; intros from lastIndex i e Hi Hl Hm; [lia|].
  simpl. destruct (from <? lastIndex) eqn:E.
  - apply Nat.ltb_lt in E. apply (IH (S from) lastIndex i e); [lia|lia|exact Hm].
  - apply Nat.ltb_ge in E. destruct (matchAt from) as [e'|] eqn:Hm'.
    + destruct (Nat.lt_ge_cases i e') as [Hlt|Hge].
      * exists (from, e'). split; [now left|simpl; lia].
      * apply Hf in Hm' as Hfe.
        destruct (IH (S from) e' i e) as (m & Hin & Hc); [lia|lia|exact Hm|].
        exists m. split; [now right|exact Hc].
    + assert (i <> from) by (intros ->; congruence).
      apply (IH (S from) lastIndex i e); [lia|lia|exact Hm].
Qed.

Lemma startsWithAt_in_range s pat i :
  Js.startsWithAt s pat i = true -> i + String.length pat <= String.length s.
Proof.
  unfold Js.startsWithAt. intros H. apply andb_prop in H as [_ H].
  now apply Nat.leb_le in H.
Qed.

Lemma line_sweep_covers text i e :
  cfscriptLineCommentPattern text i = Some e ->
  covered (execAll cfscriptLineCommentPattern text) i.
Proof.
  intros Hm. unfold execAll.
  apply (sweep_covers (cfscriptLineCommentPattern text)) with (e := e);
    [|split; [lia|]|lia|exact Hm].
  - intros j e' H. unfold cfscriptLineCommentPattern in H.
    destruct (Js.startsWithAt text "//" j); [|discriminate].
    injection H as <-.
    pose proof (restOfLine_ge text (String.length text - (j + 2)) (j + 2)). lia.
  - unfold cfscriptLineCommentPattern in Hm.
    destruct (Js.startsWithAt text "//" i) eqn:E; [|discriminate].
    apply startsWithAt_in_range in E. simpl in E. lia.
Qed.

Lemma block_sweep_covers text i e :
  cfscriptBlockCommentPattern text i = Some e ->
  covered (execAll cfscriptBlockCommentPattern text) i.
Proof.
  intros Hm. unfold execAll.
  apply (sweep_covers (cfscriptBlockCommentPattern text)) with (e := e);
    [|split; [lia|]|lia|exact Hm].
  - intros j e' H. unfold cfscriptBlockCommentPattern, lazyBlockPattern, indexOf in H.
    destruct (Js.startsWithAt text "/*" j); [|discriminate].
    destruct (indexOfFrom _ _ _ _) as [k|] eqn:Hk; [|discriminate].
    apply indexOfFrom_ge in Hk. injection H as <-. simpl in *. lia.
  - unfold cfscriptBlockCommentPattern, lazyBlockPattern in Hm.
    destruct (Js.startsWithAt text "/*" i) eqn:E; [|discriminate].
    apply startsWithAt_in_range in E. simpl in E. lia.
Qed.

(** ** The two modes on a script block comment *)

(** C3: the script text [/* a/b */] holds no string, and its one block
    comment is well formed; fast mode returns the range 0..9 of the
    comment, and accurate mode the range 0..5 that ends after the first
    slash of the body, so the two modes do not return the same ranges.
    The tag comment [<!--- a->b --->], whose scan keeps its own pair of
    delimiters, gets the range 0..15 in both modes.  Of strings the two
    modes do what is said of them: every range the accurate scan of a
    script text returns starts where the scan opened a comment with no
    string active, and fast mode covers every offset at which one of its
    script patterns matches, string or no string. *)
Theorem commentRanges_modes_differ_on_block_with_slash :
  (forall execTagPattern,
      getCommentRanges execTagPattern (doc "/* a/b */") true None true
      = [ {| start := mkPosition 0 0; stop := mkPosition 0 9 |} ]
      /\ getCommentRanges execTagPattern (doc "/* a/b */") true None false
         = [ {| start := mkPosition 0 0; stop := mkPosition 0 5 |} ])
  /\ Forall (fun o => inString (stringContextAt "/* a/b */" 0 o) = false)
       (seq 0 10)
  /\ (getCommentRanges noTags (doc "<!--- a->b --->") false None true
      = [ {| start := mkPosition 0 0; stop := mkPosition 0 15 |} ]
      /\ getCommentRanges noTags (doc "<!--- a->b --->") false None false
         = [ {| start := mkPosition 0 0; stop := mkPosition 0 15 |} ])
  /\ (forall execTagPattern document docRange,
         Forall (openedOutsideString document docRange)
           (getCommentRanges execTagPattern document true docRange false))
  /\ (forall text i e,
         cfscriptLineCommentPattern text i = Some e ->
         covered (execAll cfscriptLineCommentPattern text) i)
  /\ (forall text i e,
         cfscriptBlockCommentPattern text i = Some e ->
         covered (execAll cfscriptBlockCommentPattern text) i).
Proof.
  split; [|split; [|split; [|split; [|split]]]].
  - intros execTagPattern. split; vm_compute; reflexivity.
  - repeat constructor.
  - split; vm_compute; reflexivity.
  - intros exec document docRange. apply scannedRanges_opened_outside.
  - apply line_sweep_covers.
  - apply block_sweep_covers.
Qed.

(** In ['/*' /* c */] the first comment opening lies inside the string:
    the pattern of fast mode matches there and its sweep covers the
    offset, the range of fast mode starting at it, while the range of
    accurate mode starts at the opening after the string; and the [//]
    inside the string of ['//'] lies in a match of the line comment
    sweep. *)
Lemma commentRanges_modes_differ_on_block_with_slash_witness :
  inString (stringContextAt "'/*' /* c */" 0 1) = true
  /\ cfscriptBlockCommentPattern "'/*' /* c */" 1 = Some 12
  /\ covered (execAll cfscriptBlockCommentPattern "'/*' /* c */") 1
  /\ getCommentRanges noTags (doc "'/*' /* c */") true None true
     = [ {| start := mkPosition 0 1; stop := mkPosition 0 12 |} ]
  /\ getCommentRanges noTags (doc "'/*' /* c */") true None false
     = [ {| start := mkPosition 0 5; stop := mkPosition 0 12 |} ]
  /\ inString (stringContextAt "'//'" 0 1) = true
  /\ covered (execAll cfscriptLineCommentPattern "'//'") 1.
Proof.
  assert (Hblock : cfscriptBlockCommentPattern "'/*' /* c */" 1 = Some 12)
    by (vm_compute; reflexivity).
  assert (Hline : cfscriptLineCommentPattern "'//'" 1 = Some 4)
    by (vm_compute; reflexivity).
  split; [vm_compute; reflexivity|]. split; [exact Hblock|].
  split.
  { exact (proj2 (proj2 (proj2 (proj2 (proj2
             commentRanges_modes_differ_on_block_with_slash))))
             "'/*' /* c */" 1 12 Hblock). }
  split; [vm_compute; reflexivity|]. split; [vm_compute; reflexivity|].
  split; [vm_compute; reflexivity|].
  exact (proj1 (proj2 (proj2 (proj2 (proj2
           commentRanges_modes_differ_on_block_with_slash))))
           "'//'" 1 4 Hline).
Defined.

(** * Further properties of the code *)

(** ** getClosingPosition and getNextCharacterPosition *)

Lemma find_none_all {A : Type} (f : A -> bool) (l : list A) :
  (forall x, In x l -> f x = false) -> List.find f l = None.
Proof.
  induction l as [|x l IH]; intros H; simpl; [reflexivity|].
  rewrite (H x) by now left. apply IH. intros y Hy. apply H. now right.
Qed.

(** X1: the offset [getClosingPosition] resolves is the initial offset,
    or an offset after it and within the text that directly follows an
    occurrence of the closing character. *)
Theorem getClosingOffset_follows_closing_char :
  forall ctx initialOffset closingChar,
    let offset := getClosingOffset ctx initialOffset closingChar in
    offset = initialOffset
    \/ (initialOffset < offset <= String.length (sanitizedDocumentText ctx)
        /\ Js.charAt (sanitizedDocumentText ctx) (offset - 1) = closingChar).
Proof.
  intros ctx init cl. cbv zeta. rewrite getClosingOffset_spec.
  unfold closingPairOffset.
  destruct (List.find _ _) as [o|] eqn:Hf; [|now left]. right.
  apply List.find_some in Hf as [Hin Hm]. apply in_seq in Hin.
  unfold isMatchingClose, isClosing in Hm.
  apply andb_prop in Hm as [Hm _]. apply andb_prop in Hm as [_ Hc].
  apply andb_prop in Hc as [Hc _]. apply String.eqb_eq in Hc.
  replace (o + 1 - 1) with o by lia. split; [lia|exact Hc].
Qed.

(** X2: asked for a closing character that is its own opening character
    (a quote or [#]) or that opens a pair, [getClosingPosition] finds no
    close and gives back the initial offset. *)
Theorem getClosingOffset_self_paired :
  forall ctx initialOffset closingChar,
    getOpeningChar closingChar = closingChar ->
    getClosingOffset ctx initialOffset closingChar = initialOffset.
Proof.
  intros ctx init cl Hop. rewrite getClosingOffset_spec.
  unfold closingPairOffset. rewrite Hop.
  rewrite find_none_all; [reflexivity|].
  intros o _. unfold isMatchingClose, isClosing.
  destruct (String.eqb (Js.charAt (sanitizedDocumentText ctx) o) cl); simpl;
    now rewrite ?andb_false_r.
Qed.

Lemma getClosingOffset_self_paired_witness :
  getClosingOffset (context "a 'b' c' d") 3 SINGLE_QUOTE = 3
  /\ getClosingOffset (context "a#b#c") 2 "#" = 2
  /\ getClosingOffset (context "f(a)(b)") 2 "(" = 2.
Proof.
  split; [|split].
  - apply (getClosingOffset_self_paired (context "a 'b' c' d") 3 SINGLE_QUOTE).
    reflexivity.
  - apply (getClosingOffset_self_paired (context "a#b#c") 2 "#"). reflexivity.
  - apply (getClosingOffset_self_paired (context "f(a)(b)") 2 "("). reflexivity.
Defined.

(** X3: with [includeChar] off, [getNextCharacterPosition] resolves an
    offset that is [endOffset] or lies before it, at or after
    [startOffset], on one of the searched characters; with [includeChar]
    on it resolves the offset after that one, and [endOffset] all the
    same when nothing was found. *)
Theorem getNextCharacterOffset_includeChar :
  forall ctx startOffset endOffset searchChar,
    let found := getNextCharacterOffset ctx startOffset endOffset searchChar false in
    getNextCharacterOffset ctx startOffset endOffset searchChar true
    = (if found <? endOffset then found + 1 else endOffset)
    /\ (found = endOffset
        \/ (startOffset <= found < endOffset
            /\ Js.includes searchChar
                 (Js.charAt (sanitizedDocumentText ctx) found) = true)).
Proof.
  intros ctx s e sc. cbv zeta. rewrite !getNextCharacterOffset_spec.
  unfold nextUnnestedOffset.
  destruct (List.find _ _) as [o|] eqn:Hf.
  - apply List.find_some in Hf as [Hin Hm]. apply in_seq in Hin.
    assert (Ho : (o <? e) = true) by (apply Nat.ltb_lt; lia).
    rewrite Ho. split; [reflexivity|]. right. split; [lia|].
    unfold isUnnestedTarget in Hm.
    apply andb_prop in Hm as [Hm _]. now apply andb_prop in Hm as [_ Hm].
  - rewrite Nat.ltb_irrefl. split; [reflexivity|now left].
Qed.

(** X4: when every searched character is a string delimiter,
    [getNextCharacterPosition] finds none of them and resolves
    [endOffset]: a quote opens or closes a string before it is looked at
    as a target. *)
Theorem getNextCharacterOffset_quote_never_found :
  forall ctx startOffset endOffset searchChar includeChar,
    forallb isStringDelimiter searchChar = true ->
    getNextCharacterOffset ctx startOffset endOffset searchChar includeChar
    = endOffset.
Proof.
  intros ctx s e sc inc Hall. rewrite getNextCharacterOffset_spec.
  unfold nextUnnestedOffset. rewrite find_none_all; [reflexivity|].
  intros o _. unfold isUnnestedTarget, isCodeAt.
  destruct (Js.includes sc (Js.charAt (sanitizedDocumentText ctx) o)) eqn:Hi;
    [|now rewrite andb_false_r].
  unfold Js.includes in Hi. apply existsb_exists in Hi as (x & Hx & He).
  apply String.eqb_eq in He. subst x.
  rewrite forallb_forall in Hall. rewrite (Hall _ Hx). simpl.
  now rewrite andb_false_r.
Qed.

Lemma getNextCharacterOffset_quote_never_found_witness :
  getNextCharacterOffset (context "a = 'b', c") 0 10 [SINGLE_QUOTE] true = 10.
Proof.
  apply (getNextCharacterOffset_quote_never_found
           (context "a = 'b', c") 0 10 [SINGLE_QUOTE] true).
  reflexivity.
Defined.

(** ** invertRanges *)

Lemma invertRanges_fold_tiled ranges : forall p inverted,
  tiledFrom p ranges = true ->
  fold_left invertStep ranges (p, inverted) = (lastStop p ranges, inverted).
Proof.
  induction ranges as [|r rest IH]; intros p inverted H; simpl; [reflexivity|].
  simpl in H. apply andb_prop in H as [Heq Hrest].
  rewrite Heq. now apply IH.
Qed.

(** X5: when the ranges tile the document from its start on, each
    starting where the one before it stops, [invertRanges] returns the one
    range between where the last of them stops and the end of the
    document, and nothing when they reach the end; so the inverse of no
    range is the whole document, and the inverse of that is empty
    again. *)
Theorem invertRanges_tiled :
  forall document,
    (forall ranges,
        tiledFrom (mkPosition 0 0) ranges = true ->
        invertRanges document ranges
        = (if isEqual (lastStop (mkPosition 0 0) ranges) (documentEnd document)
           then []
           else [ mkRange (lastStop (mkPosition 0 0) ranges)
                    (documentEnd document) ]))
    /\ invertRanges document []
       = (if isEqual (mkPosition 0 0) (documentEnd document) then []
          else [ {| start := mkPosition 0 0; stop := documentEnd document |} ])
    /\ invertRanges document (invertRanges document []) = [].
Proof.
  intros document.
  assert (Hrefl : forall p, isEqual p p = true)
    by (intros p; unfold isEqual; now rewrite !Nat.eqb_refl).
  assert (Htiled : forall ranges,
             tiledFrom (mkPosition 0 0) ranges = true ->
             invertRanges document ranges
             = (if isEqual (lastStop (mkPosition 0 0) ranges) (documentEnd document)
                then []
                else [ mkRange (lastStop (mkPosition 0 0) ranges)
                         (documentEnd document) ])).
  { intros ranges Ht. unfold invertRanges. fold (documentEnd document).
    rewrite invertRanges_fold_tiled by exact Ht.
    now destruct (isEqual _ _). }
  assert (Hall : invertRanges document []
                 = (if isEqual (mkPosition 0 0) (documentEnd document) then []
                    else [ {| start := mkPosition 0 0;
                              stop := documentEnd document |} ])).
  { rewrite Htiled by reflexivity. simpl.
    destruct (isEqual _ _); [reflexivity|].
    f_equal. apply mkRange_ordered. unfold ple. simpl. lia. }
  split; [exact Htiled|]. split; [exact Hall|].
  rewrite Hall. destruct (isEqual (mkPosition 0 0) (documentEnd document)) eqn:E.
  - rewrite Htiled by reflexivity. simpl. now rewrite E.
  - rewrite Htiled by reflexivity. simpl. now rewrite Hrefl.
Qed.

Lemma invertRanges_tiled_witness :
  invertRanges (doc "0123456789")
    [ {| start := mkPosition 0 0; stop := mkPosition 0 2 |};
      {| start := mkPosition 0 2; stop := mkPosition 0 4 |} ]
  = [ {| start := mkPosition 0 4; stop := mkPosition 0 10 |} ].
Proof.
  exact (proj1 (invertRanges_tiled (doc "0123456789"))
           [ {| start := mkPosition 0 0; stop := mkPosition 0 2 |};
             {| start := mkPosition 0 2; stop := mkPosition 0 4 |} ]
           eq_refl).
Defined.

(** ** componentPathToUri *)

(** X6: on a cache miss, a location that [componentPathToUri] returns
    names a file that exists, and it is the one beside the referencing
    file whenever that one exists, whatever the workspace holds. *)
Theorem componentPathToUri_resolved_exists :
  forall cachedComponentPathToUri existsSync getWorkspaceFolder
         path_sep path_dirname path_join dotPath baseUri u,
    cachedComponentPathToUri dotPath baseUri = None ->
    componentPathToUri cachedComponentPathToUri existsSync getWorkspaceFolder
      path_sep path_dirname path_join dotPath baseUri = Js.Returned (Some u) ->
    existsSync (fsPath u) = true
    /\ (existsSync
          (path_join (path_dirname (fsPath baseUri))
             (Js.replaceAll DOT path_sep dotPath +:+ COMPONENT_EXT)) = true ->
        u = fileUri
              (path_join (path_dirname (fsPath baseUri))
                 (Js.replaceAll DOT path_sep dotPath +:+ COMPONENT_EXT))).
Proof.
  intros cached ex gw sep dn jn dotPath baseUri u Hc.
  unfold componentPathToUri. rewrite Hc.
  destruct (ex (jn (dn (fsPath baseUri)) _)) eqn:Hl.
  - intros [= <-]. split; [exact Hl|reflexivity].
  - destruct (gw baseUri) as [root|]; [|discriminate].
    destruct (ex (jn (fsPath (folderUri root)) _)) eqn:Hr; [|discriminate].
    intros [= <-]. split; [exact Hr|discriminate].
Qed.

Lemma componentPathToUri_resolved_exists_witness :
  helperUnderRoot "utils.Helper" {| fsPath := "/ws/app/a.cfc" |}
  = Js.Returned (Some {| fsPath := "/ws/utils/Helper.cfc" |})
  /\ String.eqb (fsPath {| fsPath := "/ws/utils/Helper.cfc" |}) "/ws/utils/Helper.cfc"
     = true.
Proof.
  split; [vm_compute; reflexivity|].
  apply (componentPathToUri_resolved_exists
           (fun _ _ => None)
           (fun path => String.eqb path "/ws/utils/Helper.cfc")
           (fun _ => Some {| folderUri := {| fsPath := "/ws" |} |})
           "/" dirnamePath joinPath "utils.Helper" {| fsPath := "/ws/app/a.cfc" |}
           {| fsPath := "/ws/utils/Helper.cfc" |}).
  - reflexivity.
  - vm_compute; reflexivity.
Defined.

(** ** getComponentNameFromDotPath *)

Lemma split_not_nil sep s : Js.split sep s <> [].
Proof.
  destruct s as [|c s]; simpl; [discriminate|].
  destruct (Ascii.eqb c sep); [discriminate|].
  destruct (Js.split sep s); discriminate.
Qed.

Lemma joinWith_cons sep piece rest :
  rest <> [] ->
  joinWith sep (piece :: rest) = piece +:+ String sep (joinWith sep rest).
Proof. destruct rest; [congruence|reflexivity]. Qed.

(** Splitting and joining again gives the string back. *)
Lemma joinWith_split sep s : joinWith sep (Js.split sep s) = s.
Proof.
  induction s as [|c s IH]; [reflexivity|]. simpl.
  destruct (Ascii.eqb c sep) eqn:E.
  - apply Ascii.eqb_eq in E. subst c.
    rewrite joinWith_cons by apply split_not_nil. now rewrite IH.
  - destruct (Js.split sep s) as [|piece pieces] eqn:Hs.
    + exfalso. now apply (split_not_nil sep s).
    + rewrite <- IH. destruct pieces; reflexivity.
Qed.

Lemma split_noChar sep s : Forall (fun piece => noChar sep piece = true) (Js.split sep s).
Proof.
  induction s as [|c s IH]; simpl; [repeat constructor|].
  destruct (Ascii.eqb c sep) eqn:E.
  - constructor; [reflexivity|exact IH].
  - destruct (Js.split sep s) as [|piece pieces].
    + repeat constructor. simpl. now rewrite E.
    + inversion IH; subst. constructor; [|assumption]. simpl. now rewrite E.
Qed.

Lemma rev_head_last {A : Type} (l : list A) (d : A) :
  match rev l with x :: _ => x | [] => d end = List.last l d.
Proof.
  destruct (rev l) as [|x t] eqn:Hr.
  - apply (f_equal (@rev A)) in Hr. rewrite rev_involutive in Hr. now subst.
  - apply (f_equal (@rev A)) in Hr. rewrite rev_involutive in Hr. subst l.
    simpl. now rewrite List.last_last.
Qed.

Lemma append_assoc a b c : (a +:+ b) +:+ c = a +:+ (b +:+ c).
Proof. induction a as [|x a IH]; [reflexivity|]. rewrite !append_cons. now rewrite IH. Qed.

Lemma joinWith_last sep pieces :
  pieces <> [] ->
  joinWith sep pieces = List.last pieces EmptyString
  \/ exists package,
       joinWith sep pieces
       = package +:+ String sep EmptyString +:+ List.last pieces EmptyString.
Proof.
  induction pieces as [|piece rest IH]; intros Hne; [congruence|].
  destruct rest as [|piece' rest']; [now left|]. right.
  rewrite joinWith_cons by discriminate.
  change (List.last (piece :: piece' :: rest') EmptyString)
    with (List.last (piece' :: rest') EmptyString).
  destruct IH as [-> | (package & ->)]; [discriminate| |].
  - exists piece. reflexivity.
  - exists (piece +:+ String sep package).
    rewrite append_assoc, append_cons. reflexivity.
Qed.

Lemma substring_whole d : String.substring 0 (String.length d) d = d.
Proof. induction d as [|c d IH]; [reflexivity|]. simpl. now rewrite IH. Qed.

Lemma substring_past p d : forall m,
  String.substring (String.length p) m (p +:+ d) = String.substring 0 m d.
Proof. induction p as [|c p IH]; intros m; [reflexivity|]. simpl. apply IH. Qed.

Lemma endsWith_append p d : Js.endsWith (p +:+ d) d = true.
Proof.
  unfold Js.endsWith. rewrite length_append.
  replace (String.length p + String.length d - String.length d)
    with (String.length p) by lia.
  rewrite substring_past, substring_whole, String.eqb_refl.
  rewrite andb_true_r. apply Nat.leb_le. lia.
Qed.

(** The last piece of a split holds no separator and ends the string. *)
Lemma split_last_piece sep s :
  let piece := List.last (Js.split sep s) EmptyString in
  noChar sep piece = true
  /\ Js.endsWith s piece = true
  /\ (s = piece \/ exists package, s = package +:+ String sep EmptyString +:+ piece).
Proof.
  cbv zeta.
  assert (Hin : In (List.last (Js.split sep s) EmptyString) (Js.split sep s)).
  { pose proof (split_not_nil sep s) as Hne.
    destruct (Js.split sep s) as [|x l]; [congruence|].
    rewrite (app_removelast_last EmptyString (l := x :: l)) at 2 by discriminate.
    apply in_or_app. right. now left. }
  split.
  - pose proof (split_noChar sep s) as HF.
    rewrite List.Forall_forall in HF. now apply HF.
  - assert (Hj : s = List.last (Js.split sep s) EmptyString
                 \/ exists package,
                      s = package +:+ String sep EmptyString
                          +:+ List.last (Js.split sep s) EmptyString).
    { destruct (joinWith_last sep (Js.split sep s) (split_not_nil sep s))
        as [H|(package & H)]; rewrite joinWith_split in H.
      - now left.
      - right. exists package. exact H. }
    split; [|exact Hj].
    destruct Hj as [H|(package & H)].
    + rewrite <- H. apply (endsWith_append EmptyString s).
    + rewrite H at 1. rewrite <- append_assoc. apply endsWith_append.
Qed.

(** X7: the name [getComponentNameFromDotPath] takes from a dot path
    holds no dot and ends the path: it is the whole path, or what follows
    the last dot of it. *)
Theorem getComponentNameFromDotPath_last_segment :
  forall path,
    let name := getComponentNameFromDotPath path in
    noChar DOT name = true
    /\ Js.endsWith path name = true
    /\ (path = name \/ exists package, path = package +:+ "." +:+ name).
Proof.
  intros path. cbv zeta. unfold getComponentNameFromDotPath.
  rewrite rev_head_last. exact (split_last_piece DOT path).
Qed.

(** ** processDocBlock and processAttributes *)

Lemma processDocBlock_lookup isTruthy docBlock name :
  processDocBlock isTruthy docBlock !! name
  = match find (fun e => String.eqb (key e) name) (rev docBlock) with
    | Some e => Some (coerce isTruthy name (value e))
    | None => None
    end.
Proof.
  unfold processDocBlock.
  induction docBlock as [|e l IH] using rev_ind; [apply lookup_empty|].
  rewrite fold_left_app, rev_app_distr. simpl.
  destruct (String.eqb (key e) name) eqn:E.
  - apply String.eqb_eq in E. subst name.
    rewrite lookup_insert_eq. reflexivity.
  - rewrite lookup_insert_ne; [exact IH|].
    intros H. rewrite H, String.eqb_refl in E. discriminate.
Qed.

(** X8: for every key, the object that [processDocBlock] builds holds the
    value of the last entry of the doc block that has the key, as a
    boolean for a boolean attribute and as the string itself otherwise,
    and nothing for a key no entry has. *)
Theorem processDocBlock_last_entry_wins :
  forall isTruthy docBlock name,
    processDocBlock isTruthy docBlock !! name
    = match find (fun e => String.eqb (key e) name) (rev docBlock) with
      | Some e =>
          Some (if Js.includes booleanAttributes name
                then JBool (isTruthy (value e)) else JString (value e))
      | None => None
      end.
Proof.
  intros isTruthy docBlock name. apply processDocBlock_lookup.
Qed.

Lemma processAttributes_lookup isTruthy attributes name :
  processAttributes isTruthy attributes !! name
  = match find (fun e : string * Attribute => String.eqb (fst e) name)
            (rev attributes) with
    | Some e => Some (coerce isTruthy name (attributeValue (snd e)))
    | None => None
    end.
Proof.
  unfold processAttributes.
  induction attributes as [|e l IH] using rev_ind; [apply lookup_empty|].
  rewrite fold_left_app, rev_app_distr. simpl.
  destruct (String.eqb (fst e) name) eqn:E.
  - apply String.eqb_eq in E. subst name.
    rewrite lookup_insert_eq. reflexivity.
  - rewrite lookup_insert_ne; [exact IH|].
    intros H. rewrite H, String.eqb_refl in E. discriminate.
Qed.

(** X9: in the attributes that [parseComponent] merges from the doc block
    and the attribute list, an attribute of the list overrides the doc
    block's, a boolean attribute holds a boolean and every other one a
    string. *)
Theorem componentAttributes_typed :
  forall isTruthy docBlock attributes name,
    let componentAttributes :=
      assign (assign ∅ (processDocBlock isTruthy docBlock))
        (processAttributes isTruthy attributes) in
    componentAttributes !! name
    = match processAttributes isTruthy attributes !! name with
      | Some v => Some v
      | None => processDocBlock isTruthy docBlock !! name
      end
    /\ forall v,
         componentAttributes !! name = Some v ->
         if Js.includes booleanAttributes name
         then exists b, v = JBool b
         else exists s, v = JString s.
Proof.
  intros isTruthy docBlock attributes name. cbv zeta.
  assert (Hl : assign (assign ∅ (processDocBlock isTruthy docBlock))
                 (processAttributes isTruthy attributes) !! name
               = match processAttributes isTruthy attributes !! name with
                 | Some v => Some v
                 | None => processDocBlock isTruthy docBlock !! name
                 end).
  { unfold assign. rewrite lookup_union.
    destruct (processAttributes isTruthy attributes !! name) as [v|] eqn:Ha.
    - now rewrite union_Some_l.
    - rewrite left_id by apply _. rewrite lookup_union, lookup_empty.
      now rewrite right_id by apply _. }
  split; [exact Hl|].
  intros v. rewrite Hl, processAttributes_lookup, processDocBlock_lookup.
  unfold coerce. generalize (Js.includes booleanAttributes name) as isBoolean.
  intros isBoolean.
  destruct (find _ (rev attributes)) as [a|].
  - intros [= <-]. destruct isBoolean; eauto.
  - destruct (find _ (rev docBlock)) as [e|]; [|discriminate].
    intros [= <-]. destruct isBoolean; eauto.
Qed.

(** ** The loop over the component's own properties *)

Lemma getProp_setProp_eq name v o : getProp name (setProp name v o) = v.
Proof.
  induction o as [|[k w] o IH]; simpl.
  - now rewrite String.eqb_refl.
  - destruct (String.eqb k name) eqn:E; simpl; rewrite E; [reflexivity|exact IH].
Qed.

Lemma setProp_setProp name v w o :
  setProp name w (setProp name v o) = setProp name w o.
Proof.
  induction o as [|[k u] o IH]; simpl.
  - now rewrite String.eqb_refl.
  - destruct (String.eqb k name) eqn:E; simpl; rewrite E; [reflexivity|].
    now rewrite IH.
Qed.

Lemma thrown_stays {A B : Type} (f : A -> B -> Js.Outcome A) (l : list B) e :
  fold_left (fun acc x => Js.bind acc (fun a => f a x)) l (Js.Thrown e)
  = Js.Thrown e.
Proof. induction l as [|x l IH]; [reflexivity|exact IH]. Qed.

Section OwnProperties.

Variable resolve : string -> Uri -> Js.Outcome (option Uri).

Lemma applyImplements_other name documentUri implements component result :
  name <> "implements" ->
  applyImplements resolve documentUri implements component = Js.Returned result ->
  getProp name result = getProp name component.
Proof.
  intros Hne. unfold applyImplements.
  generalize (Js.split COMMA implements) as pieces.
  intros pieces. revert component.
  induction pieces as [|p pieces IH]; intros component; simpl.
  - intros [= <-]. reflexivity.
  - destruct (resolve (Js.trim p) documentUri) as [[u|]|e]; simpl.
    + set (c1 := if truthy (getProp "implements" component) then component
                 else setProp "implements" (JUris []) component).
      assert (H1 : getProp name c1 = getProp name component).
      { unfold c1. destruct (truthy _); [reflexivity|].
        now apply getProp_setProp_ne. }
      destruct (getProp "implements" c1) eqn:Hg;
        try (intros H; exfalso; revert H; clear;
             induction pieces as [|q pieces IHp]; simpl;
             [discriminate|exact IHp]).
      intros H. apply IH in H. rewrite H.
      rewrite getProp_setProp_ne by exact Hne. exact H1.
    + apply IH.
    + intros H; exfalso; revert H; clear.
      induction pieces as [|q pieces IHp]; simpl; [discriminate|exact IHp].
Qed.

Lemma applyAttribute_other name documentUri attrs component propName result :
  name <> "extends" -> name <> "implements" ->
  propName <> "persistent" -> propName <> name ->
  applyAttribute resolve documentUri attrs component propName = Js.Returned result ->
  getProp name result = getProp name component.
Proof.
  intros Hx Hi Hp Hn. unfold applyAttribute.
  destruct (truthy (attribute attrs propName)) eqn:Ht; [|now intros [= <-]].
  destruct (String.eqb propName "extends") eqn:E1.
  { destruct (resolve _ _) as [u|e]; simpl; [|discriminate].
    intros [= <-]. now apply getProp_setProp_ne. }
  destruct (String.eqb propName "implements") eqn:E2.
  { now apply applyImplements_other. }
  destruct (String.eqb propName "persistent") eqn:E3.
  { apply String.eqb_eq in E3. contradiction. }
  simpl. intros [= <-]. apply getProp_setProp_ne. congruence.
Qed.

Lemma applyAttribute_same name documentUri attrs component result :
  name <> "extends" -> name <> "implements" -> name <> "persistent" ->
  applyAttribute resolve documentUri attrs component name = Js.Returned result ->
  getProp name result
  = if truthy (attribute attrs name) then attribute attrs name
    else getProp name component.
Proof.
  intros Hx Hi Hp. unfold applyAttribute.
  destruct (truthy (attribute attrs name)) eqn:Ht; [|now intros [= <-]].
  destruct (String.eqb name "extends") eqn:E1.
  { apply String.eqb_eq in E1. contradiction. }
  destruct (String.eqb name "implements") eqn:E2.
  { apply String.eqb_eq in E2. contradiction. }
  destruct (String.eqb name "persistent") eqn:E3.
  { apply String.eqb_eq in E3. contradiction. }
  simpl. intros [= <-]. apply getProp_setProp_eq.
Qed.

Lemma applyAttributes_fold_copies name documentUri attrs names :
  forall component result,
    name <> "extends" -> name <> "implements" ->
    ~ In "persistent" names ->
    fold_left
      (fun acc propName =>
         Js.bind acc (fun component =>
           applyAttribute resolve documentUri attrs component propName))
      names (Js.Returned component) = Js.Returned result ->
    getProp name result
    = if Js.includes names name && truthy (attribute attrs name)
      then attribute attrs name else getProp name component.
Proof.
  induction names as [|n names IH]; intros component result Hx Hi Hnp; simpl.
  - now intros [= <-].
  - destruct (applyAttribute resolve documentUri attrs component n) as [c'|e] eqn:Hstep.
    + intros H. apply IH in H; [|assumption|assumption|intros Hin; apply Hnp; now right].
      rewrite H. clear H.
      assert (Hn : n <> "persistent") by (intros ->; apply Hnp; now left).
      destruct (String.eqb name n) eqn:E.
      * apply String.eqb_eq in E. subst n. simpl.
        apply applyAttribute_same in Hstep; [|assumption|assumption|assumption].
        rewrite Hstep.
        destruct (truthy (attribute attrs name)); [|now rewrite andb_false_r].
        now rewrite andb_true_r; destruct (Js.includes names name).
      * simpl.
        apply (applyAttribute_other name) in Hstep;
          [|assumption|assumption|assumption|].
        -- now rewrite Hstep.
        -- intros ->. rewrite String.eqb_refl in E. discriminate.
    + rewrite (thrown_stays
                 (fun component propName =>
                    applyAttribute resolve documentUri attrs component propName)).
      discriminate.
Qed.

End OwnProperties.

(** X10: when the loop over the component's own properties returns, a
    property other than [extends] and [implements] holds the attribute of
    its name where that attribute is truthy, and its old value where the
    attribute is unset or falsy; a property the component does not have is
    not created.  The component has no property [persistent]. *)
Theorem applyAttributes_copies_truthy :
  forall resolve documentUri componentAttributes component result name,
    ~ In "persistent" (getOwnPropertyNames component) ->
    name <> "extends" -> name <> "implements" ->
    applyAttributes resolve documentUri componentAttributes component
    = Js.Returned result ->
    getProp name result
    = if Js.includes (getOwnPropertyNames component) name
         && truthy (attribute componentAttributes name)
      then attribute componentAttributes name
      else getProp name component.
Proof.
  intros resolve documentUri attrs component result name Hnp Hx Hi H.
  now apply (applyAttributes_fold_copies resolve name documentUri attrs
               (getOwnPropertyNames component) component result).
Qed.

Lemma applyAttributes_copies_truthy_witness :
  applyAttributes (fun dotPath baseUri => Js.Returned (knowsWalker dotPath baseUri))
    {| fsPath := "/ws/Dog.cfc" |}
    (<["hint" := JString "A dog"]> (<["output" := JBool true]> ∅))
    hintedComponent
  = Js.Returned
      [ ("name", JString "Dog"); ("hint", JString "A dog"); ("implements", JNull) ]
  /\ getProp "hint"
       [ ("name", JString "Dog"); ("hint", JString "A dog"); ("implements", JNull) ]
     = JString "A dog".
Proof.
  assert (E : applyAttributes
                (fun dotPath baseUri => Js.Returned (knowsWalker dotPath baseUri))
                {| fsPath := "/ws/Dog.cfc" |}
                (<["hint" := JString "A dog"]> (<["output" := JBool true]> ∅))
                hintedComponent
              = Js.Returned
                  [ ("name", JString "Dog"); ("hint", JString "A dog");
                    ("implements", JNull) ])
    by (vm_compute; reflexivity).
  split; [exact E|].
  rewrite (applyAttributes_copies_truthy
             (fun dotPath baseUri => Js.Returned (knowsWalker dotPath baseUri))
             {| fsPath := "/ws/Dog.cfc" |}
             (<["hint" := JString "A dog"]> (<["output" := JBool true]> ∅))
             hintedComponent _ "hint"
             ltac:(vm_compute; intuition discriminate)
             ltac:(discriminate) ltac:(discriminate) E).
  vm_compute. reflexivity.
Defined.

(** ** The segments of [implements] *)

Lemma applyImplements_pushes (locate : string -> Uri -> option Uri) (documentUri : Uri)
    (pieces : list string) :
  forall component acc,
    getProp "implements" component = JUris acc ->
    fold_left
      (fun acc element =>
         Js.bind acc (fun component =>
         Js.bind (Js.Returned (locate (Js.trim element) documentUri))
           (fun implementsUri : option Uri =>
         match implementsUri with
         | Some u =>
             let component :=
               if truthy (getProp "implements" component) then component
               else setProp "implements" (JUris []) component in
             match getProp "implements" component with
             | JUris us =>
                 Js.Returned (setProp "implements" (JUris (us ++ [u])) component)
             | _ => Js.Thrown "TypeError: component.implements.push is not a function"
             end
         | None => Js.Returned component
         end)))
      pieces (Js.Returned component)
    = Js.Returned
        (match omap (fun dotPath => locate dotPath documentUri)
                 (map Js.trim pieces) with
         | [] => component
         | us => setProp "implements" (JUris (acc ++ us)) component
         end).
Proof.
  induction pieces as [|p pieces IH]; intros component acc Hg; [reflexivity|].
  cbn [fold_left map Js.bind omap list_omap].
  destruct (locate (Js.trim p) documentUri) as [u|]; [|now apply IH].
  rewrite Hg. cbn [truthy]. rewrite Hg.
  rewrite (IH _ (acc ++ [u])) by apply getProp_setProp_eq.
  destruct (omap _ (map Js.trim pieces)) as [|u' us].
  - reflexivity.
  - rewrite setProp_setProp, <- app_assoc. reflexivity.
Qed.

Lemma applyImplements_falsy (locate : string -> Uri -> option Uri) documentUri
    implements :
  forall component,
    truthy (getProp "implements" component) = false ->
    applyImplements (fun dotPath baseUri => Js.Returned (locate dotPath baseUri))
      documentUri implements component
    = Js.Returned
        (match omap (fun dotPath => locate dotPath documentUri)
                 (map Js.trim (Js.split COMMA implements)) with
         | [] => component
         | us => setProp "implements" (JUris us) component
         end).
Proof.
  unfold applyImplements.
  generalize (Js.split COMMA implements) as pieces.
  induction pieces as [|p pieces IH]; intros component Hf; [reflexivity|].
  cbn [fold_left map Js.bind omap list_omap].
  destruct (locate (Js.trim p) documentUri) as [u|]; [|now apply IH].
  rewrite Hf. rewrite getProp_setProp_eq.
  rewrite (applyImplements_pushes locate documentUri pieces _ ([] ++ [u]))
    by apply getProp_setProp_eq.
  destruct (omap _ (map Js.trim pieces)) as [|u' us].
  - now rewrite setProp_setProp.
  - now rewrite !setProp_setProp.
Qed.

(** X11: with a resolver that does not throw, and [implements] not yet
    set, the loop over the segments of the [implements] attribute leaves
    the component as it is when no segment resolves, and otherwise sets
    [implements] to the locations of the segments that resolve, trimmed,
    in the order of the attribute; a segment that does not resolve is
    dropped without a trace. *)
Theorem applyImplements_resolved_in_order :
  forall (locate : string -> Uri -> option Uri) documentUri implements component,
    truthy (getProp "implements" component) = false ->
    applyImplements (fun dotPath baseUri => Js.Returned (locate dotPath baseUri))
      documentUri implements component
    = Js.Returned
        (match omap (fun dotPath => locate dotPath documentUri)
                 (map Js.trim (Js.split COMMA implements)) with
         | [] => component
         | us => setProp "implements" (JUris us) component
         end).
Proof.
  intros locate documentUri implements component.
  apply applyImplements_falsy.
Qed.

Lemma applyImplements_resolved_in_order_witness :
  applyImplements (fun dotPath baseUri => Js.Returned (knowsWalker dotPath baseUri))
    {| fsPath := "/ws/Dog.cfc" |} "Runner, Walker ,Walker" hintedComponent
  = Js.Returned
      [ ("name", JString "Dog"); ("hint", JString EmptyString);
        ("implements",
         JUris [ {| fsPath := "/ws/Walker.cfc" |}; {| fsPath := "/ws/Walker.cfc" |} ]) ].
Proof.
  rewrite (applyImplements_resolved_in_order knowsWalker
             {| fsPath := "/ws/Dog.cfc" |} "Runner, Walker ,Walker" hintedComponent
             eq_refl).
  vm_compute. reflexivity.
Defined.

(** ** The range of an extended component's name *)

Lemma endsWith_length s suffix :
  Js.endsWith s suffix = true ->
  String.length suffix <= String.length s
  /\ String.substring (String.length s - String.length suffix)
       (String.length suffix) s = suffix.
Proof.
  unfold Js.endsWith. intros H. apply andb_true_iff in H as [H1 H2].
  apply Nat.leb_le in H1. apply String.eqb_eq in H2. now split.
Qed.

(** X12: for an [extends] value that lies on one line, the range that
    [parseComponent] keeps as [extendsRange] ends where the value ends and
    covers the name of the component and no more: it is as long as the
    name, and the part of the value under it is the name. *)
Theorem extendsRangeOf_covers_name :
  forall value l c,
    let name := getComponentNameFromDotPath value in
    let r :=
      extendsRangeOf value
        (mkRange (mkPosition l c) (mkPosition l (c + String.length value))) in
    start r = mkPosition l (c + String.length value - String.length name)
    /\ stop r = mkPosition l (c + String.length value)
    /\ String.substring (character (start r) - c) (String.length name) value = name.
Proof.
  intros value l c. cbv zeta.
  assert (He : Js.endsWith value (getComponentNameFromDotPath value) = true).
  { unfold getComponentNameFromDotPath. rewrite rev_head_last.
    apply (split_last_piece DOT value). }
  apply endsWith_length in He as [Hle Hsub].
  unfold extendsRangeOf.
  set (name := getComponentNameFromDotPath value) in *.
  assert (R1 : mkRange (mkPosition l c) (mkPosition l (c + String.length value))
               = {| start := mkPosition l c;
                    stop := mkPosition l (c + String.length value) |}).
  { apply mkRange_ordered. right. simpl. lia. }
  rewrite R1. simpl.
  assert (R2 : mkRange
                 (mkPosition l (c + (String.length value - String.length name)))
                 (mkPosition l (c + String.length value))
               = {| start := mkPosition l (c + (String.length value - String.length name));
                    stop := mkPosition l (c + String.length value) |}).
  { apply mkRange_ordered. right. simpl. lia. }
  rewrite R2. simpl. repeat split.
  - f_equal. lia.
  - replace (c + (String.length value - String.length name) - c)
      with (String.length value - String.length name) by lia.
    exact Hsub.
Qed.

(** ** parseComponent as a whole *)

Lemma implementsOk_setProp name v component :
  name <> "implements" -> implementsOk component ->
  implementsOk (setProp name v component).
Proof.
  intros Hne H. unfold implementsOk.
  rewrite getProp_setProp_ne by congruence. exact H.
Qed.

Lemma includes_setProp n name v o :
  Js.includes (getOwnPropertyNames o) n = true ->
  Js.includes (getOwnPropertyNames (setProp name v o)) n = true.
Proof.
  unfold Js.includes, getOwnPropertyNames.
  induction o as [|[k w] o IH]; simpl; [discriminate|].
  destruct (String.eqb k name); simpl; [trivial|].
  destruct (String.eqb n k); simpl; [trivial|exact IH].
Qed.

Section ReturningResolver.

Variable locate : string -> Uri -> option Uri.

Lemma applyImplements_returns documentUri implements component :
  implementsOk component ->
  exists result,
    applyImplements (fun dotPath baseUri => Js.Returned (locate dotPath baseUri))
      documentUri implements component = Js.Returned result
    /\ implementsOk result.
Proof.
  intros [Hf|(acc & Hg)].
  - rewrite applyImplements_falsy by exact Hf. eexists. split; [reflexivity|].
    destruct (omap _ _) as [|u us]; [now left|].
    right. eexists. apply getProp_setProp_eq.
  - unfold applyImplements.
    rewrite (applyImplements_pushes locate documentUri _ component acc Hg).
    eexists. split; [reflexivity|].
    destruct (omap _ _) as [|u us]; [right; now exists acc|].
    right. eexists. apply getProp_setProp_eq.
Qed.

Lemma applyAttribute_returns documentUri attrs component propName :
  implementsOk component ->
  exists result,
    applyAttribute (fun dotPath baseUri => Js.Returned (locate dotPath baseUri))
      documentUri attrs component propName = Js.Returned result
    /\ implementsOk result.
Proof.
  intros Hok. unfold applyAttribute.
  destruct (truthy (attribute attrs propName)); [|eauto].
  destruct (String.eqb propName "extends") eqn:E1.
  { simpl. eexists. split; [reflexivity|].
    apply implementsOk_setProp; [discriminate|exact Hok]. }
  destruct (String.eqb propName "implements") eqn:E2.
  { now apply applyImplements_returns. }
  destruct (String.eqb propName "persistent" && _).
  { eexists. split; [reflexivity|].
    apply implementsOk_setProp; [discriminate|exact Hok]. }
  eexists. split; [reflexivity|].
  apply implementsOk_setProp; [|exact Hok].
  intros ->. discriminate.
Qed.

Lemma applyAttributes_fold_returns documentUri attrs names : forall component,
  implementsOk component ->
  exists result,
    fold_left
      (fun acc propName =>
         Js.bind acc (fun component =>
           applyAttribute (fun dotPath baseUri => Js.Returned (locate dotPath baseUri))
             documentUri attrs component propName))
      names (Js.Returned component) = Js.Returned result.
Proof.
  induction names as [|n names IH]; intros component Hok; simpl; [eauto|].
  destruct (applyAttribute_returns documentUri attrs component n Hok)
    as (c' & -> & Hok').
  now apply IH.
Qed.

End ReturningResolver.

(** X13: with a resolver that does not throw, [parseComponent] does not
    throw either, whatever the doc block and the attributes hold, and it
    returns a component exactly when the pattern matches the text. *)
Theorem parseComponent_returns :
  forall execComponentPattern parseDocBlock parseAttributes isTruthy
         path_basename (locate : string -> Uri -> option Uri)
         parseProperties parseFunctions parseVariables document,
  exists result,
    parseComponent execComponentPattern parseDocBlock parseAttributes isTruthy
      path_basename (fun dotPath baseUri => Js.Returned (locate dotPath baseUri))
      parseProperties parseFunctions parseVariables document
    = Js.Returned result
    /\ (result = None <-> execComponentPattern (getText document) = None).
Proof.
  intros exec pdb pat isT base locate pprop pfun pvar document.
  unfold parseComponent.
  destruct (exec (getText document)) as [m|]; [|now exists None].
  cbv zeta.
  set (docBlock := if present (componentDoc m) then pdb document _ else []).
  set (attributes := if negb _ then pat document _ componentAttributeNames else []).
  set (attrs := assign (assign ∅ (processDocBlock isT docBlock))
                  (processAttributes isT attributes)).
  set (literal := [("uri", _); _; _; _; _; _; _; _; _; _; _; _; _]).
  match goal with
  | |- context [fold_left ?f docBlock literal] =>
      set (c1 := fold_left f docBlock literal)
  end.
  match goal with
  | |- context [applyAttributes _ _ _ ?c] => set (c2 := c)
  end.
  assert (Hc1 : implementsOk c1).
  { unfold c1. clear c2.
    assert (G : implementsOk literal) by (now left).
    revert G. generalize literal as c. clear.
    induction docBlock as [|e l IH]; intros c G; simpl; [exact G|].
    apply IH. destruct (String.eqb (key e) "extends"); [|exact G].
    apply implementsOk_setProp; [discriminate|exact G]. }
  assert (Hc2 : implementsOk c2).
  { unfold c2. destruct (find _ attributes) as [[k a]|]; [|exact Hc1].
    apply implementsOk_setProp; [discriminate|exact Hc1]. }
  unfold applyAttributes.
  destruct (applyAttributes_fold_returns locate (uri document) attrs
              (getOwnPropertyNames c2) c2 Hc2) as (c3 & ->).
  simpl. destruct (fold_left _ (pfun document) _) as [earliest functions].
  eexists. split; [reflexivity|]. split; discriminate.
Qed.

(** X14: the [hint] and the [displayname] of the component that
    [parseComponent] returns are the value of the attribute of that name,
    taken from the attribute list, or else from the doc block, and the
    empty string when neither has it. *)
Theorem parseComponent_hint_and_displayname :
  forall execComponentPattern parseDocBlock parseAttributes isTruthy
         path_basename resolve parseProperties parseFunctions parseVariables
         document componentMatch component name,
    execComponentPattern (getText document) = Some componentMatch ->
    parseComponent execComponentPattern parseDocBlock parseAttributes isTruthy
      path_basename resolve parseProperties parseFunctions parseVariables
      document = Js.Returned (Some component) ->
    name = "hint" \/ name = "displayname" ->
    getProp name component
    = JString
        (stringOf
           (attribute
              (assign
                 (assign ∅
                    (processDocBlock isTruthy
                       (docBlockOf parseDocBlock document componentMatch)))
                 (processAttributes isTruthy
                    (attributesOf parseAttributes document componentMatch)))
              name)).
Proof.
  intros exec pdb pat isT base resolve pprop pfun pvar document m component name
    Hexec.
  unfold parseComponent. rewrite Hexec. cbv zeta.
  fold (docBlockOf pdb document m).
  change (if negb (String.eqb (componentAttr m) EmptyString)
          then pat document _ componentAttributeNames else [])
    with (attributesOf pat document m).
  set (docBlock := docBlockOf pdb document m).
  set (attributes := attributesOf pat document m).
  set (attrs := assign (assign ∅ (processDocBlock isT docBlock))
                  (processAttributes isT attributes)).
  set (literal := [("uri", _); _; _; _; _; _; _; _; _; _; _; _; _]).
  match goal with
  | |- context [fold_left ?f docBlock literal] =>
      set (c1 := fold_left f docBlock literal)
  end.
  match goal with
  | |- context [applyAttributes _ _ _ ?c] => set (c2 := c)
  end.
  intros Hparse Hname.
  assert (Hx : name <> "extends" /\ name <> "implements" /\ name <> "extendsRange"
               /\ name <> "functions" /\ name <> "variables"
               /\ Js.includes booleanAttributes name = false).
  { destruct Hname as [-> | ->]; repeat split; discriminate. }
  destruct Hx as (Hx1 & Hx2 & Hx3 & Hx4 & Hx5 & Hx6).
  assert (Hc1 : getProp name c1 = JString EmptyString
                /\ Js.includes (getOwnPropertyNames c1) name = true
                /\ ~ In "persistent" (getOwnPropertyNames c1)).
  { unfold c1. clear c2 Hparse.
    assert (G : getProp name literal = JString EmptyString
                /\ Js.includes (getOwnPropertyNames literal) name = true
                /\ ~ In "persistent" (getOwnPropertyNames literal)).
    { split; [|split].
      - destruct Hname as [-> | ->]; reflexivity.
      - destruct Hname as [-> | ->]; reflexivity.
      - simpl. intros H.
        repeat (destruct H as [H|H]; [discriminate H|]). exact H. }
    revert G. generalize literal as c. clear - Hx3.
    induction docBlock as [|e l IH]; intros c G; simpl; [exact G|].
    apply IH. destruct (String.eqb (key e) "extends"); [|exact G].
    destruct G as (G1 & G2 & G3). split; [|split].
    - now rewrite getProp_setProp_ne by exact Hx3.
    - now apply includes_setProp.
    - intros H. apply getOwnPropertyNames_setProp in H as [H|H];
        [discriminate H|contradiction]. }
  assert (Hc2 : getProp name c2 = JString EmptyString
                /\ Js.includes (getOwnPropertyNames c2) name = true
                /\ ~ In "persistent" (getOwnPropertyNames c2)).
  { unfold c2. destruct (find _ attributes) as [[k a]|]; [|exact Hc1].
    destruct Hc1 as (G1 & G2 & G3). split; [|split].
    - now rewrite getProp_setProp_ne by exact Hx3.
    - now apply includes_setProp.
    - intros H. apply getOwnPropertyNames_setProp in H as [H|H];
        [discriminate H|contradiction]. }
  destruct Hc2 as (G1 & G2 & G3).
  destruct (applyAttributes resolve (uri document) attrs c2) as [c3|e] eqn:Happ;
    simpl in Hparse; [|discriminate].
  destruct (fold_left _ (pfun document) _) as [earliest functions].
  injection Hparse as <-.
  rewrite !getProp_setProp_ne by assumption.
  unfold applyAttributes in Happ.
  apply (applyAttributes_fold_copies resolve name) in Happ;
    [|assumption|assumption|assumption].
  rewrite Happ, G1, G2. simpl.
  assert (Ht : attribute attrs name = JUndefined
               \/ exists s, attribute attrs name = JString s).
  { unfold attribute, attrs, assign. rewrite !lookup_union, lookup_empty.
    rewrite processAttributes_lookup, processDocBlock_lookup.
    unfold coerce. rewrite Hx6.
    destruct (find _ (rev attributes)) as [a|];
      destruct (find _ (rev docBlock)) as [d|];
      cbv [union option_union union_with option_union_with default id];
      eauto. }
  destruct Ht as [-> | (s & ->)]; [reflexivity|].
  simpl. destruct (String.eqb s EmptyString) eqn:E; [|reflexivity].
  apply String.eqb_eq in E. now subst s.
Qed.

(** A script component whose doc block gives the display name and whose
    attribute list gives the hint. *)
Lemma parseComponent_hint_and_displayname_witness :
  parseHinted = Js.Returned (Some parsedHinted)
  /\ getProp "hint" parsedHinted = JString "A dog"
  /\ getProp "displayname" parsedHinted = JString "Dog".
Proof.
  assert (E : parseHinted = Js.Returned (Some parsedHinted))
    by (vm_compute; reflexivity).
  split; [exact E|]. split; [|vm_compute; reflexivity].
  rewrite (parseComponent_hint_and_displayname
             (fun _ => Some hintedMatch) (fun _ _ => hintedDocBlock)
             (fun _ _ _ => hintedAttributes) isTruthyModel
             (fun _ _ => "Dog") (fun _ _ => Js.Returned None)
             (fun _ => JParsed "properties") (fun _ => [])
             (fun _ _ _ => JParsed "variables")
             (doc hintedText) hintedMatch parsedHinted "hint"
             eq_refl E (or_introl eq_refl)).
  vm_compute. reflexivity.
Defined.

(** ** BackwardIterator *)

Lemma next_in_line it :
  (0 <= lineCharacterOffset it)%Z ->
  next it
  = (charCodeAt (iterLineText it) (lineCharacterOffset it),
     {| iterDocument := iterDocument it; lineNumber := lineNumber it;
        lineCharacterOffset := (lineCharacterOffset it - 1)%Z;
        iterLineText := iterLineText it |}).
Proof.
  intros H. unfold next.
  destruct (lineCharacterOffset it <? 0)%Z eqn:E; [|reflexivity].
  apply Z.ltb_lt in E. lia.
Qed.

Lemma next_line_above it :
  (lineCharacterOffset it < 0)%Z -> (0 <= lineNumber it - 1)%Z ->
  next it
  = (NEW_LINE,
     {| iterDocument := iterDocument it; lineNumber := (lineNumber it - 1)%Z;
        lineCharacterOffset :=
          (Z.of_nat
             (String.length
                (lineAtText (iterDocument it) (Z.to_nat (lineNumber it - 1)))) - 1)%Z;
        iterLineText :=
          lineAtText (iterDocument it) (Z.to_nat (lineNumber it - 1)) |}).
Proof.
  intros Ho Hl. unfold next.
  destruct (lineCharacterOffset it <? 0)%Z eqn:E;
    [|apply Z.ltb_ge in E; lia].
  destruct (0 <=? lineNumber it - 1)%Z eqn:E'; [reflexivity|].
  apply Z.leb_gt in E'. lia.
Qed.

Lemma next_beginning it :
  (lineCharacterOffset it < 0)%Z -> (lineNumber it - 1 < 0)%Z ->
  next it
  = (BOF,
     {| iterDocument := iterDocument it; lineNumber := (lineNumber it - 1)%Z;
        lineCharacterOffset := lineCharacterOffset it;
        iterLineText := iterLineText it |}).
Proof.
  intros Ho Hl. unfold next.
  destruct (lineCharacterOffset it <? 0)%Z eqn:E;
    [|apply Z.ltb_ge in E; lia].
  destruct (0 <=? lineNumber it - 1)%Z eqn:E'; [|reflexivity].
  apply Z.leb_le in E'. lia.
Qed.

Lemma drain_reads_back (document : TextDocument) :
  forall l n fuel it,
    iterDocument it = document ->
    lineNumber it = Z.of_nat l ->
    lineCharacterOffset it = (Z.of_nat n - 1)%Z ->
    iterLineText it = lineAtText document l ->
    n + 1 + linesBefore document l <= fuel ->
    fst (drain fuel it)
    = codesDownFrom (lineAtText document l) n ++ codesAbove document l
    /\ hasNext (snd (drain fuel it)) = false.
Proof.
  assert (Hin : forall l n fuel it,
             (forall fuel' it',
                 iterDocument it' = document ->
                 lineNumber it' = Z.of_nat l ->
                 lineCharacterOffset it' = (Z.of_nat n - 1)%Z ->
                 iterLineText it' = lineAtText document l ->
                 n + 1 + linesBefore document l <= fuel' ->
                 fst (drain fuel' it')
                 = codesDownFrom (lineAtText document l) n ++ codesAbove document l
                 /\ hasNext (snd (drain fuel' it')) = false) ->
             iterDocument it = document ->
             lineNumber it = Z.of_nat l ->
             lineCharacterOffset it = (Z.of_nat (S n) - 1)%Z ->
             iterLineText it = lineAtText document l ->
             S n + 1 + linesBefore document l <= fuel ->
             fst (drain fuel it)
             = codesDownFrom (lineAtText document l) (S n) ++ codesAbove document l
             /\ hasNext (snd (drain fuel it)) = false).
  { intros l n fuel it IHn Hd Hl Ho Ht Hf.
    destruct fuel as [|fuel]; [lia|].
    assert (Hh : hasNext it = true) by (unfold hasNext; apply Z.leb_le; lia).
    cbn [drain]. rewrite Hh, next_in_line by lia.
    destruct (IHn fuel
                {| iterDocument := iterDocument it; lineNumber := lineNumber it;
                   lineCharacterOffset := (lineCharacterOffset it - 1)%Z;
                   iterLineText := iterLineText it |}) as [H1 H2];
      [exact Hd|exact Hl|simpl; lia|exact Ht|simpl in Hf |- *; lia|].
    destruct (drain fuel _) as [codes final]. simpl in H1, H2 |- *.
    split; [|exact H2]. rewrite H1, Ht. do 2 f_equal. lia. }
  induction l as [|l IHl].
  - induction n as [|n IHn]; intros fuel it Hd Hl Ho Ht Hf.
    + destruct fuel as [|fuel]; [lia|].
      assert (Hh : hasNext it = true) by (unfold hasNext; apply Z.leb_le; lia).
      cbn [drain]. rewrite Hh, next_beginning by lia.
      assert (Hx : forall it', (lineNumber it' < 0)%Z -> drain fuel it' = ([], it')).
      { intros it' Hneg. destruct fuel as [|fuel']; [reflexivity|].
        cbn [drain]. unfold hasNext.
        destruct (0 <=? lineNumber it')%Z eqn:E; [|reflexivity].
        apply Z.leb_le in E. lia. }
      rewrite Hx by (simpl; lia). simpl. split; [reflexivity|].
      unfold hasNext. simpl. apply Z.leb_gt. lia.
    + now apply Hin.
  - induction n as [|n IHn]; intros fuel it Hd Hl Ho Ht Hf.
    + destruct fuel as [|fuel]; [lia|].
      assert (Hh : hasNext it = true) by (unfold hasNext; apply Z.leb_le; lia).
      cbn [drain]. rewrite Hh, next_line_above by lia.
      replace (Z.to_nat (lineNumber it - 1)) with l by lia.
      rewrite Hd.
      destruct (IHl (String.length (lineAtText document l)) fuel
                  {| iterDocument := document; lineNumber := (lineNumber it - 1)%Z;
                     lineCharacterOffset :=
                       (Z.of_nat (String.length (lineAtText document l)) - 1)%Z;
                     iterLineText := lineAtText document l |}) as [H1 H2];
        [reflexivity|simpl; lia|reflexivity|reflexivity|simpl in Hf; lia|].
      destruct (drain fuel _) as [codes final]. simpl in H1, H2 |- *.
      split; [|exact H2]. now rewrite H1.
    + now apply Hin.
Qed.

(** X15: read to its end, a [BackwardIterator] made at a position gives
    the code at the position itself first, then the codes before it on
    its line, the last first, then for each line above a line end and the
    codes of that line, and at last the one code of the beginning of the
    file; after that it has no next code. *)
Theorem backwardIterator_reads_back :
  forall document position,
    let it := newBackwardIterator document position in
    fst (drain (remaining it) it)
    = codesDownFrom (lineAtText document (line position)) (S (character position))
      ++ codesAbove document (line position)
    /\ hasNext (snd (drain (remaining it) it)) = false.
Proof.
  intros document position. cbv zeta.
  apply drain_reads_back.
  - reflexivity.
  - reflexivity.
  - simpl. lia.
  - reflexivity.
  - unfold remaining, newBackwardIterator. simpl.
    destruct (Z.of_nat (line position) <? 0)%Z eqn:E;
      [apply Z.ltb_lt in E; lia|].
    rewrite Nat2Z.id. lia.
Qed.

(** ** readArguments: the arguments are trimmed *)

Lemma trimEnd_cons c s :
  Js.trimEnd (String c s)
  = match Js.trimEnd s with
    | EmptyString =>
        if Js.isWhiteSpace c then EmptyString else String c EmptyString
    | rest => String c rest
    end.
Proof. reflexivity. Qed.

Lemma trimEnd_trimEnd s : Js.trimEnd (Js.trimEnd s) = Js.trimEnd s.
Proof.
  induction s as [|c s IH]; [reflexivity|]. rewrite trimEnd_cons.
  destruct (Js.trimEnd s) as [|c' rest] eqn:E.
  - destruct (Js.isWhiteSpace c) eqn:W; [reflexivity|].
    rewrite trimEnd_cons. simpl. now rewrite W.
  - rewrite trimEnd_cons, IH. reflexivity.
Qed.

Lemma trimStart_trimEnd_head c s :
  Js.isWhiteSpace c = false ->
  Js.trimStart (Js.trimEnd (String c s)) = Js.trimEnd (String c s).
Proof.
  intros W. rewrite trimEnd_cons.
  destruct (Js.trimEnd s); rewrite ?W; simpl; now rewrite W.
Qed.

Lemma trimStart_head s :
  Js.trimStart s = EmptyString
  \/ exists c s', Js.trimStart s = String c s' /\ Js.isWhiteSpace c = false.
Proof.
  induction s as [|c s IH]; [now left|]. simpl.
  destruct (Js.isWhiteSpace c) eqn:W; [exact IH|]. right. eauto.
Qed.

Lemma trim_trim s : Js.trim (Js.trim s) = Js.trim s.
Proof.
  unfold Js.trim.
  destruct (trimStart_head s) as [-> | (c & s' & -> & W)]; [reflexivity|].
  rewrite trimStart_trimEnd_head by exact W. apply trimEnd_trimEnd.
Qed.

Lemma readTurn_trimmed st :
  Forall (fun a => Js.trim a = a) (allArgs st) ->
  match readTurn st with
  | Continue st' => Forall (fun a => Js.trim a = a) (allArgs st')
  | Return args => Forall (fun a => Js.trim a = a) args
  end.
Proof.
  intros H. unfold readTurn, shiftJoinTrim.
  destruct (next (iterator st)) as [ch it].
  repeat match goal with
         | |- context [if ?b then _ else _] => destruct b
         end;
    try (destruct (readQuoted _ _ _ _) as [it' currArg']);
    simpl; try exact H; constructor; try exact H; apply trim_trim.
Qed.

Lemma readLoop_trimmed fuel : forall st args,
  Forall (fun a => Js.trim a = a) (allArgs st) ->
  readLoop fuel st = Some args ->
  Forall (fun a => Js.trim a = a) args.
Proof.
  induction fuel as [|fuel IH]; intros st args H; simpl; [discriminate|].
  destruct (hasNext (iterator st)); [|intros [= <-]; constructor].
  pose proof (readTurn_trimmed st H) as Ht.
  destruct (readTurn st) as [st'|args'].
  - now apply IH.
  - now intros [= <-].
Qed.

(** X16: every argument that [readArguments] returns is trimmed: it
    neither begins nor ends with white space. *)
Theorem readArguments_trimmed :
  forall it args argument,
    readArguments it = Some args ->
    In argument args ->
    Js.trim argument = argument.
Proof.
  intros it args argument Hr Hin. unfold readArguments in Hr.
  apply readLoop_trimmed in Hr; [|constructor].
  rewrite List.Forall_forall in Hr. now apply Hr.
Qed.

Lemma readArguments_trimmed_witness :
  readArguments (newBackwardIterator (doc "f( a , b") (mkPosition 0 7))
  = Some ["a"; "b"]
  /\ Js.trim "a" = "a".
Proof.
  assert (E : readArguments (newBackwardIterator (doc "f( a , b") (mkPosition 0 7))
              = Some ["a"; "b"]) by (vm_compute; reflexivity).
  split; [exact E|].
  apply (readArguments_trimmed
           (newBackwardIterator (doc "f( a , b") (mkPosition 0 7))
           ["a"; "b"] "a" E).
  now left.
Defined.

(** ** The accurate scan in tag mode *)

Lemma scanBody_tag_no_string document text o st :
  stringContext st = noString ->
  stringContext (scanBody document text false o st) = noString.
Proof.
  intros H. unfold scanBody. rewrite H. simpl.
  repeat match goal with
         | |- context [if ?b then _ else _] => destruct b
         end; simpl; try exact H; reflexivity.
Qed.

(** X17: in tag mode the accurate scan never enters a string: before
    every offset its string context is the initial one, whatever quotes
    the text holds, so a quote never hides the opening of a tag comment
    from it. *)
Theorem scan_tag_mode_never_in_string :
  forall document docRange o,
    stringContext (scanStateAt document false docRange o) = noString.
Proof.
  intros document docRange o. unfold scanStateAt.
  generalize (o - fst (scanBounds document docRange)) as n.
  generalize (fst (scanBounds document docRange)) as from.
  assert (G : forall n from st,
             stringContext st = noString ->
             stringContext (scanLoop document (getText document) false n from st)
             = noString).
  { induction n as [|n IH]; intros from st H; simpl; [exact H|].
    apply IH. now apply scanBody_tag_no_string. }
  intros from n. now apply G.
Qed.

(** ** isInComment *)

Lemma isBeforeOrEqual_positionAt document a b :
  a <= String.length (getText document) ->
  isBeforeOrEqual (positionAt document a) (positionAt document b) = (a <=? b).
Proof.
  intros Ha. destruct (a <=? b) eqn:E.
  - apply Nat.leb_le in E. apply isBeforeOrEqual_ple. now apply positionAt_mono.
  - apply Nat.leb_gt in E.
    destruct (isBeforeOrEqual _ _) eqn:B; [|reflexivity].
    apply isBeforeOrEqual_ple in B.
    pose proof (positionAt_strict document b a E Ha) as S.
    unfold ple, plt in *. lia.
Qed.

(** X18: on a script text whose only slashes are those of one block
    comment that begins outside a string, [isInComment] holds of the
    positions of the offsets from the opening slash to the one after the
    closing slash, both included, and of no other: the position just
    before the comment and the one just after it count as inside. *)
Theorem isInComment_lone_block_comment_inclusive :
  forall execTagPattern document p q o,
    loneBlockComment (getText document) p q = true ->
    inString (stringContextAt (getText document) 0 p) = false ->
    o <= String.length (getText document) ->
    isInComment execTagPattern document (positionAt document o) true
    = (p <=? o) && (o <=? q + 1).
Proof.
  intros exec document p q o Hl Hs Ho. unfold isInComment.
  rewrite (commentRanges_lone_block_comment exec document p q false Hl Hs).
  destruct (loneBlockComment_chars _ _ _ Hl) as (H1 & H2 & _).
  unfold isInRangesPosition, containsPosition. simpl.
  rewrite orb_false_r.
  rewrite !isBeforeOrEqual_positionAt by lia. reflexivity.
Qed.

Lemma isInComment_lone_block_comment_inclusive_witness :
  isInComment noTags (doc "a /* b */ c") (positionAt (doc "a /* b */ c") 9) true
  = true
  /\ isInComment noTags (doc "a /* b */ c") (positionAt (doc "a /* b */ c") 10) true
     = false.
Proof.
  split.
  - apply (isInComment_lone_block_comment_inclusive noTags (doc "a /* b */ c") 2 8 9).
    + vm_compute; reflexivity.
    + vm_compute; reflexivity.
    + vm_compute. lia.
  - vm_compute. reflexivity.
Defined.

(** ** The identifier patterns *)

Lemma existsb_seq_shift (f g : nat -> bool) n :
  (forall i, f (S i) = g i) ->
  forall from, existsb f (seq (S from) n) = existsb g (seq from n).
Proof.
  intros H. induction n as [|n IH]; intros from; [reflexivity|].
  simpl. now rewrite IH, H.
Qed.

Lemma test_cons (pattern : Pattern) c s :
  (forall i, matchesAt pattern (String c s) (S i) = matchesAt pattern s i) ->
  test pattern (String c s)
  = matchesAt pattern (String c s) 0 || test pattern s.
Proof.
  intros Hshift. unfold test.
  change (String.length (String c s)) with (S (String.length s)).
  change (seq 0 (S (S (String.length s))))
    with (0 :: seq 1 (S (String.length s))).
  cbn [existsb]. fold (matchesAt pattern (String c s) 0). f_equal.
  apply existsb_seq_shift. intros i. apply Hshift.
Qed.

Lemma test_class_pattern (class : Ascii.ascii -> bool) (pattern : Pattern) :
  (forall text i,
      matchesAt pattern text i = charIn class (Js.charAt text i)) ->
  forall text,
    test pattern text = existsb class (String.list_ascii_of_string text).
Proof.
  intros Hm. induction text as [|c s IH].
  - unfold test. simpl. fold (matchesAt pattern EmptyString 0).
    rewrite Hm. reflexivity.
  - rewrite test_cons.
    + rewrite Hm, IH. reflexivity.
    + intros i. rewrite !Hm. reflexivity.
Qed.

(** X19: [isValidIdentifier] accepts a word exactly when one of its
    characters can begin an identifier, a dollar sign, a letter or an
    underscore, wherever it stands and whatever stands around it;
    [isValidIdentifierPart] accepts a string exactly when one of its
    characters can be part of one. *)
Theorem isValidIdentifier_any_start :
  forall word,
    isValidIdentifier word
    = existsb isIdentStart (String.list_ascii_of_string word)
    /\ isValidIdentifierPart word
       = existsb isIdentPart (String.list_ascii_of_string word).
Proof.
  intros word. split.
  - apply (test_class_pattern isIdentStart identPattern).
    intros text i. unfold matchesAt, identPattern.
    now destruct (charIn isIdentStart (Js.charAt text i)).
  - apply (test_class_pattern isIdentPart identPartPattern).
    intros text i. unfold matchesAt, identPartPattern.
    now destruct (charIn isIdentPart (Js.charAt text i)).
Qed.

(** ** isContinuingExpression *)

Lemma whileAt_shift class c s : forall n i,
  whileAt class (String c s) n (S i) = S (whileAt class s n i).
Proof.
  induction n as [|n IH]; intros i; [reflexivity|].
  cbn [whileAt]. change (Js.charAt (String c s) (S i)) with (Js.charAt s i).
  destruct (charIn class (Js.charAt s i)); [apply IH|reflexivity].
Qed.

Lemma blank_to_end s :
  (whileAt Js.isWhiteSpace s (String.length s) 0 =? String.length s)
  = String.eqb (Js.trimEnd s) EmptyString.
Proof.
  induction s as [|c s IH]; [reflexivity|].
  rewrite trimEnd_cons.
  change (String.length (String c s)) with (S (String.length s)).
  cbn [whileAt]. change (Js.charAt (String c s) 0) with (String c EmptyString).
  cbn [charIn].
  destruct (Js.isWhiteSpace c).
  - rewrite whileAt_shift. cbn [Nat.eqb]. rewrite IH.
    destruct (Js.trimEnd s); reflexivity.
  - destruct (Js.trimEnd s); reflexivity.
Qed.

Lemma blank_not_identPart c :
  Js.isWhiteSpace c = true -> isIdentPart c = false.
Proof.
  destruct c as [[] [] [] [] [] [] [] []]; intros H;
    first [reflexivity | discriminate H].
Qed.

Lemma last_charAt_cons c c' s :
  Js.charAt (String c (String c' s)) (String.length (String c (String c' s)) - 1)
  = Js.charAt (String c' s) (String.length (String c' s) - 1).
Proof.
  cbn [String.length]. rewrite !Nat.sub_succ, !Nat.sub_0_r. reflexivity.
Qed.

Lemma blank_last s :
  Js.trimEnd s = EmptyString ->
  charIn isIdentPart (Js.charAt s (String.length s - 1)) = false.
Proof.
  induction s as [|c s IH]; [reflexivity|].
  rewrite trimEnd_cons. intros H.
  destruct (Js.trimEnd s) eqn:E; [|discriminate H].
  destruct (Js.isWhiteSpace c) eqn:W; [|discriminate H].
  destruct s as [|c' s'].
  - simpl. now apply blank_not_identPart.
  - rewrite last_charAt_cons. now apply IH.
Qed.

Lemma endsWith_cons c c' rest suffix :
  String.length suffix = 1 ->
  Js.endsWith (String c (String c' rest)) suffix
  = Js.endsWith (String c' rest) suffix.
Proof.
  intros H. unfold Js.endsWith. rewrite H. cbn [String.length].
  rewrite !Nat.sub_succ, !Nat.sub_0_r. reflexivity.
Qed.

Lemma continuing_head c s :
  matchesAt continuingExpressionPattern (String c s) 0
  = if String.eqb (String c EmptyString) "."
    then String.eqb (Js.trimEnd s) EmptyString
    else isIdentPart c && String.eqb s EmptyString.
Proof.
  unfold matchesAt, continuingExpressionPattern.
  change (String.length (String c s)) with (S (String.length s)).
  change (Js.charAt (String c s) 0) with (String c EmptyString).
  cbn [charIn]. change (0 + 1) with 1.
  rewrite Nat.sub_succ, Nat.sub_0_r, whileAt_shift.
  cbn [Nat.eqb]. rewrite blank_to_end.
  destruct (String.eqb (String c EmptyString) ".").
  - now destruct (String.eqb (Js.trimEnd s) EmptyString).
  - destruct s as [|c' s']; simpl.
    + now destruct (isIdentPart c).
    + rewrite andb_false_r. reflexivity.
Qed.

Lemma continuing_shift c s i :
  matchesAt continuingExpressionPattern (String c s) (S i)
  = matchesAt continuingExpressionPattern s i.
Proof.
  unfold matchesAt, continuingExpressionPattern.
  change (String.length (String c s)) with (S (String.length s)).
  change (Js.charAt (String c s) (S i)) with (Js.charAt s i).
  change (S i + 1) with (S (i + 1)).
  rewrite Nat.sub_succ, whileAt_shift. cbn [Nat.eqb].
  destruct (String.eqb (Js.charAt s i) ".").
  - now destruct (whileAt _ _ _ _ =? _).
  - now destruct (charIn isIdentPart (Js.charAt s i) && _).
Qed.

Lemma last_identPart_cons c s :
  charIn isIdentPart (Js.charAt (String c s) (String.length (String c s) - 1))
  = if String.eqb s EmptyString then isIdentPart c
    else charIn isIdentPart (Js.charAt s (String.length s - 1)).
Proof.
  destruct s as [|c' s']; [reflexivity|]. now rewrite last_charAt_cons.
Qed.

Lemma endsWith_one_character c suffix :
  String.length suffix = 1 ->
  Js.endsWith (String c EmptyString) suffix = String.eqb (String c EmptyString) suffix.
Proof. intros H. unfold Js.endsWith. rewrite H. reflexivity. Qed.

(** X20: a prefix continues an expression exactly when, its trailing
    white space taken off, it ends with a dot, or when its own last
    character is one of an identifier; white space after an identifier
    ends the expression, white space after a dot does not. *)
Theorem isContinuingExpression_dot_or_identifier :
  forall prefix,
    isContinuingExpression prefix
    = Js.endsWith (Js.trimEnd prefix) "."
      || charIn isIdentPart (Js.charAt prefix (String.length prefix - 1)).
Proof.
  intros text. unfold isContinuingExpression.
  induction text as [|c s IH]; [reflexivity|].
  rewrite test_cons by apply continuing_shift.
  rewrite IH, continuing_head, trimEnd_cons, last_identPart_cons.
  destruct (Js.trimEnd s) as [|c' rest] eqn:E.
  - rewrite (blank_last s E), String.eqb_refl.
    change (Js.endsWith EmptyString ".") with false.
    rewrite !orb_false_r.
    destruct (String.eqb (String c EmptyString) ".") eqn:Ec.
    + apply String.eqb_eq in Ec. injection Ec as ->. reflexivity.
    + destruct (Js.isWhiteSpace c).
      * change (Js.endsWith EmptyString ".") with false.
        destruct (String.eqb s EmptyString);
          [now rewrite andb_true_r|now rewrite andb_false_r].
      * rewrite endsWith_one_character by reflexivity. rewrite Ec.
        destruct (String.eqb s EmptyString);
          [now rewrite andb_true_r|now rewrite andb_false_r].
  - assert (Hs : String.eqb s EmptyString = false).
    { destruct s as [|x s']; [discriminate E|reflexivity]. }
    rewrite Hs, andb_false_r.
    change (String.eqb (String c' rest) EmptyString) with false.
    rewrite endsWith_cons by reflexivity.
    now destruct (String.eqb (String c EmptyString) ".").
Qed.

(** ** getPrecedingIdentifierRange *)

Lemma test_one_character (class : Ascii.ascii -> bool) (pattern : Pattern) c :
  (forall text i,
      matchesAt pattern text i = charIn class (Js.charAt text i)) ->
  test pattern (String c EmptyString) = class c.
Proof.
  intros Hm. rewrite (test_class_pattern class pattern Hm). simpl.
  apply orb_false_r.
Qed.

Lemma nonBlank_one_character c :
  test nonBlankPattern (String c EmptyString) = negb (Js.isWhiteSpace c).
Proof.
  apply (test_one_character (fun c => negb (Js.isWhiteSpace c))).
  intros text i. unfold matchesAt, nonBlankPattern.
  now destruct (charIn _ (Js.charAt text i)).
Qed.

Lemma identPart_one_character c :
  isValidIdentifierPart (String c EmptyString) = isIdentPart c.
Proof.
  apply (test_one_character isIdentPart).
  intros text i. unfold matchesAt, identPartPattern.
  now destruct (charIn _ (Js.charAt text i)).
Qed.

Lemma fromCharCode_in_line text j c :
  String.get j text = Some c ->
  fromCharCode (charCodeAt text (Z.of_nat j)) = String c EmptyString.
Proof.
  intros H. unfold charCodeAt, fromCharCode.
  destruct (Z.of_nat j <? 0)%Z eqn:E; [apply Z.ltb_lt in E; lia|].
  rewrite Nat2Z.id, H. simpl. now rewrite Ascii.ascii_nat_embedding.
Qed.

Lemma fromCharCode_past_line text j :
  String.length text <= j ->
  fromCharCode (charCodeAt text (Z.of_nat j)) = String Ascii.zero EmptyString.
Proof.
  intros H. unfold charCodeAt, fromCharCode.
  destruct (Z.of_nat j <? 0)%Z eqn:E; [reflexivity|].
  rewrite Nat2Z.id, get_out_of_range by exact H. reflexivity.
Qed.

(** X21: at a position at or past the end of its line,
    [getPrecedingIdentifierRange] returns no range, whatever precedes the
    position: the code read first is not a number, the character made of
    it is not white space and is no part of an identifier. *)
Theorem getPrecedingIdentifierRange_at_line_end :
  forall getWordRangeAtPosition document position,
    String.length (lineAtText document (line position)) <= character position ->
    getPrecedingIdentifierRange getWordRangeAtPosition document position
    = Js.Returned None.
Proof.
  intros gw document position Hend. unfold getPrecedingIdentifierRange.
  set (it := newBackwardIterator document position).
  assert (Hr : exists fuel, remaining it = S fuel).
  { unfold remaining, it. simpl.
    destruct (Z.of_nat (line position) <? 0)%Z eqn:E;
      [apply Z.ltb_lt in E; lia|].
    exists (Z.to_nat (Z.of_nat (character position) + 1)
            + linesBefore document (Z.to_nat (Z.of_nat (line position)))).
    lia. }
  destruct Hr as (fuel & ->). cbn [skipBlank].
  assert (Hh : hasNext it = true) by (unfold hasNext, it; simpl; apply Z.leb_le; lia).
  rewrite Hh, next_in_line by (unfold it; simpl; lia).
  assert (Hc : fromCharCode (charCodeAt (iterLineText it) (lineCharacterOffset it))
               = String Ascii.zero EmptyString).
  { unfold it. simpl. now apply fromCharCode_past_line. }
  rewrite Hc, nonBlank_one_character.
  change (negb (Js.isWhiteSpace Ascii.zero)) with true. cbv iota.
  rewrite identPart_one_character. reflexivity.
Qed.

Lemma getPrecedingIdentifierRange_at_line_end_witness :
  precedingIdentifierRangeIn "ab" (mkPosition 0 2) = Js.Returned None.
Proof.
  apply (getPrecedingIdentifierRange_at_line_end (fun _ _ => None) (doc "ab")
           (mkPosition 0 2)).
  vm_compute. lia.
Defined.

Lemma skipBlank_to_first_column (text : string) (c : Ascii.ascii) :
  String.get 0 text = Some c ->
  Js.isWhiteSpace c = false ->
  forall k fuel it charStr,
    (forall j, 1 <= j <= k ->
       exists b, String.get j text = Some b /\ Js.isWhiteSpace b = true) ->
    iterLineText it = text ->
    (0 <= lineNumber it)%Z ->
    lineCharacterOffset it = Z.of_nat k ->
    k < fuel ->
    skipBlank fuel it charStr
    = (String c EmptyString,
       {| iterDocument := iterDocument it; lineNumber := lineNumber it;
          lineCharacterOffset := (-1)%Z; iterLineText := text |}).
Proof.
  intros H0 Hc.
  induction k as [|k IH]; intros fuel it charStr Hblank Ht Hl Ho Hf.
  - destruct fuel as [|fuel]; [lia|]. cbn [skipBlank].
    assert (Hh : hasNext it = true) by (unfold hasNext; apply Z.leb_le; lia).
    rewrite Hh, next_in_line by lia.
    rewrite Ht, Ho. rewrite (fromCharCode_in_line text 0 c H0).
    rewrite nonBlank_one_character, Hc. reflexivity.
  - destruct fuel as [|fuel]; [lia|]. cbn [skipBlank].
    assert (Hh : hasNext it = true) by (unfold hasNext; apply Z.leb_le; lia).
    rewrite Hh, next_in_line by lia.
    destruct (Hblank (S k)) as (b & Hb & Wb); [lia|].
    rewrite Ht, Ho. rewrite (fromCharCode_in_line text (S k) b Hb).
    rewrite nonBlank_one_character, Wb. cbn [negb].
    rewrite (IH fuel); cbn [iterLineText lineNumber lineCharacterOffset iterDocument].
    + reflexivity.
    + intros j Hj. apply Hblank. lia.
    + reflexivity.
    + exact Hl.
    + lia.
    + lia.
Qed.

(** X22: when the first character that is not white space, read back
    from the position, is a character of an identifier in the first
    column of the line, [getPrecedingIdentifierRange] throws: the iterator
    has stepped to the left of that column, and no position is made of a
    negative character. *)
Theorem getPrecedingIdentifierRange_first_column_throws :
  forall getWordRangeAtPosition document position c,
    String.get 0 (lineAtText document (line position)) = Some c ->
    isIdentPart c = true ->
    (forall j, 1 <= j <= character position ->
       exists b, String.get j (lineAtText document (line position)) = Some b
                 /\ Js.isWhiteSpace b = true) ->
    getPrecedingIdentifierRange getWordRangeAtPosition document position
    = Js.Thrown "Illegal argument: character must be non-negative".
Proof.
  intros gw document position c H0 Hc Hblank.
  assert (Wc : Js.isWhiteSpace c = false).
  { destruct (Js.isWhiteSpace c) eqn:W; [|reflexivity].
    apply blank_not_identPart in W. congruence. }
  unfold getPrecedingIdentifierRange.
  rewrite (skipBlank_to_first_column _ c H0 Wc (character position)).
  - rewrite identPart_one_character, Hc. unfold getPosition. simpl.
    destruct (Z.of_nat (line position) <? 0)%Z eqn:E; [apply Z.ltb_lt in E; lia|].
    reflexivity.
  - exact Hblank.
  - reflexivity.
  - simpl. lia.
  - reflexivity.
  - unfold remaining. simpl.
    destruct (Z.of_nat (line position) <? 0)%Z eqn:E; [apply Z.ltb_lt in E; lia|].
    lia.
Qed.

Lemma getPrecedingIdentifierRange_first_column_throws_witness :
  precedingIdentifierRangeIn "x  = 1" (mkPosition 0 2)
  = Js.Thrown "Illegal argument: character must be non-negative".
Proof.
  apply (getPrecedingIdentifierRange_first_column_throws (fun _ _ => None)
           (doc "x  = 1") (mkPosition 0 2) (Ascii.ascii_of_nat 120)).
  - reflexivity.
  - reflexivity.
  - intros j Hj. exists (Ascii.ascii_of_nat 32). simpl in Hj.
    assert (Hcase : j = 1 \/ j = 2) by lia.
    destruct Hcase as [-> | ->]; split; reflexivity.
Defined.

(** ** readArguments on plain arguments *)

Lemma get_middle before c after :
  String.get (String.length before) (before +:+ String c after) = Some c.
Proof. induction before as [|x before IH]; [reflexivity|exact IH]. Qed.

Lemma string_snoc s :
  s <> EmptyString ->
  exists s' c, s = s' +:+ String c EmptyString
               /\ String.length s = S (String.length s').
Proof.
  induction s as [|x s IH]; [congruence|]. intros _.
  destruct s as [|y s].
  - exists EmptyString, x. split; reflexivity.
  - destruct IH as (s' & c & E & L); [discriminate|].
    exists (String x s'), c. rewrite E at 1. split; [reflexivity|].
    simpl in L |- *. lia.
Qed.

Lemma plainArguments_snoc s c :
  plainArguments (s +:+ String c EmptyString) = true ->
  plainArguments s = true /\ isPlainCode (Ascii.nat_of_ascii c) = true.
Proof.
  induction s as [|x s IH].
  - simpl. rewrite andb_true_r. now split.
  - rewrite append_cons. simpl. rewrite !andb_true_iff.
    intros [Hx Hs]. destruct (IH Hs) as [H1 H2]. now repeat split.
Qed.

Lemma comma_code c : (Ascii.nat_of_ascii c =? 44) = Ascii.eqb c COMMA.
Proof. destruct c as [[] [] [] [] [] [] [] []]; reflexivity. Qed.

Lemma readTurn_paren st it' :
  next (iterator st) = (LEFT_PAREN, it') ->
  parenNesting st = 0%Z ->
  readTurn st
  = Return (Js.trim (fold_right String.append EmptyString (currArg st))
            :: allArgs st).
Proof.
  intros Hn Hp. unfold readTurn. rewrite Hn, Hp. reflexivity.
Qed.

Lemma readTurn_plain st c it' :
  next (iterator st) = (Some (Ascii.nat_of_ascii c), it') ->
  isPlainCode (Ascii.nat_of_ascii c) = true ->
  parenNesting st = 0%Z -> bracketNesting st = 0%Z -> braceNesting st = 0%Z ->
  readTurn st
  = Continue
      (if Ascii.eqb c COMMA then
         {| iterator := it'; parenNesting := 0; bracketNesting := 0;
            braceNesting := 0;
            allArgs :=
              Js.trim (fold_right String.append EmptyString (currArg st))
              :: allArgs st;
            currArg := [] |}
       else
         {| iterator := it'; parenNesting := 0; bracketNesting := 0;
            braceNesting := 0; allArgs := allArgs st;
            currArg := String c EmptyString :: currArg st |}).
Proof.
  intros Hn Hplain Hp Hb Hc. unfold readTurn. rewrite Hn, Hp, Hb, Hc.
  unfold isPlainCode in Hplain. apply negb_true_iff in Hplain.
  repeat (apply orb_false_iff in Hplain; destruct Hplain as [Hplain ?]).
  unfold codeEq, LEFT_PAREN, RIGHT_PAREN, LEFT_BRACE, RIGHT_BRACE, LEFT_BRACKET,
    RIGHT_BRACKET, DOUBLE_QUOTE_CODE, SINGLE_QUOTE_CODE, COMMA_CODE.
  repeat match goal with
         | H : (_ =? _) = false |- _ => rewrite H; clear H
         end.
  cbn [orb]. rewrite comma_code.
  unfold shiftJoinTrim, fromCharCode. cbn [default tl id].
  rewrite Ascii.ascii_nat_embedding.
  destruct (Ascii.eqb c COMMA); reflexivity.
Qed.

Lemma readLoop_plain (line before after : string) :
  forall n read unread st fuel,
    String.length unread = n ->
    line = before +:+ String OPEN_PAREN ((unread +:+ read) +:+ after) ->
    plainArguments unread = true ->
    iterLineText (iterator st) = line ->
    (0 <= lineNumber (iterator st))%Z ->
    lineCharacterOffset (iterator st) = Z.of_nat (String.length before + n) ->
    parenNesting st = 0%Z -> bracketNesting st = 0%Z -> braceNesting st = 0%Z ->
    (exists piece pieces,
        Js.split COMMA read = piece :: pieces
        /\ fold_right String.append EmptyString (currArg st) = piece
        /\ allArgs st = map Js.trim pieces) ->
    n + 1 <= fuel ->
    readLoop fuel st = Some (map Js.trim (Js.split COMMA (unread +:+ read))).
Proof.
  induction n as [|n IH];
    intros read unread st fuel Hlen Hline Hplain Htext Hl Ho Hp Hb Hc Hinv Hf.
  - destruct unread; [|discriminate Hlen]. rewrite append_empty_l in *.
    destruct fuel as [|fuel]; [lia|]. cbn [readLoop].
    assert (Hh : hasNext (iterator st) = true)
      by (unfold hasNext; apply Z.leb_le; lia).
    rewrite Hh.
    assert (Hn : next (iterator st)
                 = (LEFT_PAREN,
                    {| iterDocument := iterDocument (iterator st);
                       lineNumber := lineNumber (iterator st);
                       lineCharacterOffset := (lineCharacterOffset (iterator st) - 1)%Z;
                       iterLineText := iterLineText (iterator st) |})).
    { rewrite next_in_line by lia. f_equal.
      rewrite Htext, Ho, Nat.add_0_r. unfold charCodeAt.
      destruct (Z.of_nat (String.length before) <? 0)%Z eqn:E;
        [apply Z.ltb_lt in E; lia|].
      rewrite Nat2Z.id, Hline, get_middle. reflexivity. }
    rewrite (readTurn_paren st _ Hn Hp).
    destruct Hinv as (piece & pieces & Hs & Hj & Ha).
    rewrite Hs, Hj, Ha. reflexivity.
  - destruct (string_snoc unread) as (unread' & c & -> & Hlen');
      [intros ->; discriminate Hlen|].
    rewrite Hlen in Hlen'. injection Hlen' as Hlen'.
    apply plainArguments_snoc in Hplain as [Hplain Hcode].
    assert (Hassoc : forall rest,
               ((unread' +:+ String c EmptyString) +:+ read) +:+ rest
               = unread' +:+ String c (read +:+ rest)).
    { intros rest. now rewrite !append_assoc. }
    destruct fuel as [|fuel]; [lia|]. cbn [readLoop].
    assert (Hh : hasNext (iterator st) = true)
      by (unfold hasNext; apply Z.leb_le; lia).
    rewrite Hh.
    assert (Hn : next (iterator st)
                 = (Some (Ascii.nat_of_ascii c),
                    {| iterDocument := iterDocument (iterator st);
                       lineNumber := lineNumber (iterator st);
                       lineCharacterOffset := (lineCharacterOffset (iterator st) - 1)%Z;
                       iterLineText := iterLineText (iterator st) |})).
    { rewrite next_in_line by lia. f_equal.
      rewrite Htext, Ho. unfold charCodeAt.
      destruct (Z.of_nat (String.length before + S n) <? 0)%Z eqn:E;
        [apply Z.ltb_lt in E; lia|].
      rewrite Nat2Z.id, Hline, Hassoc.
      replace (before +:+ String OPEN_PAREN (unread' +:+ String c (read +:+ after)))
        with ((before +:+ String OPEN_PAREN unread') +:+ String c (read +:+ after))
        by (now rewrite append_assoc).
      replace (String.length before + S n)
        with (String.length (before +:+ String OPEN_PAREN unread'))
        by (rewrite length_append; simpl; lia).
      now rewrite get_middle. }
    rewrite (readTurn_plain st c _ Hn Hcode Hp Hb Hc).
    destruct Hinv as (piece & pieces & Hs & Hj & Ha).
    replace ((unread' +:+ String c EmptyString) +:+ read)
      with (unread' +:+ String c read) by (now rewrite append_assoc).
    destruct (Ascii.eqb c COMMA) eqn:Ecomma.
    + apply (IH (String c read) unread'); cbn [iterator parenNesting
        bracketNesting braceNesting allArgs currArg iterLineText lineNumber
        lineCharacterOffset]; try reflexivity; try assumption.
      * now symmetry.
      * rewrite Hline, Hassoc. now rewrite append_assoc.
      * lia.
      * exists EmptyString, (piece :: pieces). simpl. rewrite Ecomma, Hs.
        repeat split. now rewrite Hj, Ha.
      * lia.
    + apply (IH (String c read) unread'); cbn [iterator parenNesting
        bracketNesting braceNesting allArgs currArg iterLineText lineNumber
        lineCharacterOffset]; try reflexivity; try assumption.
      * now symmetry.
      * rewrite Hline, Hassoc. now rewrite append_assoc.
      * lia.
      * exists (String c piece), pieces. simpl. rewrite Ecomma, Hs.
        repeat split; [|exact Ha]. now rewrite <- Hj.
      * lia.
Qed.

(** X23: read back from the last character of a list of arguments that
    holds no bracket and no quote, [readArguments] returns the pieces
    between the commas of the list, each trimmed, in their order; what
    stands before the opening parenthesis and after the position does not
    matter. *)
Theorem readArguments_plain_arguments :
  forall document position before arguments after,
    lineAtText document (line position)
    = before +:+ String OPEN_PAREN (arguments +:+ after) ->
    character position = String.length before + String.length arguments ->
    plainArguments arguments = true ->
    readArguments (newBackwardIterator document position)
    = Some (map Js.trim (Js.split COMMA arguments)).
Proof.
  intros document position before arguments after Hline Hch Hplain.
  unfold readArguments.
  assert (E : arguments = arguments +:+ EmptyString).
  { clear. induction arguments as [|c s IH]; [reflexivity|].
    rewrite append_cons. now rewrite <- IH. }
  rewrite E at 1.
  apply (readLoop_plain (lineAtText document (line position)) before after
           (String.length arguments) EmptyString arguments).
  - reflexivity.
  - now rewrite <- E.
  - exact Hplain.
  - reflexivity.
  - simpl. lia.
  - simpl. now rewrite Hch.
  - reflexivity.
  - reflexivity.
  - reflexivity.
  - exists EmptyString, []. repeat split.
  - unfold remaining. simpl.
    destruct (Z.of_nat (line position) <? 0)%Z eqn:E';
      [apply Z.ltb_lt in E'; lia|]. lia.
Qed.

Lemma readArguments_plain_arguments_witness :
  readArguments
    (newBackwardIterator (doc "x = max( a, b + 1 ) + y") (mkPosition 0 17))
  = Some ["a"; "b + 1"].
Proof.
  apply (readArguments_plain_arguments (doc "x = max( a, b + 1 ) + y")
           (mkPosition 0 17) "x = max" " a, b + 1 " ") + y").
  - reflexivity.
  - reflexivity.
  - reflexivity.
Defined.
